(** * horreum-to-postgresql: mirroring Horreum datasets into PostgreSQL

    A shallow embedding of [src/horreum-to-postgresql.py] (class [Worker])
    and the properties of its paginated extraction and batched,
    conflict-skipping load.

    Layout: the embedding (numbers and dates, the data model, the world the
    script talks to, the [Worker] methods), concrete scenarios, then the
    lemmas and theorems. *)

From Stdlib Require Import ZArith List String Bool Lia Arith.
Import ListNotations.
Open Scope Z_scope.

(* ===================================================================== *)
(** * Numbers: Python's [int / int] and [round]                           *)
(* ===================================================================== *)

Module PyFloat.

(** A finite binary64 value, kept as the dyadic number [mant * 2^expo].
    Every operation below is the exact operation followed by IEEE-754
    round-to-nearest, ties-to-even, as CPython performs it. *)
Record float := mkFloat { mant : Z; expo : Z }.

Definition zero : float := mkFloat 0 0.

(** Nearest integer to [p / q] for [q > 0], ties to the even integer. *)
Definition div_half_even (p q : Z) : Z :=
  let d := p / q in
  let r := p mod q in
  if 2 * r <? q then d
  else if q <? 2 * r then d + 1
  else if Z.even d then d else d + 1.

(** [floor (log2 (a / q))] for [a > 0], [q > 0]. *)
Definition ratio_log2 (a q : Z) : Z :=
  let k := Z.log2 a - Z.log2 q in
  if 0 <=? k
  then (if q * 2 ^ k <=? a then k else k - 1)
  else (if q <=? a * 2 ^ (- k) then k else k - 1).

(** Exponent of the binary64 format for a value whose binary logarithm
    has floor [lg]: 53 significant bits, subnormals below [2^-1022]. *)
Definition format_expo (lg : Z) : Z := Z.max (lg - 52) (-1074).

(** [p / q] rounded to binary64, for [q > 0]; [None] when the result
    exceeds the largest finite double (Python raises OverflowError). *)
Definition of_ratio (p q : Z) : option float :=
  if p =? 0 then Some zero
  else
    let a := Z.abs p in
    let e := format_expo (ratio_log2 a q) in
    let m := if e <? 0 then div_half_even (a * 2 ^ (- e)) q
             else div_half_even a (q * 2 ^ e) in
    if 2 ^ 53 * 2 ^ 971 <=? m * 2 ^ (Z.max e 0) then None
    else Some (mkFloat (Z.sgn p * m) e).

(** [a / b] on Python ints: the correctly rounded quotient
    ([long_true_divide]); ZeroDivisionError and OverflowError are
    both reported as [None]. *)
Definition true_divide (a b : Z) : option float :=
  if b =? 0 then None
  else of_ratio (Z.sgn b * a) (Z.abs b).

(** [math.modf]: fractional and integral part, both with the sign of the
    argument; both are exact. *)
Definition modf (x : float) : float * Z :=
  if 0 <=? expo x then (zero, mant x * 2 ^ expo x)
  else
    let s := 2 ^ (- expo x) in
    (mkFloat (Z.rem (mant x) s) (expo x), Z.quot (mant x) s).

(** [x * 1e6]: the constant [1e6] is the integer 1000000, exactly
    representable. *)
Definition mul_1e6 (x : float) : option float :=
  if 0 <=? expo x then of_ratio (mant x * 1000000 * 2 ^ expo x) 1
  else of_ratio (mant x * 1000000) (2 ^ (- expo x)).

(** Python's [round(x)] on a float: nearest int, ties to even. *)
Definition round (x : float) : Z :=
  if 0 <=? expo x then mant x * 2 ^ expo x
  else div_half_even (mant x) (2 ^ (- expo x)).

End PyFloat.

(* ===================================================================== *)
(** * Dates: [datetime.datetime.fromtimestamp(t, datetime.UTC)]           *)
(* ===================================================================== *)

Module PyDatetime.

(** An aware [datetime] in UTC. *)
Record datetime := mkDatetime {
  year : Z; month : Z; day : Z;
  hour : Z; minute : Z; second : Z; microsecond : Z
}.

Definition _DI400Y : Z := 146097.
Definition _DI100Y : Z := 36524.
Definition _DI4Y : Z := 1461.

(** [_DAYS_BEFORE_MONTH[month]] and [_DAYS_IN_MONTH[month]]. *)
Definition _DAYS_BEFORE_MONTH (m : Z) : Z :=
  nth (Z.to_nat m) [0; 0; 31; 59; 90; 120; 151; 181; 212; 243; 273; 304; 334] 0.
Definition _DAYS_IN_MONTH (m : Z) : Z :=
  nth (Z.to_nat m) [0; 31; 28; 31; 30; 31; 30; 31; 31; 30; 31; 30; 31] 0.

(** [_ord2ymd]: proleptic Gregorian ordinal (0001-01-01 is day 1) to
    (year, month, day). *)
Definition _ord2ymd (n : Z) : Z * Z * Z :=
  let n := n - 1 in
  let n400 := n / _DI400Y in let n := n mod _DI400Y in
  let year := n400 * 400 + 1 in
  let n100 := n / _DI100Y in let n := n mod _DI100Y in
  let n4 := n / _DI4Y in let n := n mod _DI4Y in
  let n1 := n / 365 in let n := n mod 365 in
  let year := year + n100 * 100 + n4 * 4 + n1 in
  if (n1 =? 4) || (n100 =? 4) then (year - 1, 12, 31)
  else
    let leapyear := (n1 =? 3) && (negb (n4 =? 24) || (n100 =? 3)) in
    let month := Z.shiftr (n + 50) 5 in
    let preceding :=
      _DAYS_BEFORE_MONTH month + (if (2 <? month) && leapyear then 1 else 0) in
    if n <? preceding then
      let month := month - 1 in
      let preceding :=
        preceding - (_DAYS_IN_MONTH month
                     + (if (month =? 2) && leapyear then 1 else 0)) in
      (year, month, n - preceding + 1)
    else (year, month, n - preceding + 1).

(** Ordinal of 1970-01-01. *)
Definition _EPOCH_ORD : Z := 719163.

(** The UTC date and time [t] whole seconds after the epoch, with [us]
    microseconds: [time.gmtime] followed by the [datetime] constructor,
    which rejects years outside 1..9999 ([None]). *)
Definition utc_of_epoch (t us : Z) : option datetime :=
  let days := t / 86400 in
  let rem := t mod 86400 in
  let '(y, m, d) := _ord2ymd (days + _EPOCH_ORD) in
  if (1 <=? y) && (y <=? 9999)
  then Some (mkDatetime y m d (rem / 3600) (rem mod 3600 / 60) (rem mod 60) us)
  else None.

(** [datetime._fromtimestamp(t, True, UTC)]:
      frac, t = _math.modf(t)
      us = round(frac * 1e6)
      if us >= 1000000: t += 1; us -= 1000000
      elif us < 0:      t -= 1; us += 1000000
    then the calendar conversion. *)
Definition fromtimestamp (x : PyFloat.float) : option datetime :=
  let '(frac, t) := PyFloat.modf x in
  match PyFloat.mul_1e6 frac with
  | None => None
  | Some y =>
      let us := PyFloat.round y in
      if 1000000 <=? us then utc_of_epoch (t + 1) (us - 1000000)
      else if us <? 0 then utc_of_epoch (t - 1) (us + 1000000)
      else utc_of_epoch t us
  end.

End PyDatetime.

(** [datetime.datetime.fromtimestamp(ds["start"] / 1000, datetime.UTC)]
    (line 229 of the script); [None] stands for the exception Python raises
    on a value that is no representable date. *)
Definition when_of_start (start : Z) : option PyDatetime.datetime :=
  match PyFloat.true_divide start 1000 with
  | None => None
  | Some x => PyDatetime.fromtimestamp x
  end.

(** The conversion as the specification words it: integer division by 1000,
    then the epoch conversion, the sub-second part dropped. *)
Definition spec_when_of_start (start : Z) : option PyDatetime.datetime :=
  PyDatetime.utc_of_epoch (start / 1000) 0.

(** The way back from a date to the ordinal of its day, as
    [datetime.toordinal] computes it ([_is_leap], [_days_before_year],
    [_days_before_month], [_ymd2ord]). *)
Definition is_leap_year (y : Z) : bool :=
  (y mod 4 =? 0) && (negb (y mod 100 =? 0) || (y mod 400 =? 0)).
Definition days_before_year (y : Z) : Z :=
  (y - 1) * 365 + (y - 1) / 4 - (y - 1) / 100 + (y - 1) / 400.
Definition days_before_month (y m : Z) : Z :=
  PyDatetime._DAYS_BEFORE_MONTH m + (if (2 <? m) && is_leap_year y then 1 else 0).
Definition ordinal_of_date (y m d : Z) : Z :=
  days_before_year y + days_before_month y m + d.

(** The instant an aware UTC [datetime] names, in microseconds since the
    epoch: what the server reads from the literal psycopg2 sends for it,
    ['2023-11-14T22:13:20.500000+00:00'::timestamptz]. *)
Definition epoch_microseconds (d : PyDatetime.datetime) : Z :=
  ((ordinal_of_date (PyDatetime.year d) (PyDatetime.month d) (PyDatetime.day d)
    - PyDatetime._EPOCH_ORD) * 86400
   + 3600 * PyDatetime.hour d + 60 * PyDatetime.minute d + PyDatetime.second d)
  * 1000000
  + PyDatetime.microsecond d.

(** The [TimeZone] setting of a database session: the offset of the zone
    from UTC, in seconds, at an instant given in whole seconds since the
    epoch (a zone with daylight saving has two offsets). *)
Definition timezone := Z -> Z.

(** A value of a [TIMESTAMP] column (without time zone): a wall-clock
    date and time, held as the microseconds from 1970-01-01 00:00:00 to
    it. *)
Definition timestamp := Z.

(** The assignment cast from [timestamptz] to [timestamp]: the wall clock
    of the session's zone at the instant. *)
Definition timestamptz_to_timestamp (tz : timezone) (d : PyDatetime.datetime)
  : timestamp :=
  let us := epoch_microseconds d in
  us + 1000000 * tz (us / 1000000).

(* ===================================================================== *)
(** * Data model                                                          *)
(* ===================================================================== *)

(** One element of the ["datasets"] array of the listing call; the script
    reads the keys ["id"], ["testId"], ["runId"] and ["start"]. *)
Record dataset := mkDataset {
  ds_id : Z;
  ds_testId : Z;
  ds_runId : Z;
  ds_start : Z     (* epoch milliseconds *)
}.

(** A label value: some JSON value. *)
Inductive json :=
| JNull
| JBool (b : bool)
| JInt (n : Z)
| JString (s : string).

(** A Python [dict] from label name to value: keys unique, insertion
    order kept. *)
Definition dict := list (string * json).

(** [d[k] = v]: overwrite in place when the key is there, append if not. *)
Fixpoint dict_set (d : dict) (k : string) (v : json) : dict :=
  match d with
  | [] => [(k, v)]
  | (k', v') :: d' =>
      if String.eqb k' k then (k', v) :: d' else (k', v') :: dict_set d' k v
  end.

(** [{i["name"]: i["value"] for i in items}] *)
Definition dict_of_items (items : list (string * json)) : dict :=
  fold_left (fun d i => dict_set d (fst i) (snd i)) items [].

(** The text [json.dumps] produces for a dict, kept symbolic. *)
Inductive json_text := JsonText (d : dict).
Definition json_dumps (d : dict) : json_text := JsonText d.

(** The dict the pipeline builds per dataset (lines 233-239). *)
Record record := mkRecord {
  horreum_testid : Z;
  horreum_runid : Z;
  horreum_datasetid : Z;
  start : PyDatetime.datetime;
  label_values : dict
}.

(** A row of table [data] (lines 82-90); [start] is a [TIMESTAMP]
    without time zone. *)
Record row := mkRow {
  row_id : Z;
  row_testid : Z;
  row_runid : Z;
  row_datasetid : Z;
  row_start : timestamp;
  row_label_values : json_text
}.

(** The natural key [(horreum_testid, horreum_runid, horreum_datasetid)]. *)
Definition key := (Z * Z * Z)%type.
Definition key_eqb (a b : key) : bool :=
  let '(a1, a2, a3) := a in
  let '(b1, b2, b3) := b in
  (a1 =? b1) && (a2 =? b2) && (a3 =? b3).
Definition row_key (r : row) : key := (row_testid r, row_runid r, row_datasetid r).
Definition record_key (r : record) : key :=
  (horreum_testid r, horreum_runid r, horreum_datasetid r).

(** The tuple [values] of one INSERT (lines 134-140); psycopg2 sends the
    aware [datetime] as a [timestamptz] literal. *)
Definition values := (Z * Z * Z * PyDatetime.datetime * json_text)%type.
Definition values_key (v : values) : key :=
  let '(t, r, d, _, _) := v in (t, r, d).

(* ===================================================================== *)
(** * The world: the Horreum service and the PostgreSQL server            *)
(* ===================================================================== *)

(** An HTTP response: its status code and its decoded JSON body. *)
Record response (B : Type) := mkResponse { status_code : Z; body : B }.
Arguments mkResponse {B} _ _.
Arguments status_code {B} _.
Arguments body {B} _.

(** The remote service. A handler sees how many requests were answered
    before this one, so any deterministic service is an instance; [None]
    is a request that fails below HTTP (no response at all). The body of a
    listing is the value under ["datasets"], [None] when the key is
    missing. *)
Record horreum := mkHorreum {
  api_dataset_list : nat -> Z -> Z -> Z -> option (response (option (list dataset)));
  api_labelValues : nat -> Z -> option (response (list (string * json)))
}.

(** What the script does to the outside, in order. *)
Inductive event :=
| EvConnect                                   (* psycopg2.connect returned *)
| EvGetDatasets (test_id page limit : Z)      (* GET /api/dataset/list/{test_id} *)
| EvGetLabelValues (dataset_id : Z)           (* GET /api/dataset/{id}/labelValues *)
| EvInsert (data_list : list record)          (* _db_insert entered *)
| EvCommit                                    (* conn.commit() returned *)
| EvClose.                                    (* conn.close() returned *)

(** State of the transaction of the connection: psycopg2 opens one at the
    first statement; [view] is the table as the transaction sees it
    ([None]: no table [data]). *)
Inductive txn :=
| TxnIdle
| TxnActive (view : option (list row))
| TxnAborted.

Record world := mkWorld {
  w_horreum : horreum;
  w_requests : nat;                 (* HTTP requests answered so far *)
  w_db_data : option (list row);    (* committed table [data]; [None]: absent *)
  w_db_seq : Z;                     (* next value of the sequence behind [id] *)
  w_db_fault : nat -> bool;         (* which database round trips fail *)
  w_db_timezone : timezone;         (* the TimeZone setting sessions get *)
  w_db_ops : nat;                   (* database round trips so far *)
  w_conn_open : bool;
  w_txn : txn;
  w_trace : list event
}.

Definition set_requests (n : nat) (w : world) : world :=
  mkWorld (w_horreum w) n (w_db_data w) (w_db_seq w) (w_db_fault w)
          (w_db_timezone w) (w_db_ops w)
          (w_conn_open w) (w_txn w) (w_trace w).
Definition set_db_data (d : option (list row)) (w : world) : world :=
  mkWorld (w_horreum w) (w_requests w) d (w_db_seq w) (w_db_fault w)
          (w_db_timezone w) (w_db_ops w)
          (w_conn_open w) (w_txn w) (w_trace w).
Definition set_db_seq (s : Z) (w : world) : world :=
  mkWorld (w_horreum w) (w_requests w) (w_db_data w) s (w_db_fault w)
          (w_db_timezone w) (w_db_ops w)
          (w_conn_open w) (w_txn w) (w_trace w).
Definition set_db_ops (n : nat) (w : world) : world :=
  mkWorld (w_horreum w) (w_requests w) (w_db_data w) (w_db_seq w) (w_db_fault w)
          (w_db_timezone w) n
          (w_conn_open w) (w_txn w) (w_trace w).
Definition set_conn_open (b : bool) (w : world) : world :=
  mkWorld (w_horreum w) (w_requests w) (w_db_data w) (w_db_seq w) (w_db_fault w)
          (w_db_timezone w) (w_db_ops w) b (w_txn w) (w_trace w).
Definition set_txn (t : txn) (w : world) : world :=
  mkWorld (w_horreum w) (w_requests w) (w_db_data w) (w_db_seq w) (w_db_fault w)
          (w_db_timezone w) (w_db_ops w) (w_conn_open w) t (w_trace w).
Definition log (e : event) (w : world) : world :=
  mkWorld (w_horreum w) (w_requests w) (w_db_data w) (w_db_seq w) (w_db_fault w)
          (w_db_timezone w) (w_db_ops w) (w_conn_open w) (w_txn w) (w_trace w ++ [e]).

(** ** Exceptions and the monad of the script *)

Inductive exn :=
| ConnectionError                (* requests: no response *)
| HTTPError (status : Z)         (* requests: raise_for_status *)
| OperationalError               (* psycopg2: the round trip failed *)
| InterfaceError                 (* psycopg2: connection already closed *)
| InFailedSqlTransaction         (* psycopg2: statement in an aborted transaction *)
| UndefinedTable                 (* psycopg2: relation "data" does not exist *)
| NumericValueOutOfRange         (* psycopg2: integer out of range *)
| ValueError.                    (* datetime: no such date, OverflowError included *)

Inductive result (A : Type) :=
| Ok (a : A)
| Raise (e : exn).
Arguments Ok {A} _.
Arguments Raise {A} _.

(** A computation runs in a world and leaves a world behind, also when it
    raises. *)
Definition M (A : Type) : Type := world -> result A * world.

Definition ret {A} (a : A) : M A := fun w => (Ok a, w).
Definition raise {A} (e : exn) : M A := fun w => (Raise e, w).
Definition bind {A B} (m : M A) (f : A -> M B) : M B :=
  fun w =>
    match m w with
    | (Ok a, w') => f a w'
    | (Raise e, w') => (Raise e, w')
    end.
Definition modify (f : world -> world) : M unit := fun w => (Ok tt, f w).

Declare Scope py_scope.
Delimit Scope py_scope with py.
Notation "x <- m ;; k" := (bind m (fun x => k))
  (at level 61, m at next level, right associativity) : py_scope.
Notation "m ;; k" := (bind m (fun _ => k))
  (at level 61, right associativity) : py_scope.
Open Scope py_scope.

(** ** requests *)

Definition requests_get_dataset_list (test_id page limit : Z)
  : M (response (option (list dataset))) :=
  fun w =>
    let w' := log (EvGetDatasets test_id page limit)
                  (set_requests (S (w_requests w)) w) in
    match api_dataset_list (w_horreum w) (w_requests w) test_id page limit with
    | Some r => (Ok r, w')
    | None => (Raise ConnectionError, w')
    end.

Definition requests_get_labelValues (dataset_id : Z)
  : M (response (list (string * json))) :=
  fun w =>
    let w' := log (EvGetLabelValues dataset_id)
                  (set_requests (S (w_requests w)) w) in
    match api_labelValues (w_horreum w) (w_requests w) dataset_id with
    | Some r => (Ok r, w')
    | None => (Raise ConnectionError, w')
    end.

(** [Response.raise_for_status]: HTTPError on 4xx and 5xx. *)
Definition is_error_status (s : Z) : bool := (400 <=? s) && (s <? 600).

(** A success status as the specification words it: 2xx. *)
Definition spec_success_status (s : Z) : bool := (200 <=? s) && (s <? 300).
Definition raise_for_status {B} (r : response B) : M unit :=
  if is_error_status (status_code r) then raise (HTTPError (status_code r))
  else ret tt.

(** ** psycopg2 and the PostgreSQL server *)

(** One database round trip; the oracle of the world says whether it
    fails. *)
Definition db_round_trip : M unit :=
  fun w =>
    let w' := set_db_ops (S (w_db_ops w)) w in
    if w_db_fault w (w_db_ops w) then (Raise OperationalError, w')
    else (Ok tt, w').

(** [psycopg2.connect] with the parameters of the command line *)
Definition psycopg2_connect : M unit :=
  db_round_trip ;;
  modify (fun w => log EvConnect (set_txn TxnIdle (set_conn_open true w))).

(** [conn.cursor()] *)
Definition conn_cursor : M unit :=
  fun w => if w_conn_open w then (Ok tt, w) else (Raise InterfaceError, w).

(** A statement of the script, run in a session with the time zone [tz],
    inside the current transaction on the view [v] of the table; the
    sequence is the only state a statement touches outside the
    transaction. *)
Definition statement (A : Type) : Type :=
  timezone -> option (list row) -> Z -> result (A * option (list row)) * Z.

(** [cur.execute(...)]: one round trip; the first statement after a commit
    opens a transaction; an error aborts the transaction. *)
Definition cur_execute {A} (s : statement A) : M A :=
  fun w =>
    match db_round_trip w with
    | (Raise e, w') => (Raise e, set_txn TxnAborted w')
    | (Ok _, w') =>
        match w_txn w' with
        | TxnAborted => (Raise InFailedSqlTransaction, w')
        | t =>
            let v := match t with TxnActive v => v | _ => w_db_data w' end in
            match s (w_db_timezone w') v (w_db_seq w') with
            | (Ok (a, v'), seq) => (Ok a, set_txn (TxnActive v') (set_db_seq seq w'))
            | (Raise e, seq) => (Raise e, set_txn TxnAborted (set_db_seq seq w'))
            end
        end
    end.

(** [conn.commit()] *)
Definition conn_commit : M unit :=
  fun w =>
    if negb (w_conn_open w) then (Raise InterfaceError, w)
    else
      match db_round_trip w with
      | (Raise e, w') => (Raise e, set_txn TxnAborted w')
      | (Ok _, w') =>
          let w'' := match w_txn w' with
                     | TxnActive v => set_db_data v w'
                     | _ => w'
                     end in
          (Ok tt, log EvCommit (set_txn TxnIdle w''))
      end.

(** [conn.close()]: what the transaction did and did not commit is
    dropped. *)
Definition conn_close : M unit :=
  modify (fun w => log EvClose (set_txn TxnIdle (set_conn_open false w))).

(** [SELECT EXISTS (SELECT FROM pg_tables WHERE tablename = 'data');] *)
Definition select_table_exists : statement bool :=
  fun _ v seq =>
    (Ok (match v with Some _ => true | None => false end, v), seq).

(** [CREATE TABLE data (id SERIAL PRIMARY KEY, ...)] *)
Definition create_table : statement unit :=
  fun _ v seq =>
    match v with
    | Some _ => (Raise OperationalError, seq)     (* relation already exists *)
    | None => (Ok (tt, Some []), 1)
    end.

(** An INTEGER column holds 32-bit signed values. *)
Definition is_integer (z : Z) : bool := (- 2 ^ 31 <=? z) && (z <? 2 ^ 31).

(** [INSERT INTO data (...) VALUES (%s, %s, %s, %s, %s)
     ON CONFLICT (horreum_testid, horreum_runid, horreum_datasetid) DO NOTHING;]
    The default of [id] is taken from the sequence before the conflict is
    seen, so a skipped row still uses a number. The fourth value arrives
    as a [timestamptz] literal and is assigned to the column [start
    TIMESTAMP], which holds the wall clock of the session's zone. *)
Definition insert_on_conflict_do_nothing (vals : values) : statement unit :=
  fun tz v seq =>
    match v with
    | None => (Raise UndefinedTable, seq)
    | Some rows =>
        let '(t, r, d, s, l) := vals in
        if is_integer t && is_integer r && is_integer d then
          if existsb (fun x => key_eqb (row_key x) (t, r, d)) rows
          then (Ok (tt, Some rows), seq + 1)
          else (Ok (tt, Some (rows ++ [mkRow seq t r d
                                             (timestamptz_to_timestamp tz s) l])),
                seq + 1)
        else (Raise NumericValueOutOfRange, seq)
    end.

(** Several statements sent as one string [s1;s2;...]: they run in order
    and the first error ends the whole string. *)
Fixpoint statements (ss : list (statement unit)) : statement unit :=
  fun tz v seq =>
    match ss with
    | [] => (Ok (tt, v), seq)
    | s :: ss' =>
        match s tz v seq with
        | (Ok (_, v'), seq') => statements ss' tz v' seq'
        | (Raise e, seq') => (Raise e, seq')
        end
    end.

(** [psycopg2.extras._paginate]: consecutive pages of [page_size] items,
    the last one shorter; nothing for an empty sequence. The first argument
    bounds the number of pages. *)
Fixpoint _paginate {A} (n : nat) (seq : list A) (page_size : nat) : list (list A) :=
  match n with
  | O => []
  | S n' =>
      match seq with
      | [] => []
      | _ => firstn page_size seq :: _paginate n' (skipn page_size seq) page_size
      end
  end.

(** [psycopg2.extras.execute_batch(cur, query, argslist)], with its
    default [page_size=100]:
      for page in _paginate(argslist, page_size=page_size):
          sqls = [cur.mogrify(sql, args) for args in page]
          cur.execute(the statements joined by semicolons) *)
Fixpoint execute_pages (pages : list (list values)) : M unit :=
  match pages with
  | [] => ret tt
  | page :: pages' =>
      cur_execute (statements (map insert_on_conflict_do_nothing page)) ;;
      execute_pages pages'
  end.

Definition execute_batch (argslist : list values) : M unit :=
  execute_pages (_paginate (List.length argslist) argslist 100).

(* ===================================================================== *)
(** * class Worker                                                        *)
(* ===================================================================== *)

(** The arguments of the [upload] sub-command that the mirrored path
    reads. The base URL, the API token and the connection parameters only
    select the service and the server, which are the world here. *)
Record args := mkArgs {
  horreum_test_id : Z;
  horreum_count : Z;
  horreum_page : Z;
  horreum_limit : Z
}.

(** ** _setup (lines 59-66): the request headers are fixed for the run;
    nothing of the world changes. *)
Definition _setup : M unit := ret tt.

(** ** _db_connect (lines 94-113) *)
Definition _db_connect : M unit := psycopg2_connect.

(** ** _db_table_init (lines 68-92) *)
Definition _db_table_init : M unit :=
  conn_cursor ;;
  table_exists <- cur_execute select_table_exists ;;
  if negb table_exists then
    cur_execute create_table ;;
    conn_commit
  else ret tt.

(** ** _db_insert (lines 115-146) *)

(** The tuple built from one element of [data_list] (lines 134-140). *)
Definition values_of (i : record) : values :=
  (horreum_testid i, horreum_runid i, horreum_datasetid i,
   start i, json_dumps (label_values i)).

(** The first line records the call itself in the trace. *)
Definition _db_insert (data_list : list record) : M unit :=
  modify (log (EvInsert data_list)) ;;
  conn_cursor ;;
  let values_list := map values_of data_list in
  execute_batch values_list ;;
  conn_commit.

(** The statements one call of [_db_insert] sends, as one sequence. *)
Definition insert_all (data_list : list record) : statement unit :=
  statements (map insert_on_conflict_do_nothing (map values_of data_list)).

(** ** _horreum_datasets (lines 148-195), a generator *)

(** Where the generator stands between two calls of [next]. *)
Inductive generator :=
| GenCreated (page : Z)
    (* not started: [counter = 0] is the first thing it will do *)
| GenSuspended (counter page : Z) (datasets rest : list dataset)
    (* stopped at [yield ds] (line 183); [rest] is what the [for] over
       [datasets] has not reached yet *)
| GenFinished.
    (* it returned or raised *)

(** [response.json().get("datasets", [])] (line 179) *)
Definition json_get_datasets (response : response (option (list dataset)))
  : list dataset :=
  match body response with Some l => l | None => [] end.

(** Lines 164-183 for a given [counter] and [page]: request the page,
    decode it, start the [for]. An empty [datasets] skips the [for] and
    leaves by the test of line 191. *)
Definition request_page (test_id limit counter page : Z)
  : M (option dataset * generator) :=
  response <- requests_get_dataset_list test_id page limit ;;
  raise_for_status response ;;
  let datasets := json_get_datasets response in    (* line 179 *)
  match datasets with
  | ds :: rest => ret (Some ds, GenSuspended counter page datasets rest)
  | [] => ret (None, GenFinished)
  end.

(** [next(generator)]: run up to the next [yield] ([Some ds]) or to the
    end ([None], StopIteration). *)
Definition gen_next (test_id count limit : Z) (g : generator)
  : M (option dataset * generator) :=
  match g with
  | GenCreated page => request_page test_id limit 0 page
  | GenSuspended counter page datasets rest =>
      let counter := counter + 1 in                    (* line 185 *)
      if counter >=? count then ret (None, GenFinished)   (* lines 187-189 *)
      else
        match rest with
        | ds :: rest' =>
            ret (Some ds, GenSuspended counter page datasets rest')
        | [] =>
            if (List.length datasets =? 0)%nat             (* line 191 *)
            then ret (None, GenFinished)
            else request_page test_id limit counter (page + 1)   (* line 195 *)
        end
  | GenFinished => ret (None, GenFinished)
  end.

Definition _horreum_datasets (a : args) : generator :=
  GenCreated (horreum_page a).

(** How a consumer that takes all it can get, [list(generator)], ends. *)
Inductive ending :=
| Exhausted
| Failed (e : exn)
| Pending.      (* the bound on the number of [next] calls was reached *)

(** [list(self._horreum_datasets(...))]: the items in order and how the
    sequence ended, within [n] calls of [next]. *)
Fixpoint consume (n : nat) (test_id count limit : Z) (g : generator) (w : world)
  : list dataset * ending * world :=
  match n with
  | O => ([], Pending, w)
  | S n' =>
      match gen_next test_id count limit g w with
      | (Raise e, w') => ([], Failed e, w')
      | (Ok (None, _), w') => ([], Exhausted, w')
      | (Ok (Some ds, g'), w') =>
          let '(l, e, w'') := consume n' test_id count limit g' w' in
          (ds :: l, e, w'')
      end
  end.

(** ** _horreum_labelvalues (lines 197-215) *)
Definition _horreum_labelvalues (dataset_id : Z) : M dict :=
  response <- requests_get_labelValues dataset_id ;;
  raise_for_status response ;;
  ret (dict_of_items (body response)).

(** ** upload (lines 217-248) *)

(** The program points of [upload] where the pipeline can be observed. *)
Inductive upload_pc :=
| Init
    (* line 218, nothing done yet *)
| ForNext (gen : generator) (data_to_insert : list record)
    (* line 226, about to ask the generator for the next dataset *)
| FlushTest (gen : generator) (data_to_insert : list record)
    (* line 241, the record has just been appended *)
| FinalFlush (data_to_insert : list record)
    (* line 245, the generator is exhausted *)
| Close
    (* line 248 *)
| Returned
| Raised (e : exn).

Definition of_option {A} (o : option A) (e : exn) : M A :=
  match o with Some a => ret a | None => raise e end.

(** The code between one program point and the next. *)
Definition upload_code (a : args) (pc : upload_pc) : M upload_pc :=
  match pc with
  | Init =>
      _setup ;;
      _db_connect ;;
      _db_table_init ;;
      ret (ForNext (_horreum_datasets a) [])
  | ForNext gen data_to_insert =>
      nxt <- gen_next (horreum_test_id a) (horreum_count a) (horreum_limit a) gen ;;
      match nxt with
      | (None, _) => ret (FinalFlush data_to_insert)
      | (Some ds, gen') =>
          label_values <- _horreum_labelvalues (ds_id ds) ;;
          when <- of_option (when_of_start (ds_start ds)) ValueError ;;
          ret (FlushTest gen'
                 (data_to_insert ++
                  [mkRecord (ds_testId ds) (ds_runId ds) (ds_id ds) when label_values]))
      end
  | FlushTest gen data_to_insert =>
      if (10 <=? List.length data_to_insert)%nat then
        _db_insert data_to_insert ;;
        ret (ForNext gen [])
      else ret (ForNext gen data_to_insert)
  | FinalFlush data_to_insert =>
      if (0 <? List.length data_to_insert)%nat then
        _db_insert data_to_insert ;;
        ret Close
      else ret Close
  | Close =>
      conn_close ;;
      ret Returned
  | Returned => ret Returned
  | Raised e => ret (Raised e)
  end.

(** One step: an exception that leaves the code ends [upload]. *)
Definition upload_step (a : args) (pc : upload_pc) (w : world) : upload_pc * world :=
  match upload_code a pc w with
  | (Ok pc', w') => (pc', w')
  | (Raise e, w') => (Raised e, w')
  end.

Fixpoint upload_steps (n : nat) (a : args) (pc : upload_pc) (w : world)
  : upload_pc * world :=
  match n with
  | O => (pc, w)
  | S n' =>
      let '(pc', w') := upload_step a pc w in
      upload_steps n' a pc' w'
  end.

(** Steps that always suffice (see [upload_terminates]). *)
Definition upload_bound (a : args) : nat := 2 * Z.to_nat (horreum_count a) + 6.

Definition upload (a : args) (w : world) : upload_pc * world :=
  upload_steps (upload_bound a) a Init w.

(* ===================================================================== *)
(** * Observations on a trace                                             *)
(* ===================================================================== *)

Definition is_connect (e : event) : bool :=
  match e with EvConnect => true | _ => false end.
Definition is_close (e : event) : bool :=
  match e with EvClose => true | _ => false end.
Definition is_commit (e : event) : bool :=
  match e with EvCommit => true | _ => false end.

Definition connects (t : list event) : nat := List.length (filter is_connect t).
Definition closes (t : list event) : nat := List.length (filter is_close t).
Definition commits (t : list event) : nat := List.length (filter is_commit t).

(** The arguments of the [_db_insert] calls, in order. *)
Definition inserts (t : list event) : list (list record) :=
  flat_map (fun e => match e with EvInsert d => [d] | _ => [] end) t.

(** The pages asked of the listing call, in order. *)
Definition page_requests (t : list event) : list Z :=
  flat_map (fun e => match e with EvGetDatasets _ p _ => [p] | _ => [] end) t.

(** The dataset ids whose label values were asked for, in order: one per
    dataset the pipeline took from the generator. *)
Definition streamed (t : list event) : list Z :=
  flat_map (fun e => match e with EvGetLabelValues i => [i] | _ => [] end) t.

(** The table as the next statement of the connection would see it. *)
Definition current_view (w : world) : option (list row) :=
  match w_txn w with
  | TxnActive v => v
  | _ => w_db_data w
  end.

(** Only the transaction, the sequence and the count of round trips differ
    between the two worlds. *)
Definition quiet (w w' : world) : Prop :=
  w_trace w' = w_trace w /\
  w_conn_open w' = w_conn_open w /\
  w_db_data w' = w_db_data w /\
  w_requests w' = w_requests w /\
  w_horreum w' = w_horreum w /\
  w_db_fault w' = w_db_fault w.

(** No two rows of a table share their natural key. *)
Definition unique_keys (v : option (list row)) : Prop :=
  match v with
  | Some rows => NoDup (map row_key rows)
  | None => True
  end.

(** The rows of a table that carry the natural key [k]. *)
Definition rows_with_key (k : key) (rows : list row) : list row :=
  filter (fun x => key_eqb (row_key x) k) rows.

(** The ids of a record fit the INTEGER columns. *)
Definition storable (r : record) : Prop :=
  is_integer (horreum_testid r) = true /\
  is_integer (horreum_runid r) = true /\
  is_integer (horreum_datasetid r) = true.

(** A connection ready for a batch: open, its transaction (if one is
    pending) not aborted, a server that answers, and the table [rows], as
    the connection sees it, without duplicate keys. *)
Definition healthy (w : world) (rows : list row) : Prop :=
  w_conn_open w = true /\
  w_txn w <> TxnAborted /\
  (forall n, w_db_fault w n = false) /\
  current_view w = Some rows /\
  NoDup (map row_key rows).

(** Neither the committed table nor the view of the transaction holds two
    rows with one key. *)
Definition tables_unique (w : world) : Prop :=
  unique_keys (w_db_data w) /\ unique_keys (current_view w).

(** How many more items a generator can yield at most. *)
Definition gen_left (count : Z) (g : generator) : nat :=
  match g with
  | GenCreated _ => Z.to_nat (Z.max count 1)
  | GenSuspended counter _ _ _ => Z.to_nat (count - counter - 1)
  | GenFinished => 0
  end.

(** The world once a listing request for [page] has been answered. *)
Definition after_page_request (test_id page limit : Z) (w : world) : world :=
  log (EvGetDatasets test_id page limit) (set_requests (S (w_requests w)) w).

(** The world once a label request has been answered. *)
Definition after_label_request (dataset_id : Z) (w : world) : world :=
  log (EvGetLabelValues dataset_id) (set_requests (S (w_requests w)) w).

(** The computation keeps the tables free of duplicate keys. *)
Definition preserves {A} (m : M A) : Prop :=
  forall w, tables_unique w -> tables_unique (snd (m w)).

(** Events that are neither a connect, a close, an insert nor a label
    request. *)
Definition silent (t : list event) : Prop :=
  connects t = 0%nat /\ closes t = 0%nat /\ inserts t = [] /\ streamed t = [].

(** The buffer [data_to_insert] at a program point of [upload]. *)
Definition buffer (pc : upload_pc) : list record :=
  match pc with
  | ForNext _ d | FlushTest _ d | FinalFlush d => d
  | _ => []
  end.

Definition terminal (pc : upload_pc) : Prop :=
  match pc with
  | Returned | Raised _ => True
  | _ => False
  end.

(** A batch of exactly ten records, and a last batch of one to nine. *)
Definition full (b : list record) : Prop := List.length b = 10%nat.
Definition partial (b : list record) : Prop := (1 <= List.length b <= 9)%nat.

(** Shape of the [_db_insert] calls of a run: full batches, then at most
    one partial batch. *)
Definition flush_shape (final_allowed : bool) (ins : list (list record)) : Prop :=
  exists mids final,
    ins = mids ++ final /\
    Forall full mids /\
    (final = [] \/ (final_allowed = true /\ exists b, final = [b] /\ partial b)).

(** The invariant of the pipeline, on the program point and on the
    [_db_insert] calls made so far. *)
Definition pipeline_invariant (pc : upload_pc) (ins : list (list record)) : Prop :=
  match pc with
  | Init => ins = []
  | ForNext _ d | FinalFlush d => (List.length d <= 9)%nat /\ flush_shape false ins
  | FlushTest _ d => (1 <= List.length d <= 10)%nat /\ flush_shape false ins
  | Close | Returned | Raised _ => flush_shape true ins
  end.

(** The connection along a run: one connect, and a close only on the way
    to [Returned]. *)
Definition connection_invariant (pc : upload_pc) (added : list event) (w : world)
  : Prop :=
  match pc with
  | Init => added = []
  | ForNext _ _ | FlushTest _ _ | FinalFlush _ | Close =>
      connects added = 1%nat /\ closes added = 0%nat /\ w_conn_open w = true
  | Returned =>
      connects added = 1%nat /\ closes added = 1%nat /\ w_conn_open w = false
  | Raised _ =>
      (connects added <= 1)%nat /\ closes added = 0%nat /\
      (connects added = 1%nat -> w_conn_open w = true)
  end.

(** The records handed to [_db_insert] so far and those still in the
    buffer are, in order, the datasets taken from the generator. *)
Definition stream_invariant (pc : upload_pc) (added : list event) : Prop :=
  match pc with
  | Init => inserts added = [] /\ streamed added = []
  | ForNext _ d | FlushTest _ d | FinalFlush d =>
      map horreum_datasetid (List.concat (inserts added) ++ d) = streamed added
  | Close | Returned =>
      map horreum_datasetid (List.concat (inserts added)) = streamed added
  | Raised _ => True
  end.

(** A bound on the steps [upload] still takes from a program point. *)
Definition steps_left (count : Z) (pc : upload_pc) : nat :=
  match pc with
  | Init => 2 * Z.to_nat (Z.max count 1) + 4
  | ForNext g _ => 2 * gen_left count g + 3
  | FlushTest g _ => 2 * gen_left count g + 4
  | FinalFlush _ => 2
  | Close => 1
  | Returned | Raised _ => 0
  end.

(** ** Further observations *)

(** [d.get(k)] on a label dict. *)
Definition dict_get (d : dict) (k : string) : option json :=
  option_map snd (find (fun kv => String.eqb (fst kv) k) d).

(** The value of the last item named [k] in the body of a label
    response. *)
Definition last_named (k : string) (items : list (string * json)) : option json :=
  option_map snd (find (fun i => String.eqb (fst i) k) (rev items)).

(** The page a generator asks for when it next sends a request. *)
Definition next_page (g : generator) : Z :=
  match g with
  | GenCreated page => page
  | GenSuspended _ page _ _ => page + 1
  | GenFinished => 0
  end.

(** The listing requests for [k] consecutive pages from [first] on. *)
Definition listing_requests (test_id limit first : Z) (k : nat) : list event :=
  map (fun i => EvGetDatasets test_id (first + Z.of_nat i) limit) (seq 0 k).

(** The first record of a batch that carries the key [k]. *)
Definition first_record (k : key) (d : list record) : option record :=
  find (fun r => key_eqb (record_key r) k) d.

(** The row an INSERT of the record [r] stores under the id [id] in a
    session with the time zone [tz]. *)
Definition row_of (tz : timezone) (id : Z) (r : record) : row :=
  mkRow id (horreum_testid r) (horreum_runid r) (horreum_datasetid r)
        (timestamptz_to_timestamp tz (start r)) (json_dumps (label_values r)).

(** The table [after] holds the rows of [before], unchanged and in place,
    and possibly more after them. *)
Definition grows (before after : option (list row)) : Prop :=
  match before with
  | Some rows => exists new, after = Some (rows ++ new)
  | None => True
  end.

(** Along a run, between the table initialisation and the return: the
    table exists, the connection sees exactly what is committed, and every
    record handed to [_db_insert] so far has its key in the table. *)
Definition storage_invariant (pc : upload_pc) (added : list event) (w : world)
  : Prop :=
  match pc with
  | Init => added = []
  | Raised _ => True
  | Returned =>
      exists rows,
        w_db_data w = Some rows /\
        (forall r, In r (List.concat (inserts added)) ->
                   In (record_key r) (map row_key rows))
  | _ =>
      exists rows,
        w_db_data w = Some rows /\ current_view w = Some rows /\
        (forall r, In r (List.concat (inserts added)) ->
                   In (record_key r) (map row_key rows))
  end.

(** The epoch milliseconds an aware UTC [datetime] stands for. *)
Definition start_of_datetime (d : PyDatetime.datetime) : Z :=
  ((ordinal_of_date (PyDatetime.year d) (PyDatetime.month d) (PyDatetime.day d)
    - PyDatetime._EPOCH_ORD) * 86400
   + 3600 * PyDatetime.hour d + 60 * PyDatetime.minute d + PyDatetime.second d)
  * 1000
  + PyDatetime.microsecond d / 1000.

(** The generator a program point still holds, if any. *)
Definition budget (count : Z) (pc : upload_pc) : nat :=
  match pc with
  | Init => Z.to_nat (Z.max count 1)
  | ForNext g _ | FlushTest g _ => gen_left count g
  | _ => 0
  end.

(** ** A run against a service and a server that behave *)

(** The natural key of the record the pipeline builds from a dataset
    (lines 234-236). *)
Definition dataset_key (ds : dataset) : key := (ds_testId ds, ds_runId ds, ds_id ds).

(** A dataset the pipeline can store: ids that fit the INTEGER columns and
    a start on the working range of the conversion. *)
Definition mirrorable (ds : dataset) : Prop :=
  is_integer (ds_testId ds) = true /\
  is_integer (ds_runId ds) = true /\
  is_integer (ds_id ds) = true /\
  0 <= ds_start ds < 2 ^ 42.

(** The service answers every listing request with status 200 and the
    page asked for (page 1 first, empty pages after the last), whatever
    was asked before. *)
Definition lists_pages (h : horreum) (pages : list (list dataset)) : Prop :=
  forall n test_id page limit,
    api_dataset_list h n test_id page limit
      = Some (mkResponse 200 (Some (nth (Z.to_nat (page - 1)) pages []))).

(** The service answers every label request with a status that
    [raise_for_status] accepts. *)
Definition answers_labels (h : horreum) : Prop :=
  forall n dataset_id,
    exists r, api_labelValues h n dataset_id = Some r /\
              is_error_status (status_code r) = false.

(** What a generator has still to yield when the service lists [pages]. *)
Definition remaining (count : Z) (pages : list (list dataset)) (g : generator)
  : list dataset :=
  match g with
  | GenCreated page =>
      firstn (Z.to_nat (Z.max count 1))
             (List.concat (skipn (Z.to_nat (page - 1)) pages))
  | GenSuspended counter page _ rest =>
      firstn (Z.to_nat (count - counter - 1))
             (rest ++ List.concat (skipn (Z.to_nat page) pages))
  | GenFinished => []
  end.

(** The datasets a run is to mirror: those of the pages from the starting
    page on, cut after [max count 1]. *)
Definition selected (a : args) (pages : list (list dataset)) : list dataset :=
  remaining (horreum_count a) pages (_horreum_datasets a).

(** A generator as the code can reach it on pages numbered from 1: it is
    never suspended inside an empty page. *)
Definition gen_ok (g : generator) : Prop :=
  match g with
  | GenCreated page => 1 <= page
  | GenSuspended _ page datasets _ => 1 <= page /\ datasets <> []
  | GenFinished => True
  end.

(** The rows of a table, none when the table is absent. *)
Definition table_of (v : option (list row)) : list row :=
  match v with Some rows => rows | None => [] end.

(** The record [r] is what lines 227-239 build from the dataset [ds]: its
    ids, its start converted, and the dict of a label response of the
    service for its id. *)
Definition built (h : horreum) (ds : dataset) (r : record) : Prop :=
  record_key r = dataset_key ds /\
  when_of_start (ds_start ds) = Some (start r) /\
  exists n response,
    api_labelValues h n (ds_id ds) = Some response /\
    label_values r = dict_of_items (body response).

(** Along a run that goes well: [taken] are the datasets taken from the
    generator so far, [d] is the buffer; the connection is healthy and
    sees the committed table, which is the table of the start followed by
    one row per new key of the records inserted so far. *)
Definition mirrored (h : horreum) (before : option (list row))
           (taken : list dataset) (d : list record)
           (added : list event) (w : world) : Prop :=
  exists new,
    healthy w (table_of before ++ new) /\
    w_db_data w = Some (table_of before ++ new) /\
    Forall storable d /\
    Forall2 (built h) taken (List.concat (inserts added) ++ d) /\
    streamed added = map ds_id taken /\
    (forall r, In r (List.concat (inserts added)) ->
               In (record_key r) (map row_key (table_of before ++ new))) /\
    (forall r, In r new ->
               In (row_key r) (map record_key (List.concat (inserts added)))).

(** What a run that goes well leaves behind. *)
Definition mirror_done (h : horreum) (before : option (list row))
           (sel : list dataset) (added : list event) (w : world) : Prop :=
  exists new,
    w_db_data w = Some (table_of before ++ new) /\
    NoDup (map row_key (table_of before ++ new)) /\
    streamed added = map ds_id sel /\
    Forall2 (built h) sel (List.concat (inserts added)) /\
    (forall r, In r (List.concat (inserts added)) ->
               In (record_key r) (map row_key (table_of before ++ new))) /\
    (forall r, In r new ->
               In (row_key r) (map record_key (List.concat (inserts added)))).

(** The invariant of a run that goes well, at each program point. *)
Definition mirror_invariant (a : args) (pages : list (list dataset))
           (h : horreum) (before : option (list row))
           (pc : upload_pc) (added : list event) (w : world) : Prop :=
  w_horreum w = h /\
  match pc with
  | Init =>
      added = [] /\ w_db_data w = before /\
      (forall n, w_db_fault w n = false) /\ unique_keys before
  | ForNext g d | FlushTest g d =>
      gen_ok g /\
      exists taken,
        taken ++ remaining (horreum_count a) pages g = selected a pages /\
        mirrored h before taken d added w
  | FinalFlush d => mirrored h before (selected a pages) d added w
  | Close | Returned => mirror_done h before (selected a pages) added w
  | Raised _ => False
  end.

(** The computation leaves the time zone setting alone. *)
Definition keeps_zone {A} (m : M A) : Prop :=
  forall w, w_db_timezone (snd (m w)) = w_db_timezone w.

(** The sequence behind [id] when the loop is entered: CREATE TABLE
    starts a new one. *)
Definition start_seq (before : option (list row)) (seq : Z) : Z :=
  match before with Some _ => seq | None => 1 end.

(** Along any run: the table is what one INSERT sequence over all the
    records inserted so far, run in the zone of the session, makes of the
    table of the start. *)
Definition batch_invariant (tz : timezone) (before : option (list row)) (seq : Z)
           (pc : upload_pc) (added : list event) (w : world) : Prop :=
  match pc with
  | Init =>
      added = [] /\ w_db_data w = before /\ w_db_seq w = seq /\
      w_db_timezone w = tz
  | Raised _ => True
  | Returned =>
      insert_all (List.concat (inserts added)) tz
                 (Some (table_of before)) (start_seq before seq)
        = (Ok (tt, w_db_data w), w_db_seq w)
  | _ =>
      insert_all (List.concat (inserts added)) tz
                 (Some (table_of before)) (start_seq before seq)
        = (Ok (tt, w_db_data w), w_db_seq w) /\
      current_view w = w_db_data w /\
      w_db_timezone w = tz
  end.

(** The rows a sequence of INSERTs appends for records with new keys:
    consecutive ids from [id] on. *)
Fixpoint rows_of (tz : timezone) (id : Z) (d : list record) : list row :=
  match d with
  | [] => []
  | r :: d' => row_of tz id r :: rows_of tz (id + 1) d'
  end.

(* ===================================================================== *)
(** * Scenarios                                                           *)
(* ===================================================================== *)

Definition no_fault : nat -> bool := fun _ => false.

(** A session in UTC, and one five hours behind it all year. *)
Definition utc_zone : timezone := fun _ => 0.
Definition utc_minus_5 : timezone := fun _ => -18000.

(** A fresh process in front of the service [h] and of a server that holds
    the table [data]. *)
Definition fresh_world (h : horreum) (data : option (list row)) (seq : Z) : world :=
  mkWorld h 0 data seq no_fault utc_zone 0 false TxnIdle [].

(** The same in front of a server whose sessions are five hours behind
    UTC. *)
Definition eastern_fresh_world (h : horreum) (data : option (list row)) (seq : Z)
  : world :=
  mkWorld h 0 data seq no_fault utc_minus_5 0 false TxnIdle [].

Definition ok {B} (b : B) : option (response B) := Some (mkResponse 200 b).

(** A service that serves the given pages (page 1 first, empty pages after
    the last) and the same labels for every dataset. *)
Definition paged_service (pages : list (list dataset)) (labels : list (string * json))
  : horreum :=
  mkHorreum (fun _ _ page _ => ok (Some (nth (Z.to_nat (page - 1)) pages [])))
            (fun _ _ => ok labels).

(** A service whose listing answers 500. *)
Definition broken_service : horreum :=
  mkHorreum (fun _ _ _ _ => Some (mkResponse 500 None))
            (fun _ _ => ok []).

(** A service that answers every request with status 304 and a body. *)
Definition not_modified_service (pages : list (list dataset))
           (labels : list (string * json)) : horreum :=
  mkHorreum (fun _ _ page _ =>
               Some (mkResponse 304 (Some (nth (Z.to_nat (page - 1)) pages []))))
            (fun _ _ => Some (mkResponse 304 labels)).

(** A service whose label values answer 404. *)
Definition broken_labels (pages : list (list dataset)) : horreum :=
  mkHorreum (fun _ _ page _ => ok (Some (nth (Z.to_nat (page - 1)) pages [])))
            (fun _ _ => Some (mkResponse 404 [])).

Definition sample_dataset (i : Z) : dataset :=
  mkDataset i 7 (100 + i) (1700000000000 + 1000 * i).

(** [n] datasets with ids [first], [first + 1], ... *)
Definition sample_page (first : Z) (n : nat) : list dataset :=
  map (fun k => sample_dataset (first + Z.of_nat k)) (seq 0 n).

Definition sample_labels : list (string * json) :=
  [("throughput"%string, JInt 1200); ("passed"%string, JBool true)].

(** Three pages of ten datasets. *)
Definition three_pages : horreum :=
  paged_service [sample_page 1 10; sample_page 11 10; sample_page 21 10] sample_labels.

(** Twenty-three datasets on three pages. *)
Definition twenty_three : horreum :=
  paged_service [sample_page 1 10; sample_page 11 10; sample_page 21 3] sample_labels.

(** A record as the pipeline builds it, and a connection in the middle of
    a run, on an empty table. *)
Definition sample_record (i : Z) : record :=
  mkRecord 7 (100 + i) i (PyDatetime.mkDatetime 2023 11 14 22 13 20 0)
           [("throughput"%string, JInt 1200)].

Definition open_world : world :=
  mkWorld three_pages 0 (Some []) 1 no_fault utc_zone 0 true TxnIdle [].

(** The same connection in a session five hours behind UTC. *)
Definition eastern_world : world :=
  mkWorld three_pages 0 (Some []) 1 no_fault utc_minus_5 0 true TxnIdle [].

(** A record with the key of [sample_record i] and other values. *)
Definition conflicting_record (i : Z) : record :=
  mkRecord 7 (100 + i) i (PyDatetime.mkDatetime 2024 1 1 0 0 0 0) [].

(** One page with a single dataset. *)
Definition one_dataset : horreum :=
  paged_service [sample_page 1 1] sample_labels.

(* ===================================================================== *)
(** * Properties of the timestamp conversion                              *)
(* ===================================================================== *)

Section Rounding.

Import PyFloat.

Lemma div_half_even_bound p q :
  0 < q -> - q <= 2 * (p - q * div_half_even p q) <= q.
Proof.
  intros Hq. unfold div_half_even.
  pose proof (Z.div_mod p q ltac:(lia)) as Hd.
  pose proof (Z.mod_pos_bound p q Hq) as Hr.
  destruct (2 * (p mod q) <? q) eqn:E1; [apply Z.ltb_lt in E1; nia|].
  apply Z.ltb_ge in E1.
  destruct (q <? 2 * (p mod q)) eqn:E2; [apply Z.ltb_lt in E2; nia|].
  apply Z.ltb_ge in E2.
  destruct (Z.even (p / q)); nia.
Qed.

Lemma div_half_even_unique p q z :
  0 < q -> - q < 2 * (p - q * z) < q -> div_half_even p q = z.
Proof.
  intros Hq Hz. pose proof (div_half_even_bound p q Hq) as Hm.
  nia.
Qed.

Lemma ratio_log2_bounds a q :
  Z.log2 a - Z.log2 q - 1 <= ratio_log2 a q <= Z.log2 a - Z.log2 q.
Proof.
  unfold ratio_log2.
  destruct (0 <=? Z.log2 a - Z.log2 q);
    [destruct (q * 2 ^ _ <=? a) | destruct (q <=? a * 2 ^ _)]; lia.
Qed.

(** The rounded quotient of two positive integers when the exponent is
    negative and the value is far from overflow. *)
Lemma of_ratio_neg_expo p q :
  0 < p -> 0 < q ->
  -1022 <= ratio_log2 p q <= 51 ->
  p * 2 ^ (52 - ratio_log2 p q) < q * 2 ^ 1000 ->
  of_ratio p q =
    Some (mkFloat (div_half_even (p * 2 ^ (52 - ratio_log2 p q)) q)
                  (ratio_log2 p q - 52)).
Proof.
  intros Hp Hq Hlg Hsmall. unfold of_ratio.
  destruct (p =? 0) eqn:E0; [apply Z.eqb_eq in E0; lia|].
  rewrite (Z.abs_eq p) by lia.
  set (lg := ratio_log2 p q) in *.
  unfold format_expo. rewrite Z.max_l by lia.
  destruct (lg - 52 <? 0) eqn:E1; [|apply Z.ltb_ge in E1; lia].
  replace (- (lg - 52)) with (52 - lg) by lia.
  rewrite (Z.max_r (lg - 52) 0) by lia.
  set (m := div_half_even (p * 2 ^ (52 - lg)) q).
  pose proof (div_half_even_bound (p * 2 ^ (52 - lg)) q Hq) as Hm.
  fold m in Hm.
  assert (Hm' : m < 2 ^ 1000 + 1) by nia.
  assert (Hc : 2 ^ 1000 + 1 < 2 ^ 53 * 2 ^ 971) by (vm_compute; reflexivity).
  destruct (2 ^ 53 * 2 ^ 971 <=? m * 2 ^ 0) eqn:E2.
  - apply Z.leb_le in E2. rewrite Z.pow_0_r in E2. lia.
  - rewrite (Z.sgn_pos p) by lia. f_equal. f_equal. lia.
Qed.

End Rounding.

Section Timestamp.

Import PyFloat PyDatetime.

(** Seconds: [start / 1000] as a double, for a positive [start] below
    [2^42]: an exponent between -62 and -20 and a mantissa within half a
    unit of the exact quotient. *)
Lemma true_divide_start start :
  0 < start < 2 ^ 42 ->
  exists m n,
    true_divide start 1000 = Some (mkFloat m (- n)) /\
    20 <= n <= 62 /\
    -500 <= 1000 * m - start * 2 ^ n <= 500.
Proof.
  intros Hs. unfold true_divide.
  change (1000 =? 0) with false. cbv iota.
  change (Z.sgn 1000) with 1. change (Z.abs 1000) with 1000.
  rewrite Z.mul_1_l.
  pose proof (ratio_log2_bounds start 1000) as Hlg.
  change (Z.log2 1000) with 9 in Hlg.
  assert (Hl0 : 0 <= Z.log2 start) by apply Z.log2_nonneg.
  assert (Hl1 : Z.log2 start < 42) by (apply Z.log2_lt_pow2; lia).
  set (lg := ratio_log2 start 1000) in *.
  assert (Hpow : 2 ^ (52 - lg) <= 2 ^ 62)
    by (apply Z.pow_le_mono_r; lia).
  exists (div_half_even (start * 2 ^ (52 - lg)) 1000), (52 - lg).
  split; [|split].
  - replace (- (52 - lg)) with (lg - 52) by lia.
    apply of_ratio_neg_expo; fold lg; try lia.
    assert (2 ^ 42 * 2 ^ 62 < 1000 * 2 ^ 1000) by (vm_compute; reflexivity).
    nia.
  - lia.
  - pose proof (div_half_even_bound (start * 2 ^ (52 - lg)) 1000 ltac:(lia)).
    lia.
Qed.

(** Microseconds: a fraction [f / 2^n] that lies within [500 / 2^n] of
    [r] thousandths rounds, once multiplied by [1e6], to [1000 * r]. *)
Lemma round_mul_1e6 f n r :
  20 <= n <= 62 ->
  0 <= f < 2 ^ n ->
  0 <= r < 1000 ->
  -500 <= 1000 * f - r * 2 ^ n <= 500 ->
  exists y, mul_1e6 (mkFloat f (- n)) = Some y /\ round y = 1000 * r.
Proof.
  intros Hn Hf Hr Herr.
  assert (HA : 2 ^ 20 <= 2 ^ n) by (apply Z.pow_le_mono_r; lia).
  unfold mul_1e6. cbn [expo mant].
  destruct (0 <=? - n) eqn:E; [apply Z.leb_le in E; lia|].
  rewrite Z.opp_involutive.
  destruct (Z.eq_dec f 0) as [-> | Hf0].
  - exists zero. split; [reflexivity|].
    change (round zero) with 0.
    change (2 ^ 20) with 1048576 in HA. nia.
  - pose proof (ratio_log2_bounds (f * 1000000) (2 ^ n)) as Hlg.
    rewrite Z.log2_pow2 in Hlg by lia.
    assert (Hl0 : 19 <= Z.log2 (f * 1000000)).
    { apply Z.log2_le_pow2; [lia|]. change (2 ^ 19) with 524288. lia. }
    assert (Hl1 : Z.log2 (f * 1000000) < n + 20).
    { apply Z.log2_lt_pow2; [lia|].
      rewrite Z.pow_add_r by lia. change (2 ^ 20) with 1048576. lia. }
    change (2 ^ 20) with 1048576 in HA.
    remember (2 ^ n) as A eqn:HeqA.
    set (lg := ratio_log2 (f * 1000000) A) in *.
    assert (HB : 2 ^ 33 <= 2 ^ (52 - lg) <= 2 ^ 96)
      by (split; apply Z.pow_le_mono_r; lia).
    rewrite of_ratio_neg_expo; fold lg; try lia.
    2:{ assert (1000000 * 2 ^ 96 < 2 ^ 1000) by (vm_compute; reflexivity).
        remember (2 ^ (52 - lg)) as B. nia. }
    eexists. split; [reflexivity|].
    unfold round. cbn [expo mant].
    destruct (0 <=? lg - 52) eqn:E'; [apply Z.leb_le in E'; lia|].
    replace (- (lg - 52)) with (52 - lg) by lia.
    set (B := 2 ^ (52 - lg)) in *.
    pose proof (div_half_even_bound (f * 1000000 * B) A ltac:(lia)) as Hm.
    set (m' := div_half_even (f * 1000000 * B) A) in *.
    apply div_half_even_unique; [lia|].
    change (2 ^ 33) with 8589934592 in HB.
    clearbody B m'.
    assert (Hkey : - (A + 1000000 * B) <= 2 * A * (m' - B * (1000 * r))
                   <= A + 1000000 * B) by nia.
    assert (Hlt : A + 1000000 * B < A * B) by nia.
    nia.
Qed.

(** On its working range the conversion keeps the milliseconds. *)
Lemma when_of_start_exact start :
  0 <= start < 2 ^ 42 ->
  when_of_start start = utc_of_epoch (start / 1000) (start mod 1000 * 1000).
Proof.
  intros Hs.
  destruct (Z.eq_dec start 0) as [-> | Hs0]; [reflexivity|].
  destruct (true_divide_start start ltac:(lia)) as (m & n & Hdiv & Hn & Herr).
  unfold when_of_start. rewrite Hdiv. unfold fromtimestamp, modf.
  cbn [expo mant].
  destruct (0 <=? - n) eqn:E; [apply Z.leb_le in E; lia|].
  rewrite Z.opp_involutive.
  assert (HA : 2 ^ 20 <= 2 ^ n) by (apply Z.pow_le_mono_r; lia).
  change (2 ^ 20) with 1048576 in HA.
  set (A := 2 ^ n) in *.
  pose proof (Z.div_mod start 1000 ltac:(lia)) as Hqr.
  pose proof (Z.mod_pos_bound start 1000 ltac:(lia)) as Hr.
  set (Q := start / 1000) in *. set (r := start mod 1000) in *.
  assert (Hm0 : 0 <= m) by nia.
  assert (Hquot : m / A = Q).
  { symmetry. apply (Z.div_unique_pos m A Q (m - A * Q)); nia. }
  rewrite Z.quot_div_nonneg by lia.
  rewrite Z.rem_mod_nonneg by lia.
  rewrite Hquot.
  assert (Hmod : m mod A = m - A * Q).
  { pose proof (Z.div_mod m A ltac:(lia)). rewrite Hquot in *. lia. }
  rewrite Hmod.
  destruct (round_mul_1e6 (m - A * Q) n r Hn) as (y & Hy & Hround);
    fold A; try nia.
  rewrite Hy, Hround.
  destruct (1000000 <=? 1000 * r) eqn:E1; [apply Z.leb_le in E1; lia|].
  destruct (1000 * r <? 0) eqn:E2; [apply Z.ltb_lt in E2; lia|].
  f_equal. lia.
Qed.

End Timestamp.

(** ** C1 *)

(** C1, as the code has it. The division is Python's true division, so the
    milliseconds are kept, not truncated: for a start between 0 and 2^42
    milliseconds the timestamp is the UTC date and time of the whole seconds
    [start / 1000] with [(start mod 1000) * 1000] microseconds. In particular
    1700000000000 gives 2023-11-14T22:13:20Z. *)
Theorem when_of_start_keeps_milliseconds (ds : dataset) :
  0 <= ds_start ds < 2 ^ 42 ->
  when_of_start (ds_start ds)
    = PyDatetime.utc_of_epoch (ds_start ds / 1000) (ds_start ds mod 1000 * 1000) /\
  (ds_start ds = 1700000000000 ->
   when_of_start (ds_start ds)
     = Some (PyDatetime.mkDatetime 2023 11 14 22 13 20 0)).
Proof.
  intros Hs. split.
  - now apply when_of_start_exact.
  - intros ->. vm_compute. reflexivity.
Qed.

Lemma when_of_start_keeps_milliseconds_witness :
  when_of_start 1700000000123
    = Some (PyDatetime.mkDatetime 2023 11 14 22 13 20 123000) /\
  when_of_start 1700000000000
    = Some (PyDatetime.mkDatetime 2023 11 14 22 13 20 0).
Proof.
  split.
  - pose proof (proj1 (when_of_start_keeps_milliseconds
                         (mkDataset 1 7 101 1700000000123) ltac:(cbn; lia))) as H.
    cbn [ds_start] in H. rewrite H. vm_compute. reflexivity.
  - apply (proj2 (when_of_start_keeps_milliseconds
                    (mkDataset 1 7 101 1700000000000) ltac:(cbn; lia))).
    reflexivity.
Defined.

(** The claim as the specification states it (integer division, the
    sub-second part dropped) fails half a second after a whole second. *)
Lemma when_of_start_not_truncated :
  when_of_start 1700000000500
    = Some (PyDatetime.mkDatetime 2023 11 14 22 13 20 500000) /\
  spec_when_of_start 1700000000500
    = Some (PyDatetime.mkDatetime 2023 11 14 22 13 20 0) /\
  when_of_start 1700000000500 <> spec_when_of_start 1700000000500.
Proof.
  split; [vm_compute; reflexivity|]. split; [vm_compute; reflexivity|].
  vm_compute. discriminate.
Qed.

(* ===================================================================== *)
(** * The primitives: what they touch                                     *)
(* ===================================================================== *)

Section Observations.

Lemma connects_app t u : connects (t ++ u) = (connects t + connects u)%nat.
Proof. unfold connects. now rewrite filter_app, length_app. Qed.

Lemma closes_app t u : closes (t ++ u) = (closes t + closes u)%nat.
Proof. unfold closes. now rewrite filter_app, length_app. Qed.

Lemma inserts_app t u : inserts (t ++ u) = inserts t ++ inserts u.
Proof. unfold inserts. apply flat_map_app. Qed.

Lemma streamed_app t u : streamed (t ++ u) = streamed t ++ streamed u.
Proof. unfold streamed. apply flat_map_app. Qed.

Lemma page_requests_app t u :
  page_requests (t ++ u) = page_requests t ++ page_requests u.
Proof. unfold page_requests. apply flat_map_app. Qed.

Lemma key_eqb_eq a b : key_eqb a b = true <-> a = b.
Proof.
  destruct a as [[a1 a2] a3], b as [[b1 b2] b3]. unfold key_eqb.
  rewrite !andb_true_iff, !Z.eqb_eq. split.
  - intros [[-> ->] ->]. reflexivity.
  - intros [= -> -> ->]. auto.
Qed.

Lemma key_eqb_refl a : key_eqb a a = true.
Proof. now apply key_eqb_eq. Qed.

End Observations.

Section Primitives.

Lemma quiet_refl w : quiet w w.
Proof. repeat split. Qed.

Lemma quiet_trans w1 w2 w3 : quiet w1 w2 -> quiet w2 w3 -> quiet w1 w3.
Proof.
  unfold quiet. intros (A1 & A2 & A3 & A4 & A5 & A6) (B1 & B2 & B3 & B4 & B5 & B6).
  repeat split; congruence.
Qed.

Lemma cur_execute_quiet {A} (s : statement A) w : quiet w (snd (cur_execute s w)).
Proof.
  unfold cur_execute, db_round_trip.
  destruct (w_db_fault w (w_db_ops w)); cbn; [repeat split|].
  destruct (w_txn w); cbn; try (repeat split);
    match goal with
    | |- context [s ?z ?v ?q] => destruct (s z v q) as [[[a v']|e] q']
    end;
    repeat split.
Qed.

(** The zone of the session is a setting no step of the script touches. *)
Lemma cur_execute_timezone {A} (s : statement A) w :
  w_db_timezone (snd (cur_execute s w)) = w_db_timezone w.
Proof.
  unfold cur_execute, db_round_trip.
  destruct (w_db_fault w (w_db_ops w)); cbn; [reflexivity|].
  destruct (w_txn w); cbn; try reflexivity;
    match goal with
    | |- context [s ?z ?v ?q] => destruct (s z v q) as [[[a v']|e] q']
    end;
    reflexivity.
Qed.

Lemma conn_commit_timezone w :
  w_db_timezone (snd (conn_commit w)) = w_db_timezone w.
Proof.
  unfold conn_commit, db_round_trip.
  destruct (w_conn_open w); cbn [negb]; [|reflexivity].
  destruct (w_db_fault w (w_db_ops w)); [reflexivity|].
  cbn [snd log set_txn w_db_timezone w_txn set_db_ops].
  destruct (w_txn w); reflexivity.
Qed.

Lemma execute_pages_quiet pages w : quiet w (snd (execute_pages pages w)).
Proof.
  revert w. induction pages as [|p ps IH]; intros w; cbn [execute_pages].
  - apply quiet_refl.
  - unfold bind.
    pose proof (cur_execute_quiet (statements (map insert_on_conflict_do_nothing p)) w) as H.
    destruct (cur_execute _ w) as [[u|e] w1]; cbn [snd] in *.
    + eapply quiet_trans; [exact H|apply IH].
    + exact H.
Qed.

Lemma execute_pages_timezone pages w :
  w_db_timezone (snd (execute_pages pages w)) = w_db_timezone w.
Proof.
  revert w. induction pages as [|p ps IH]; intros w; cbn [execute_pages].
  - reflexivity.
  - unfold bind.
    pose proof (cur_execute_timezone
                  (statements (map insert_on_conflict_do_nothing p)) w) as H.
    destruct (cur_execute _ w) as [[u|e] w1]; cbn [snd] in *.
    + now rewrite IH.
    + exact H.
Qed.

(** What a successful [cur.execute] leaves: the statement ran on the
    view of the transaction. *)
Lemma cur_execute_ok {A} (s : statement A) w a w' :
  cur_execute s w = (Ok a, w') ->
  exists v',
    s (w_db_timezone w) (current_view w) (w_db_seq w)
      = (Ok (a, v'), w_db_seq w') /\
    w_txn w' = TxnActive v' /\
    w_txn w <> TxnAborted.
Proof.
  unfold cur_execute, db_round_trip, current_view.
  destruct (w_db_fault w (w_db_ops w)); cbn; [discriminate|].
  destruct (w_txn w) as [|v|]; cbn; try discriminate;
    match goal with
    | |- context [s ?z ?v ?q] => destruct (s z v q) as [[[a0 v']|e] q'] eqn:E
    end;
    intros [= <- <-]; cbn; exists v'; repeat split; congruence.
Qed.

Lemma statements_app ss1 ss2 tz v seq :
  statements (ss1 ++ ss2) tz v seq =
    match statements ss1 tz v seq with
    | (Ok (_, v'), seq') => statements ss2 tz v' seq'
    | (Raise e, seq') => (Raise e, seq')
    end.
Proof.
  revert v seq. induction ss1 as [|s ss1 IH]; intros v seq; cbn.
  - reflexivity.
  - destruct (s tz v seq) as [[[u v']|e] seq']; [apply IH|reflexivity].
Qed.

Lemma execute_pages_ok pages w w' :
  execute_pages pages w = (Ok tt, w') ->
  exists v',
    statements (map insert_on_conflict_do_nothing (List.concat pages))
               (w_db_timezone w) (current_view w) (w_db_seq w)
      = (Ok (tt, v'), w_db_seq w') /\
    current_view w' = v' /\
    (w_txn w' = w_txn w \/ exists v, w_txn w' = TxnActive v).
Proof.
  revert w. induction pages as [|p ps IH]; intros w; cbn [execute_pages List.concat].
  - intros [= <-]. exists (current_view w). cbn. auto.
  - unfold bind.
    pose proof (cur_execute_timezone
                  (statements (map insert_on_conflict_do_nothing p)) w) as Hz.
    destruct (cur_execute _ w) as [[u|e] w1] eqn:E1; [|discriminate].
    cbn [snd] in Hz.
    intros H. apply cur_execute_ok in E1 as (v1 & Hs & Ht & _).
    destruct (IH _ H) as (v' & Hs' & Hv & Htx). rewrite Hz in Hs'.
    exists v'. rewrite map_app, statements_app, Hs.
    assert (current_view w1 = v1) by (unfold current_view; now rewrite Ht).
    split; [congruence|]. split; [assumption|].
    right. destruct Htx as [Htx|[v Htx]]; eauto. rewrite Htx, Ht. eauto.
Qed.

Lemma _paginate_concat {A} n (l : list A) :
  (List.length l <= n)%nat -> List.concat (_paginate n l 100) = l.
Proof.
  revert l. induction n as [|n IH]; intros l Hl.
  - destruct l; [reflexivity|cbn in Hl; lia].
  - cbn [_paginate]. destruct l as [|x l]; [reflexivity|].
    cbn [List.concat]. rewrite IH.
    + apply firstn_skipn.
    + rewrite length_skipn. cbn [List.length] in *. lia.
Qed.

Lemma conn_commit_ok w w' :
  conn_commit w = (Ok tt, w') ->
  w_trace w' = w_trace w ++ [EvCommit] /\
  w_db_data w' = current_view w /\
  w_txn w' = TxnIdle /\
  w_conn_open w' = true /\
  w_db_seq w' = w_db_seq w.
Proof.
  unfold conn_commit, db_round_trip, current_view.
  destruct (w_conn_open w) eqn:Eo; cbn; [|discriminate].
  destruct (w_db_fault w (w_db_ops w)); cbn; [discriminate|].
  destruct (w_txn w); intros [= <-]; cbn; auto.
Qed.

Lemma conn_commit_raise w e w' :
  conn_commit w = (Raise e, w') ->
  w_trace w' = w_trace w /\
  w_db_data w' = w_db_data w /\
  w_conn_open w' = w_conn_open w.
Proof.
  unfold conn_commit, db_round_trip.
  destruct (w_conn_open w) eqn:Eo; cbn.
  - destruct (w_db_fault w (w_db_ops w)); cbn.
    + intros [= <- <-]; cbn; auto.
    + destruct (w_txn w); discriminate.
  - intros [= <- <-]; auto.
Qed.

End Primitives.

(* ===================================================================== *)
(** * _db_insert                                                          *)
(* ===================================================================== *)

Section DbInsert.

Lemma execute_batch_ok vals w w' :
  execute_batch vals w = (Ok tt, w') ->
  exists v',
    statements (map insert_on_conflict_do_nothing vals)
               (w_db_timezone w) (current_view w) (w_db_seq w)
      = (Ok (tt, v'), w_db_seq w') /\
    current_view w' = v' /\
    (w_txn w' = w_txn w \/ exists v, w_txn w' = TxnActive v).
Proof.
  unfold execute_batch. intros H. apply execute_pages_ok in H.
  now rewrite _paginate_concat in H by lia.
Qed.

Lemma _db_insert_ok d w w' :
  _db_insert d w = (Ok tt, w') ->
  w_trace w' = w_trace w ++ [EvInsert d; EvCommit] /\
  (exists v',
      insert_all d (w_db_timezone w) (current_view w) (w_db_seq w)
        = (Ok (tt, v'), w_db_seq w') /\
      w_db_data w' = v') /\
  w_txn w' = TxnIdle /\
  w_conn_open w' = true.
Proof.
  unfold _db_insert, bind, modify, conn_cursor.
  set (w0 := log (EvInsert d) w).
  destruct (w_conn_open w0) eqn:Eo; [|discriminate].
  destruct (execute_batch _ w0) as [[[]|e] w1] eqn:E1; [|discriminate].
  intros Hc. apply conn_commit_ok in Hc as (Ht & Hd & Htx & Ho & Hseq).
  assert (Hq1 : quiet w0 w1).
  { pose proof (execute_pages_quiet
                  (_paginate (List.length (map values_of d)) (map values_of d) 100) w0)
      as H.
    unfold execute_batch in E1. now rewrite E1 in H. }
  apply execute_batch_ok in E1 as (v' & Hs & Hv & _).
  destruct Hq1 as (Q1 & _).
  repeat split; auto.
  - rewrite Ht, Q1. unfold w0. cbn. now rewrite <- app_assoc.
  - exists v'. split; [|congruence].
    unfold insert_all. rewrite Hseq. exact Hs.
Qed.

Lemma _db_insert_raise d w e w' :
  _db_insert d w = (Raise e, w') ->
  w_trace w' = w_trace w ++ [EvInsert d] /\
  w_db_data w' = w_db_data w /\
  w_conn_open w' = w_conn_open w.
Proof.
  unfold _db_insert, bind, modify, conn_cursor.
  set (w0 := log (EvInsert d) w).
  destruct (w_conn_open w0) eqn:Eo.
  - pose proof (execute_pages_quiet
                  (_paginate (List.length (map values_of d)) (map values_of d) 100) w0)
      as Hq.
    unfold execute_batch.
    destruct (execute_pages _ w0) as [[[]|e1] w1] eqn:E1; cbn [snd] in Hq;
      destruct Hq as (Q1 & Q2 & Q3 & _).
    + intros Hc. apply conn_commit_raise in Hc as (Ht & Hd & Ho).
      rewrite Ht, Hd, Ho, Q1, Q2, Q3. repeat split.
    + intros [= <- <-]. rewrite Q1, Q2, Q3. repeat split.
  - intros [= <- <-]. repeat split.
Qed.

End DbInsert.

(* ===================================================================== *)
(** * The table under ON CONFLICT DO NOTHING                              *)
(* ===================================================================== *)

Section Table.

Lemma existsb_key k rows :
  existsb (fun x => key_eqb (row_key x) k) rows = true <-> In k (map row_key rows).
Proof.
  rewrite existsb_exists, in_map_iff. split.
  - intros (x & Hx & He). apply key_eqb_eq in He. eauto.
  - intros (x & He & Hx). exists x. split; [assumption|]. now apply key_eqb_eq.
Qed.

(** One INSERT that went through either met its key and changed nothing,
    or appended one row with a key that was not there. *)
Lemma insert_ok vals tz rows seq v' seq' :
  insert_on_conflict_do_nothing vals tz (Some rows) seq = (Ok (tt, v'), seq') ->
  (In (values_key vals) (map row_key rows) /\ v' = Some rows) \/
  (~ In (values_key vals) (map row_key rows) /\
   exists r, v' = Some (rows ++ [r]) /\ row_key r = values_key vals).
Proof.
  destruct vals as [[[[t r] d] s] l].
  unfold insert_on_conflict_do_nothing, values_key.
  destruct (is_integer t && is_integer r && is_integer d); [|discriminate].
  destruct (existsb _ rows) eqn:E.
  - intros [= <- <-]. left. split; [now apply existsb_key|reflexivity].
  - intros [= <- <-]. right. split.
    + intros H. apply existsb_key in H. congruence.
    + eexists. split; reflexivity.
Qed.

Lemma keys_snoc rows r :
  map row_key (rows ++ [r]) = map row_key rows ++ [row_key r].
Proof. now rewrite map_app. Qed.

Lemma NoDup_snoc {A} (l : list A) x : NoDup l -> ~ In x l -> NoDup (l ++ [x]).
Proof.
  intros Hl Hx. apply NoDup_app; [assumption|repeat constructor; auto|].
  intros a Ha [<-|[]]. contradiction.
Qed.

(** A batch that went through: rows were only appended, the keys stay
    unique, every appended row answers to a record of the batch, and
    every record of the batch has its key in the table. *)
Lemma inserts_ok tz vals : forall rows seq v' seq',
  statements (map insert_on_conflict_do_nothing vals) tz (Some rows) seq
    = (Ok (tt, v'), seq') ->
  NoDup (map row_key rows) ->
  exists new,
    v' = Some (rows ++ new) /\
    NoDup (map row_key (rows ++ new)) /\
    (forall r, In r new -> In (row_key r) (map values_key vals)) /\
    (forall v, In v vals -> In (values_key v) (map row_key (rows ++ new))).
Proof.
  induction vals as [|v vals IH]; intros rows seq v' seq'; cbn [map statements].
  - intros [= <- <-] Hnd. exists []. rewrite app_nil_r.
    repeat split; auto; intros ? [].
  - destruct (insert_on_conflict_do_nothing v tz (Some rows) seq)
      as [[[[] v1]|e] seq1] eqn:E1; [|discriminate].
    intros Hrest Hnd. apply insert_ok in E1 as [[Hin ->]|[Hnin (r & -> & Hr)]].
    + destruct (IH _ _ _ _ Hrest Hnd) as (new & -> & Hnd' & Hnew & Hall).
      exists new. repeat split; auto.
      * intros x Hx. right. now apply Hnew.
      * intros x [<-|Hx]; [|now apply Hall].
        rewrite map_app. apply in_or_app. now left.
    + assert (Hnd1 : NoDup (map row_key (rows ++ [r]))).
      { rewrite keys_snoc. apply NoDup_snoc; [assumption|congruence]. }
      destruct (IH _ _ _ _ Hrest Hnd1) as (new & -> & Hnd' & Hnew & Hall).
      exists (r :: new).
      replace (rows ++ r :: new) with ((rows ++ [r]) ++ new)
        by (now rewrite <- app_assoc).
      repeat split; auto.
      * intros x [<-|Hx]; [left; congruence|right; now apply Hnew].
      * intros x [<-|Hx]; [|now apply Hall].
        rewrite map_app. apply in_or_app. left.
        rewrite keys_snoc. apply in_or_app. right. left. exact Hr.
Qed.

(** Statements never break the uniqueness of keys in a view. *)
Lemma inserts_unique vals tz v seq v' seq' :
  statements (map insert_on_conflict_do_nothing vals) tz v seq
    = (Ok (tt, v'), seq') ->
  unique_keys v -> unique_keys v'.
Proof.
  destruct v as [rows|].
  - intros H Hnd. destruct (inserts_ok _ _ _ _ _ _ H Hnd) as (new & -> & Hnd' & _).
    exact Hnd'.
  - destruct vals as [|x vals]; cbn.
    + intros [= <- <-]. auto.
    + destruct x as [[[[t r] d] s] l]. discriminate.
Qed.

(** A batch whose ids fit the columns goes through on any table. *)
Lemma inserts_succeed tz vals : forall rows seq,
  Forall (fun v => let '(t, r, d, _, _) := v in
                   is_integer t && is_integer r && is_integer d = true) vals ->
  exists rows' seq',
    statements (map insert_on_conflict_do_nothing vals) tz (Some rows) seq
      = (Ok (tt, Some rows'), seq').
Proof.
  induction vals as [|v vals IH]; intros rows seq Hall; cbn [map statements].
  - eauto.
  - inversion Hall as [|? ? Hv Hvs]; subst.
    destruct v as [[[[t r] d] s] l]. cbn. rewrite Hv.
    destruct (existsb _ rows); apply IH; assumption.
Qed.

(** In a table with unique keys, the appended rows do not carry a key
    that was there. *)
Lemma appended_keys_fresh rows new r :
  NoDup (map row_key (rows ++ new)) -> In r new ->
  ~ In (row_key r) (map row_key rows).
Proof.
  rewrite map_app. revert new r.
  induction rows as [|x rows IH]; intros new r Hnd Hr; cbn in *.
  - tauto.
  - inversion Hnd as [|? ? Hx Hnd']; subst. intros [He|Hin].
    + apply Hx. apply in_or_app. right. rewrite He. now apply in_map.
    + now apply (IH new r).
Qed.

Lemma filter_none {A} (f : A -> bool) (l : list A) :
  (forall x, In x l -> f x = false) -> filter f l = [].
Proof.
  induction l as [|a l IH]; cbn; intros H; [reflexivity|].
  rewrite (H a) by now left. apply IH. intros x Hx. apply H. now right.
Qed.

Lemma rows_with_key_app k rows new :
  NoDup (map row_key (rows ++ new)) ->
  In k (map row_key rows) ->
  rows_with_key k (rows ++ new) = rows_with_key k rows.
Proof.
  intros Hnd Hk. unfold rows_with_key. rewrite filter_app.
  replace (filter _ new) with (@nil row); [now rewrite app_nil_r|].
  symmetry. apply filter_none.
  intros r Hr. destruct (key_eqb (row_key r) k) eqn:E; [|reflexivity].
  apply key_eqb_eq in E. subst k.
  exfalso. eapply appended_keys_fresh; eauto.
Qed.

(** With unique keys, a key that is in the table names exactly one row. *)
Lemma rows_with_key_one k rows :
  NoDup (map row_key rows) -> In k (map row_key rows) ->
  List.length (rows_with_key k rows) = 1%nat.
Proof.
  unfold rows_with_key.
  induction rows as [|x rows IH]; cbn [map filter]; intros Hnd Hk.
  - destruct Hk.
  - inversion Hnd as [|? ? Hx Hnd']; subst.
    destruct (key_eqb (row_key x) k) eqn:E.
    + apply key_eqb_eq in E. subst k. cbn [List.length]. f_equal.
      rewrite filter_none; [reflexivity|].
      intros r Hr. destruct (key_eqb (row_key r) (row_key x)) eqn:E'; [|reflexivity].
      apply key_eqb_eq in E'. exfalso. apply Hx. rewrite <- E'. now apply in_map.
    + destruct Hk as [He|Hk]; [subst k; now rewrite key_eqb_refl in E|].
      now apply IH.
Qed.

End Table.

Section HealthyInsert.

Lemma cur_execute_succeeds {A} (s : statement A) w a v' seq' :
  w_db_fault w (w_db_ops w) = false ->
  w_txn w <> TxnAborted ->
  s (w_db_timezone w) (current_view w) (w_db_seq w) = (Ok (a, v'), seq') ->
  exists w', cur_execute s w = (Ok a, w') /\
             w_txn w' = TxnActive v' /\ w_db_seq w' = seq'.
Proof.
  unfold cur_execute, db_round_trip, current_view. intros -> Ht Hs.
  cbn. destruct (w_txn w) eqn:E; cbn in *; try congruence;
    rewrite Hs; eexists; repeat split.
Qed.

Lemma execute_pages_succeeds pages : forall w v' seq',
  (forall n, w_db_fault w n = false) ->
  w_txn w <> TxnAborted ->
  statements (map insert_on_conflict_do_nothing (List.concat pages))
             (w_db_timezone w) (current_view w) (w_db_seq w)
    = (Ok (tt, v'), seq') ->
  exists w', execute_pages pages w = (Ok tt, w').
Proof.
  induction pages as [|p ps IH]; intros w v' seq' Hf Ht Hs;
    cbn [execute_pages List.concat] in *.
  - eexists. reflexivity.
  - rewrite map_app, statements_app in Hs.
    destruct (statements (map insert_on_conflict_do_nothing p) _ _ _)
      as [[[[] v1]|e] seq1] eqn:E1; [|discriminate].
    destruct (cur_execute_succeeds _ w tt v1 seq1 (Hf _) Ht E1)
      as (w1 & Hx & Ht1 & Hs1).
    unfold bind. rewrite Hx.
    pose proof (cur_execute_quiet (statements (map insert_on_conflict_do_nothing p)) w)
      as Hq.
    pose proof (cur_execute_timezone
                  (statements (map insert_on_conflict_do_nothing p)) w) as Hz.
    rewrite Hx in Hq, Hz. cbn [snd] in Hq, Hz.
    destruct Hq as (_ & _ & _ & _ & _ & Hq).
    apply (IH w1 v' seq').
    + intros n. now rewrite Hq.
    + congruence.
    + unfold current_view. rewrite Hz, Ht1, Hs1. exact Hs.
Qed.

Lemma conn_commit_fault w : w_db_fault (snd (conn_commit w)) = w_db_fault w.
Proof.
  unfold conn_commit, db_round_trip.
  destruct (w_conn_open w); cbn; [|reflexivity].
  destruct (w_db_fault w (w_db_ops w)); cbn; [reflexivity|].
  destruct (w_txn w); reflexivity.
Qed.

Lemma conn_commit_succeeds w :
  w_conn_open w = true -> w_db_fault w (w_db_ops w) = false ->
  exists w', conn_commit w = (Ok tt, w').
Proof.
  unfold conn_commit, db_round_trip. intros -> ->. cbn. eauto.
Qed.

Lemma storable_values d :
  Forall storable d ->
  Forall (fun v => let '(t, r, d, _, _) := v in
                   is_integer t && is_integer r && is_integer d = true)
         (map values_of d).
Proof.
  induction 1 as [|r d (H1 & H2 & H3) _ IH]; cbn [map]; constructor; auto.
  unfold values_of. now rewrite H1, H2, H3.
Qed.

(** On a healthy connection a batch of storable records is inserted and
    committed; rows are only appended, one per key that was missing. *)
Lemma _db_insert_healthy d w rows :
  healthy w rows -> Forall storable d ->
  exists w' new,
    _db_insert d w = (Ok tt, w') /\
    healthy w' (rows ++ new) /\
    w_db_data w' = Some (rows ++ new) /\
    (forall r, In r new -> In (row_key r) (map record_key d)) /\
    (forall r, In r d -> In (record_key r) (map row_key (rows ++ new))).
Proof.
  intros (Ho & Ht & Hf & Hd & Hnd) Hst.
  destruct (inserts_succeed (w_db_timezone w) _ rows (w_db_seq w)
                            (storable_values d Hst))
    as (rows' & seq' & Hs).
  set (w0 := log (EvInsert d) w).
  assert (Hv0 : current_view w0 = Some rows) by exact Hd.
  destruct (execute_pages_succeeds
              (_paginate (List.length (map values_of d)) (map values_of d) 100)
              w0 (Some rows') seq') as (w1 & Hx).
  { exact Hf. }
  { exact Ht. }
  { rewrite _paginate_concat by lia. rewrite Hv0. exact Hs. }
  pose proof (execute_pages_quiet
                (_paginate (List.length (map values_of d)) (map values_of d) 100) w0)
    as Hq.
  rewrite Hx in Hq. cbn [snd] in Hq. destruct Hq as (Q1 & Q2 & Q3 & Q4 & Q5 & Q6).
  destruct (conn_commit_succeeds w1) as (w' & Hc).
  { rewrite Q2. exact Ho. }
  { rewrite Q6. apply Hf. }
  assert (Hall : _db_insert d w = (Ok tt, w')).
  { unfold _db_insert, bind, modify, conn_cursor. fold w0.
    replace (w_conn_open w0) with true by (symmetry; exact Ho).
    unfold execute_batch. rewrite Hx. exact Hc. }
  destruct (_db_insert_ok _ _ _ Hall) as (_ & (v' & Hins & Hdata) & Htx & Hopen).
  unfold insert_all in Hins.
  rewrite Hd in Hins.
  destruct (inserts_ok _ _ _ _ _ _ Hins Hnd) as (new & -> & Hnd' & Hnew & Hcov).
  exists w', new. split; [exact Hall|]. split; [|split; [exact Hdata|split]].
  - unfold healthy, current_view. rewrite Htx.
    repeat split; auto; [discriminate|].
    intros n. pose proof (conn_commit_fault w1) as Hcf.
    rewrite Hc in Hcf. cbn [snd] in Hcf. rewrite Hcf, Q6. apply Hf.
  - intros r Hr. specialize (Hnew r Hr).
    rewrite map_map in Hnew. exact Hnew.
  - intros r Hr. apply (Hcov (values_of r)). now apply in_map.
Qed.

End HealthyInsert.

(** ** C6 *)




(* ===================================================================== *)
(** * The generator _horreum_datasets                                     *)
(* ===================================================================== *)

Section Generator.

Variables test_id count limit : Z.

(** One request of a page: what comes back decides the outcome. *)
Lemma request_page_spec counter page w :
  request_page test_id limit counter page w =
    (match api_dataset_list (w_horreum w) (w_requests w) test_id page limit with
     | None => Raise ConnectionError
     | Some r =>
         if is_error_status (status_code r) then Raise (HTTPError (status_code r))
         else match json_get_datasets r with
              | ds :: rest =>
                  Ok (Some ds, GenSuspended counter page (json_get_datasets r) rest)
              | [] => Ok (None, GenFinished)
              end
     end,
     after_page_request test_id page limit w).
Proof.
  unfold request_page, bind, requests_get_dataset_list, raise_for_status,
    after_page_request.
  destruct (api_dataset_list _ _ _ _ _) as [r|]; [|reflexivity].
  destruct (is_error_status (status_code r)); [reflexivity|].
  cbn. destruct (json_get_datasets r); reflexivity.
Qed.

(** [next] either leaves the world alone or sends exactly one request. *)
Lemma gen_next_world g w :
  snd (gen_next test_id count limit g w) = w \/
  exists counter page,
    gen_next test_id count limit g w = request_page test_id limit counter page w.
Proof.
  destruct g as [page|counter page datasets rest|]; cbn [gen_next].
  - right. eauto.
  - destruct (counter + 1 >=? count); [now left|].
    destruct rest; [|now left].
    destruct (List.length datasets =? 0)%nat; [now left|]. right. eauto.
  - now left.
Qed.

Lemma gen_next_left g w ds g' w' :
  gen_next test_id count limit g w = (Ok (Some ds, g'), w') ->
  (gen_left count g' < gen_left count g)%nat.
Proof.
  assert (Hreq : forall counter page,
             request_page test_id limit counter page w = (Ok (Some ds, g'), w') ->
             exists d r, g' = GenSuspended counter page d r).
  { intros counter page. rewrite request_page_spec.
    destruct (api_dataset_list _ _ _ _ _) as [r|]; [|discriminate].
    destruct (is_error_status _); [discriminate|].
    destruct (json_get_datasets r); [discriminate|].
    intros [= <- <- <-]. eauto. }
  destruct g as [page|counter page datasets rest|]; cbn [gen_next].
  - intros H. apply Hreq in H as (d & r & ->). cbn. lia.
  - destruct (counter + 1 >=? count) eqn:E; [discriminate|].
    assert (counter + 1 < count) by (rewrite Z.geb_leb in E; now apply Z.leb_gt in E).
    destruct rest.
    + destruct (List.length datasets =? 0)%nat; [discriminate|].
      intros H'. apply Hreq in H' as (d & r & ->). cbn. lia.
    + intros [= <- <- <-]. cbn. lia.
  - discriminate.
Qed.

(** The consumer gets at most [gen_left] items, and that many calls of
    [next] and one more always reach the end. *)
Lemma consume_bounded n : forall g w,
  (List.length (fst (fst (consume n test_id count limit g w))) <= gen_left count g)%nat /\
  ((gen_left count g < n)%nat ->
   snd (fst (consume n test_id count limit g w)) <> Pending).
Proof.
  induction n as [|n IH]; intros g w; cbn [consume].
  - split; [cbn; lia|lia].
  - destruct (gen_next test_id count limit g w) as [[[[ds|] g']|e] w'] eqn:E.
    + pose proof (gen_next_left _ _ _ _ _ E) as Hl.
      destruct (IH g' w') as [IH1 IH2].
      destruct (consume n test_id count limit g' w') as [[l en] w''].
      cbn in *. split; [lia|]. intros Hn. apply IH2. lia.
    + cbn. split; [lia|discriminate].
    + cbn. split; [lia|discriminate].
Qed.

(** With a positive [count] the sequence has at most [count] items. *)
Lemma consume_at_most_count n page w :
  1 <= count ->
  Z.of_nat (List.length (fst (fst (consume n test_id count limit (GenCreated page) w))))
    <= count.
Proof.
  intros Hc. destruct (consume_bounded n (GenCreated page) w) as [H _].
  cbn [gen_left] in H. lia.
Qed.

End Generator.

Section GeneratorClaims.

Variables test_id count limit : Z.

(** A call of [next] whose only new event is the request of [page] is a
    call that requests that page. *)
Lemma gen_next_requests g w page :
  w_trace (snd (gen_next test_id count limit g w))
    = w_trace w ++ [EvGetDatasets test_id page limit] ->
  exists counter,
    gen_next test_id count limit g w = request_page test_id limit counter page w.
Proof.
  intros Ht. destruct (gen_next_world test_id count limit g w) as [Hw|(c & p & Hr)].
  - rewrite Hw in Ht. apply (f_equal (@List.length event)) in Ht.
    rewrite length_app in Ht. cbn in Ht. lia.
  - rewrite Hr, request_page_spec in Ht. cbn in Ht.
    apply app_inv_head in Ht. injection Ht as ->. eauto.
Qed.

Lemma upload_steps_raised n a e w : upload_steps n a (Raised e) w = (Raised e, w).
Proof. induction n as [|n IH]; [reflexivity|exact IH]. Qed.

End GeneratorClaims.

(** ** C7 *)

(** C7. When the page the generator asks for comes back without datasets
    the sequence ends there: started on that page (the first page), the
    generator yields nothing and has sent exactly this one request; resumed
    at any later point, it yields nothing more and this request is its
    last. *)
Theorem empty_page_ends_sequence
    (test_id count limit page : Z) (w : world)
    (resp : response (option (list dataset))) (n : nat) :
  api_dataset_list (w_horreum w) (w_requests w) test_id page limit = Some resp ->
  is_error_status (status_code resp) = false ->
  json_get_datasets resp = [] ->
  consume (S n) test_id count limit (GenCreated page) w
    = ([], Exhausted, after_page_request test_id page limit w) /\
  (forall g,
      w_trace (snd (gen_next test_id count limit g w))
        = w_trace w ++ [EvGetDatasets test_id page limit] ->
      consume (S n) test_id count limit g w
        = ([], Exhausted, after_page_request test_id page limit w)) /\
  page_requests (w_trace (after_page_request test_id page limit w))
    = page_requests (w_trace w) ++ [page].
Proof.
  intros Hapi Hok Hempty.
  assert (Hreq : forall counter,
             request_page test_id limit counter page w
               = (Ok (None, GenFinished), after_page_request test_id page limit w)).
  { intros counter. rewrite request_page_spec, Hapi, Hok, Hempty. reflexivity. }
  split; [|split].
  - cbn [consume gen_next]. now rewrite Hreq.
  - intros g Hg. apply gen_next_requests in Hg as (counter & Hg).
    cbn [consume]. now rewrite Hg, Hreq.
  - cbn. now rewrite page_requests_app.
Qed.

Lemma empty_page_ends_sequence_witness :
  consume 1 7 100 10 (GenCreated 1) (fresh_world (paged_service [] sample_labels) None 1)
    = ([], Exhausted,
       after_page_request 7 1 10 (fresh_world (paged_service [] sample_labels) None 1)) /\
  w_trace (after_page_request 7 1 10 (fresh_world (paged_service [] sample_labels) None 1))
    = [EvGetDatasets 7 1 10].
Proof.
  split; [|reflexivity].
  apply (empty_page_ends_sequence 7 100 10 1
           (fresh_world (paged_service [] sample_labels) None 1)
           (mkResponse 200 (Some [])) 0); reflexivity.
Defined.

(** ** C8 *)

(** C8. A response with an error status (4xx or 5xx, what
    [raise_for_status] rejects) is fatal at once. On a listing request the
    generator raises HTTPError and yields nothing from that page; on a
    label request [_horreum_labelvalues] raises HTTPError and returns no
    dict; in both cases [upload] ends with that error in the world the
    failed request left. *)
Theorem http_error_is_fatal :
  (forall test_id count limit g w page resp n,
      w_trace (snd (gen_next test_id count limit g w))
        = w_trace w ++ [EvGetDatasets test_id page limit] ->
      api_dataset_list (w_horreum w) (w_requests w) test_id page limit = Some resp ->
      is_error_status (status_code resp) = true ->
      consume (S n) test_id count limit g w
        = ([], Failed (HTTPError (status_code resp)),
           after_page_request test_id page limit w)) /\
  (forall dataset_id w resp,
      api_labelValues (w_horreum w) (w_requests w) dataset_id = Some resp ->
      is_error_status (status_code resp) = true ->
      _horreum_labelvalues dataset_id w
        = (Raise (HTTPError (status_code resp)), after_label_request dataset_id w)) /\
  (forall a gen d w s w' n,
      gen_next (horreum_test_id a) (horreum_count a) (horreum_limit a) gen w
        = (Raise (HTTPError s), w') ->
      upload_steps (S n) a (ForNext gen d) w = (Raised (HTTPError s), w')) /\
  (forall a gen d w ds gen' w1 s w2 n,
      gen_next (horreum_test_id a) (horreum_count a) (horreum_limit a) gen w
        = (Ok (Some ds, gen'), w1) ->
      _horreum_labelvalues (ds_id ds) w1 = (Raise (HTTPError s), w2) ->
      upload_steps (S n) a (ForNext gen d) w = (Raised (HTTPError s), w2)).
Proof.
  split; [|split; [|split]].
  - intros test_id count limit g w page resp n Hg Hapi Herr.
    apply gen_next_requests in Hg as (counter & Hg).
    cbn [consume]. rewrite Hg, request_page_spec, Hapi, Herr. reflexivity.
  - intros dataset_id w resp Hapi Herr.
    unfold _horreum_labelvalues, bind, requests_get_labelValues, raise_for_status.
    rewrite Hapi, Herr. reflexivity.
  - intros a gen d w s w' n Hg.
    cbn [upload_steps]. unfold upload_step. cbn [upload_code]. unfold bind.
    rewrite Hg. apply upload_steps_raised.
  - intros a gen d w ds gen' w1 s w2 n Hg Hl.
    cbn [upload_steps]. unfold upload_step. cbn [upload_code]. unfold bind.
    rewrite Hg, Hl. apply upload_steps_raised.
Qed.

Lemma http_error_is_fatal_witness :
  consume 1 7 5 10 (GenCreated 1) (fresh_world broken_service None 1)
    = ([], Failed (HTTPError 500),
       after_page_request 7 1 10 (fresh_world broken_service None 1)) /\
  _horreum_labelvalues 1 (fresh_world (broken_labels [sample_page 1 1]) None 1)
    = (Raise (HTTPError 404),
       after_label_request 1 (fresh_world (broken_labels [sample_page 1 1]) None 1)).
Proof.
  split.
  - apply (proj1 http_error_is_fatal 7 5 10 (GenCreated 1)
             (fresh_world broken_service None 1) 1 (mkResponse 500 None) 0%nat);
      reflexivity.
  - apply (proj1 (proj2 http_error_is_fatal) 1
             (fresh_world (broken_labels [sample_page 1 1]) None 1)
             (mkResponse 404 [])); reflexivity.
Defined.

(** The claim as the specification states it, for every status that is
    no success, fails on a status that [raise_for_status] accepts: a
    listing and a label response with status 304 are read like a 200, the
    generator yields the dataset of the page, [_horreum_labelvalues]
    returns the dict, and [upload] stores the row and returns. *)
Lemma non_success_status_is_not_fatal :
  spec_success_status 304 = false /\
  fst (consume 2 7 1 10 (GenCreated 1)
               (fresh_world (not_modified_service [sample_page 1 1] sample_labels)
                            None 1))
    = ([sample_dataset 1], Exhausted) /\
  fst (_horreum_labelvalues 1
         (fresh_world (not_modified_service [sample_page 1 1] sample_labels) None 1))
    = Ok (dict_of_items sample_labels) /\
  (let '(pc, w) := upload (mkArgs 7 1 1 10)
                     (fresh_world (not_modified_service [sample_page 1 1] sample_labels)
                                  None 1) in
   pc = Returned /\
   option_map (map row_key) (w_db_data w) = Some [(7, 101, 1)]).
Proof.
  split; [reflexivity|]. split; [vm_compute; reflexivity|].
  split; [vm_compute; reflexivity|]. vm_compute. split; reflexivity.
Qed.

(** ** C10 *)

(** C10. With [count <= 0] and a first page that is not empty, the
    generator yields exactly the first dataset of that page and stops,
    having sent exactly one request: the test [counter >= count] comes
    after the [yield]. *)
Theorem nonpositive_count_yields_one
    (test_id count limit page : Z) (w : world)
    (resp : response (option (list dataset))) (ds : dataset) (rest : list dataset)
    (n : nat) :
  count <= 0 ->
  api_dataset_list (w_horreum w) (w_requests w) test_id page limit = Some resp ->
  is_error_status (status_code resp) = false ->
  json_get_datasets resp = ds :: rest ->
  consume (S (S n)) test_id count limit (GenCreated page) w
    = ([ds], Exhausted, after_page_request test_id page limit w) /\
  page_requests (w_trace (after_page_request test_id page limit w))
    = page_requests (w_trace w) ++ [page].
Proof.
  intros Hc Hapi Hok Hds. split.
  - cbn [consume gen_next].
    rewrite request_page_spec, Hapi, Hok, Hds. cbn [gen_next].
    assert (E : (0 + 1 >=? count) = true)
      by (rewrite Z.geb_leb; apply Z.leb_le; lia).
    rewrite E. reflexivity.
  - cbn. now rewrite page_requests_app.
Qed.

Lemma nonpositive_count_yields_one_witness :
  consume 2 7 (-3) 10 (GenCreated 1) (fresh_world three_pages None 1)
    = ([sample_dataset 1], Exhausted,
       after_page_request 7 1 10 (fresh_world three_pages None 1)) /\
  w_trace (after_page_request 7 1 10 (fresh_world three_pages None 1))
    = [EvGetDatasets 7 1 10].
Proof.
  split; [|reflexivity].
  apply (nonpositive_count_yields_one 7 (-3) 10 1 (fresh_world three_pages None 1)
           (mkResponse 200 (Some (sample_page 1 10)))
           (sample_dataset 1) (sample_page 2 9) 0); try reflexivity. lia.
Defined.

(** ** C2 *)

(** C2, at the failing input: asked for at most 0 datasets, the generator
    yields one. *)
Theorem zero_count_yields_one :
  let '(items, ending, w) :=
    consume 10 7 0 10 (_horreum_datasets (mkArgs 7 0 1 10))
            (fresh_world one_dataset None 1) in
  items = [sample_dataset 1] /\ ending = Exhausted /\
  (Z.of_nat (List.length items) > 0) /\
  w_trace w = [EvGetDatasets 7 1 10].
Proof. vm_compute. repeat split. Qed.

(** The bounded listing of the specification: five of thirty datasets and
    a single request. *)
Example five_of_thirty :
  let '(items, ending, w) :=
    consume 100 7 5 10 (_horreum_datasets (mkArgs 7 5 1 10))
            (fresh_world three_pages None 1) in
  items = sample_page 1 5 /\ ending = Exhausted /\
  w_trace w = [EvGetDatasets 7 1 10].
Proof. vm_compute. repeat split. Qed.

(* ===================================================================== *)
(** * upload, step by step                                                *)
(* ===================================================================== *)

Section UploadSteps.

Variable a : args.

Lemma _db_connect_effect w :
  match _db_connect w with
  | (Ok _, w') => w_trace w' = w_trace w ++ [EvConnect] /\ w_conn_open w' = true
  | (Raise _, w') => w_trace w' = w_trace w /\ w_conn_open w' = w_conn_open w
  end.
Proof.
  unfold _db_connect, psycopg2_connect, bind, db_round_trip, modify.
  destruct (w_db_fault w (w_db_ops w)); cbn; auto.
Qed.

Lemma _db_table_init_effect w :
  exists added,
    w_trace (snd (_db_table_init w)) = w_trace w ++ added /\
    (added = [] \/ added = [EvCommit]) /\
    w_conn_open (snd (_db_table_init w)) = w_conn_open w.
Proof.
  unfold _db_table_init, bind, conn_cursor.
  destruct (w_conn_open w) eqn:Eo.
  2:{ exists []. cbn. rewrite app_nil_r. auto. }
  pose proof (cur_execute_quiet select_table_exists w) as Hq1.
  destruct (cur_execute select_table_exists w) as [[b|e] w1]; cbn [snd] in Hq1;
    destruct Hq1 as (T1 & O1 & _).
  2:{ exists []. cbn [snd]. rewrite app_nil_r. split; [|split]; auto; congruence. }
  destruct b; cbn [negb].
  { exists []. cbn. rewrite app_nil_r. split; [|split]; auto; congruence. }
  pose proof (cur_execute_quiet create_table w1) as Hq2.
  destruct (cur_execute create_table w1) as [[u|e] w2]; cbn [snd] in Hq2;
    destruct Hq2 as (T2 & O2 & _).
  2:{ exists []. cbn [snd]. rewrite app_nil_r. split; [|split]; auto; congruence. }
  destruct (conn_commit w2) as [[[]|e] w3] eqn:Ec; cbn [snd].
  - apply conn_commit_ok in Ec as (T3 & _ & _ & O3 & _).
    exists [EvCommit]. split; [|split]; auto; congruence.
  - apply conn_commit_raise in Ec as (T3 & _ & O3).
    exists []. rewrite app_nil_r. split; [|split]; auto; congruence.
Qed.

Lemma step_init w :
  exists added,
    w_trace (snd (upload_step a Init w)) = w_trace w ++ added /\
    closes added = 0%nat /\ inserts added = [] /\ streamed added = [] /\
    ((fst (upload_step a Init w) = ForNext (_horreum_datasets a) [] /\
      connects added = 1%nat /\ w_conn_open (snd (upload_step a Init w)) = true) \/
     (exists e, fst (upload_step a Init w) = Raised e /\
                (connects added <= 1)%nat /\
                (connects added = 1%nat ->
                 w_conn_open (snd (upload_step a Init w)) = true))).
Proof.
  unfold upload_step. cbn [upload_code]. unfold bind, _setup, ret.
  pose proof (_db_connect_effect w) as Hc.
  destruct (_db_connect w) as [[[]|e] w1]; destruct Hc as (T1 & O1).
  2:{ exists []. cbn [fst snd]. rewrite app_nil_r. repeat split; auto.
      right. exists e. cbn. repeat split; auto. lia. }
  destruct (_db_table_init_effect w1) as (d & T2 & Hd & O2).
  exists (EvConnect :: d).
  assert (Hcount : closes (EvConnect :: d) = 0%nat /\
                   inserts (EvConnect :: d) = [] /\
                   streamed (EvConnect :: d) = [] /\
                   connects (EvConnect :: d) = 1%nat)
    by (destruct Hd as [-> | ->]; repeat split).
  destruct Hcount as (C1 & C2 & C3 & C4).
  destruct (_db_table_init w1) as [[[]|e] w2]; cbn [fst snd] in *.
  - split; [rewrite T2, T1, <- app_assoc; reflexivity|].
    repeat split; auto. left. repeat split; auto. congruence.
  - split; [rewrite T2, T1, <- app_assoc; reflexivity|].
    repeat split; auto. right. exists e. repeat split; auto; [lia|congruence].
Qed.

Lemma gen_next_effect g w :
  exists added,
    w_trace (snd (gen_next (horreum_test_id a) (horreum_count a) (horreum_limit a) g w))
      = w_trace w ++ added /\
    silent added /\
    w_conn_open
      (snd (gen_next (horreum_test_id a) (horreum_count a) (horreum_limit a) g w))
      = w_conn_open w.
Proof.
  destruct (gen_next_world (horreum_test_id a) (horreum_count a) (horreum_limit a) g w)
    as [-> | (c & p & ->)].
  - exists []. rewrite app_nil_r. repeat split.
  - rewrite request_page_spec. cbn [snd].
    exists [EvGetDatasets (horreum_test_id a) p (horreum_limit a)]. repeat split.
Qed.

Lemma _horreum_labelvalues_world dataset_id w :
  snd (_horreum_labelvalues dataset_id w) = after_label_request dataset_id w.
Proof.
  unfold _horreum_labelvalues, bind, requests_get_labelValues, raise_for_status.
  destruct (api_labelValues _ _ _) as [r|]; [|reflexivity].
  destruct (is_error_status _); reflexivity.
Qed.

Lemma step_for g d w :
  exists added,
    w_trace (snd (upload_step a (ForNext g d) w)) = w_trace w ++ added /\
    connects added = 0%nat /\ closes added = 0%nat /\ inserts added = [] /\
    w_conn_open (snd (upload_step a (ForNext g d) w)) = w_conn_open w /\
    ((exists g' r, fst (upload_step a (ForNext g d) w) = FlushTest g' (d ++ [r]) /\
                   streamed added = [horreum_datasetid r] /\
                   (gen_left (horreum_count a) g' < gen_left (horreum_count a) g)%nat) \/
     (fst (upload_step a (ForNext g d) w) = FinalFlush d /\ streamed added = []) \/
     (exists e, fst (upload_step a (ForNext g d) w) = Raised e)).
Proof.
  unfold upload_step. cbn [upload_code]. unfold bind.
  destruct (gen_next_effect g w) as (d1 & T1 & (S1 & S2 & S3 & S4) & O1).
  destruct (gen_next _ _ _ g w) as [[[[ds|] g']|e] w1] eqn:Eg; cbn [snd] in T1, O1.
  - pose proof (_horreum_labelvalues_world (ds_id ds) w1) as Hl.
    exists (d1 ++ [EvGetLabelValues (ds_id ds)]).
    assert (Hcounts : connects (d1 ++ [EvGetLabelValues (ds_id ds)]) = 0%nat /\
                      closes (d1 ++ [EvGetLabelValues (ds_id ds)]) = 0%nat /\
                      inserts (d1 ++ [EvGetLabelValues (ds_id ds)]) = [] /\
                      streamed (d1 ++ [EvGetLabelValues (ds_id ds)]) = [ds_id ds]).
    { rewrite connects_app, closes_app, inserts_app, streamed_app, S1, S2, S3, S4.
      repeat split. }
    destruct Hcounts as (C1 & C2 & C3 & C4).
    destruct (_horreum_labelvalues (ds_id ds) w1) as [[lv|e] w2]; cbn [snd] in Hl;
      subst w2.
    + unfold of_option.
      destruct (when_of_start (ds_start ds)) as [when|]; cbn [fst snd ret raise].
      * split; [cbn; rewrite T1, <- app_assoc; reflexivity|].
        repeat split; auto. left. eexists _, _. split; [reflexivity|].
        split; [exact C4|]. eapply gen_next_left; exact Eg.
      * split; [cbn; rewrite T1, <- app_assoc; reflexivity|].
        repeat split; auto. right. right. eauto.
    + cbn [fst snd].
      split; [cbn; rewrite T1, <- app_assoc; reflexivity|].
      repeat split; auto. right. right. eauto.
  - exists d1. cbn [fst snd ret]. repeat split; auto.
  - exists d1. cbn [fst snd]. repeat split; auto. right. right. eauto.
Qed.

(** A call of [_db_insert] from [upload] and where it leads. *)
Lemma insert_then d (next : upload_pc) w :
  match (_db_insert d ;; ret next) w with
  | (Ok pc', w') =>
      pc' = next /\ w_trace w' = w_trace w ++ [EvInsert d; EvCommit] /\
      w_conn_open w' = true
  | (Raise _, w') =>
      w_trace w' = w_trace w ++ [EvInsert d] /\ w_conn_open w' = w_conn_open w
  end.
Proof.
  unfold bind.
  destruct (_db_insert d w) as [[[]|e] w'] eqn:E.
  - apply _db_insert_ok in E as (T & _ & _ & O). cbn. auto.
  - apply _db_insert_raise in E as (T & _ & O). auto.
Qed.

Lemma step_close w :
  upload_step a Close w
    = (Returned, log EvClose (set_txn TxnIdle (set_conn_open false w))).
Proof. reflexivity. Qed.

End UploadSteps.

Section UploadFlushes.

Variable a : args.

Lemma step_flush g d w :
  ((List.length d < 10)%nat /\ upload_step a (FlushTest g d) w = (ForNext g d, w)) \/
  ((10 <= List.length d)%nat /\
   ((fst (upload_step a (FlushTest g d) w) = ForNext g [] /\
     w_trace (snd (upload_step a (FlushTest g d) w))
       = w_trace w ++ [EvInsert d; EvCommit] /\
     w_conn_open (snd (upload_step a (FlushTest g d) w)) = true) \/
    (exists e, fst (upload_step a (FlushTest g d) w) = Raised e /\
               w_trace (snd (upload_step a (FlushTest g d) w))
                 = w_trace w ++ [EvInsert d] /\
               w_conn_open (snd (upload_step a (FlushTest g d) w))
                 = w_conn_open w))).
Proof.
  unfold upload_step. cbn [upload_code].
  destruct (10 <=? List.length d)%nat eqn:E.
  - apply Nat.leb_le in E. right. split; [exact E|].
    pose proof (insert_then d (ForNext g []) w) as H.
    destruct ((_db_insert d ;; ret (ForNext g [])) w) as [[pc'|e] w']; cbn [fst snd].
    + destruct H as (-> & T & O). left. auto.
    + destruct H as (T & O). right. eauto.
  - apply Nat.leb_gt in E. left. split; [exact E|reflexivity].
Qed.

Lemma step_final d w :
  (d = [] /\ upload_step a (FinalFlush d) w = (Close, w)) \/
  ((0 < List.length d)%nat /\
   ((fst (upload_step a (FinalFlush d) w) = Close /\
     w_trace (snd (upload_step a (FinalFlush d) w))
       = w_trace w ++ [EvInsert d; EvCommit] /\
     w_conn_open (snd (upload_step a (FinalFlush d) w)) = true) \/
    (exists e, fst (upload_step a (FinalFlush d) w) = Raised e /\
               w_trace (snd (upload_step a (FinalFlush d) w))
                 = w_trace w ++ [EvInsert d] /\
               w_conn_open (snd (upload_step a (FinalFlush d) w))
                 = w_conn_open w))).
Proof.
  unfold upload_step. cbn [upload_code].
  destruct (0 <? List.length d)%nat eqn:E.
  - apply Nat.ltb_lt in E. right. split; [exact E|].
    pose proof (insert_then d Close w) as H.
    destruct ((_db_insert d ;; ret Close) w) as [[pc'|e] w']; cbn [fst snd].
    + destruct H as (-> & T & O). left. auto.
    + destruct H as (T & O). right. eauto.
  - apply Nat.ltb_ge in E. left. split; [|reflexivity].
    destruct d; [reflexivity|cbn in E; lia].
Qed.

Lemma step_terminal pc w : terminal pc -> upload_step a pc w = (pc, w).
Proof. destruct pc; cbn; try tauto; reflexivity. Qed.

(** An invariant of the steps is an invariant of the run. *)
Lemma upload_steps_preserve (P : upload_pc -> list event -> world -> Prop) w0 :
  (forall pc added w,
      w_trace w = w_trace w0 ++ added -> P pc added w ->
      exists added',
        w_trace (snd (upload_step a pc w)) = w_trace w0 ++ added' /\
        P (fst (upload_step a pc w)) added' (snd (upload_step a pc w))) ->
  forall n pc added w,
    w_trace w = w_trace w0 ++ added -> P pc added w ->
    exists added',
      w_trace (snd (upload_steps n a pc w)) = w_trace w0 ++ added' /\
      P (fst (upload_steps n a pc w)) added' (snd (upload_steps n a pc w)).
Proof.
  intros Hstep. induction n as [|n IH]; intros pc added w Ht HP; cbn [upload_steps].
  - eauto.
  - destruct (Hstep pc added w Ht HP) as (added' & Ht' & HP').
    destruct (upload_step a pc w) as [pc' w']. cbn [fst snd] in *.
    eapply IH; eauto.
Qed.

(** ** Termination *)

Lemma step_decreases pc w :
  ~ terminal pc ->
  (steps_left (horreum_count a) (fst (upload_step a pc w))
   < steps_left (horreum_count a) pc)%nat.
Proof.
  intros Hnt. destruct pc as [|g d|g d|d| | |e]; cbn [terminal] in Hnt; try tauto.
  - destruct (step_init a w) as (ad & _ & _ & _ & _ & [(-> & _)|(e & -> & _)]);
      cbn; lia.
  - destruct (step_for a g d w)
      as (ad & _ & _ & _ & _ & _ & [(g' & r & -> & _ & Hl)|[(-> & _)|(e & ->)]]);
      cbn [steps_left]; lia.
  - destruct (step_flush g d w) as [(_ & ->)|(_ & [(-> & _)|(e & -> & _)])];
      cbn [steps_left fst]; lia.
  - destruct (step_final d w) as [(_ & ->)|(_ & [(-> & _)|(e & -> & _)])];
      cbn [steps_left fst]; lia.
  - cbn. lia.
Qed.

Lemma upload_steps_terminate n : forall pc w,
  (steps_left (horreum_count a) pc <= n)%nat ->
  terminal (fst (upload_steps n a pc w)).
Proof.
  induction n as [|n IH]; intros pc w Hn; cbn [upload_steps].
  - destruct pc; cbn in *; try lia; exact I.
  - destruct (upload_step a pc w) as [pc' w'] eqn:E.
    apply IH.
    assert (Hd : terminal pc \/ ~ terminal pc) by (destruct pc; cbn; tauto).
    destruct Hd as [Ht|Hnt].
    + rewrite (step_terminal pc w Ht) in E. injection E as <- <-.
      destruct pc; cbn in *; try tauto; lia.
    + pose proof (step_decreases pc w Hnt) as Hlt. rewrite E in Hlt.
      cbn [fst] in Hlt. lia.
Qed.

(** [upload] always ends: it returns or it raises. *)
Lemma upload_terminates w : terminal (fst (upload a w)).
Proof.
  unfold upload. apply upload_steps_terminate.
  unfold upload_bound. cbn [steps_left]. lia.
Qed.

End UploadFlushes.

Section UploadInvariants.

Variable a : args.
Variable w0 : world.

Ltac extend_trace Ht T :=
  rewrite T, Ht, <- app_assoc; reflexivity.

(** ** The connection *)

Lemma connection_step pc added w :
  w_trace w = w_trace w0 ++ added -> connection_invariant pc added w ->
  exists added',
    w_trace (snd (upload_step a pc w)) = w_trace w0 ++ added' /\
    connection_invariant (fst (upload_step a pc w)) added' (snd (upload_step a pc w)).
Proof.
  intros Ht Hinv. destruct pc as [|g d|g d|d| | |e]; cbn [connection_invariant] in Hinv.
  - subst added. rewrite app_nil_r in Ht.
    destruct (step_init a w) as (ad & T & C & _ & _ & H).
    exists ad. split; [now rewrite T, Ht|].
    destruct H as [(-> & Hc & Ho)|(e & -> & Hc & Ho)]; cbn; auto.
  - destruct Hinv as (I1 & I2 & I3).
    destruct (step_for a g d w) as (ad & T & C1 & C2 & _ & O & H).
    exists (added ++ ad). split; [extend_trace Ht T|].
    assert (connects (added ++ ad) = 1%nat) by (rewrite connects_app; lia).
    assert (closes (added ++ ad) = 0%nat) by (rewrite closes_app; lia).
    destruct H as [(g' & r & -> & _)|[(-> & _)|(e & ->)]]; cbn;
      repeat split; auto; try lia; congruence.
  - destruct Hinv as (I1 & I2 & I3).
    destruct (step_flush a g d w) as [(_ & ->)|(_ & [(-> & T & O)|(e & -> & T & O)])].
    + exists added. cbn. auto.
    + exists (added ++ [EvInsert d; EvCommit]). split; [extend_trace Ht T|].
      cbn. rewrite connects_app, closes_app. cbn. repeat split; auto; lia.
    + exists (added ++ [EvInsert d]). split; [extend_trace Ht T|].
      cbn. rewrite connects_app, closes_app. cbn. repeat split; try lia. congruence.
  - destruct Hinv as (I1 & I2 & I3).
    destruct (step_final a d w) as [(_ & ->)|(_ & [(-> & T & O)|(e & -> & T & O)])].
    + exists added. cbn. auto.
    + exists (added ++ [EvInsert d; EvCommit]). split; [extend_trace Ht T|].
      cbn. rewrite connects_app, closes_app. cbn. repeat split; auto; lia.
    + exists (added ++ [EvInsert d]). split; [extend_trace Ht T|].
      cbn. rewrite connects_app, closes_app. cbn. repeat split; try lia. congruence.
  - destruct Hinv as (I1 & I2 & I3). rewrite step_close.
    exists (added ++ [EvClose]). cbn. split; [now rewrite Ht, <- app_assoc|].
    rewrite connects_app, closes_app. cbn. repeat split; lia.
  - exists added. cbn. auto.
  - exists added. cbn. auto.
Qed.

(** ** The batches *)

Lemma flush_shape_loop ins : flush_shape false ins <-> Forall full ins.
Proof.
  split.
  - intros (mids & final & -> & Hm & [-> | (Hf & _)]); [|discriminate].
    now rewrite app_nil_r.
  - intros H. exists ins, []. rewrite app_nil_r. auto.
Qed.

Lemma flush_shape_weaken ins : flush_shape false ins -> flush_shape true ins.
Proof.
  intros (mids & final & -> & Hm & [-> | (Hf & _)]); [|discriminate].
  exists mids, []. auto.
Qed.

Lemma flush_shape_full ins d :
  flush_shape false ins -> full d -> flush_shape false (ins ++ [d]).
Proof.
  rewrite !flush_shape_loop. intros H Hd. apply Forall_app. auto.
Qed.

Lemma flush_shape_partial ins d :
  flush_shape false ins -> partial d -> flush_shape true (ins ++ [d]).
Proof.
  rewrite flush_shape_loop. intros H Hd. exists ins, [d]. repeat split; auto.
  right. eauto.
Qed.

Lemma pipeline_step pc added w :
  w_trace w = w_trace w0 ++ added -> pipeline_invariant pc (inserts added) ->
  exists added',
    w_trace (snd (upload_step a pc w)) = w_trace w0 ++ added' /\
    pipeline_invariant (fst (upload_step a pc w)) (inserts added').
Proof.
  intros Ht Hinv. destruct pc as [|g d|g d|d| | |e]; cbn [pipeline_invariant] in Hinv.
  - destruct (step_init a w) as (ad & T & _ & Hi & _ & H).
    exists (added ++ ad). split; [extend_trace Ht T|].
    rewrite inserts_app, Hinv, Hi.
    destruct H as [(-> & _)|(e & -> & _)]; cbn.
    + split; [lia|]. apply flush_shape_loop. constructor.
    + apply flush_shape_weaken, flush_shape_loop. constructor.
  - destruct Hinv as (Hl & Hs).
    destruct (step_for a g d w) as (ad & T & _ & _ & Hi & _ & H).
    exists (added ++ ad). split; [extend_trace Ht T|].
    rewrite inserts_app, Hi, app_nil_r.
    destruct H as [(g' & r & -> & _)|[(-> & _)|(e & ->)]]; cbn.
    + rewrite last_length. split; [lia|assumption].
    + auto.
    + now apply flush_shape_weaken.
  - destruct Hinv as (Hl & Hs).
    destruct (step_flush a g d w) as [(Hd & ->)|(Hd & [(-> & T & _)|(e & -> & T & _)])].
    + exists added. cbn. repeat split; auto. lia.
    + exists (added ++ [EvInsert d; EvCommit]). split; [extend_trace Ht T|].
      rewrite inserts_app. cbn. split; [lia|].
      apply flush_shape_full; [assumption|unfold full; lia].
    + exists (added ++ [EvInsert d]). split; [extend_trace Ht T|].
      rewrite inserts_app. cbn.
      apply flush_shape_weaken, flush_shape_full; [assumption|unfold full; lia].
  - destruct Hinv as (Hl & Hs).
    destruct (step_final a d w) as [(Hd & ->)|(Hd & [(-> & T & _)|(e & -> & T & _)])].
    + exists added. cbn. split; [assumption|]. now apply flush_shape_weaken.
    + exists (added ++ [EvInsert d; EvCommit]). split; [extend_trace Ht T|].
      rewrite inserts_app. cbn.
      apply flush_shape_partial; [assumption|unfold partial; lia].
    + exists (added ++ [EvInsert d]). split; [extend_trace Ht T|].
      rewrite inserts_app. cbn.
      apply flush_shape_partial; [assumption|unfold partial; lia].
  - rewrite step_close. exists (added ++ [EvClose]). cbn.
    split; [now rewrite Ht, <- app_assoc|].
    rewrite inserts_app. cbn. now rewrite app_nil_r.
  - exists added. cbn. auto.
  - exists added. cbn. auto.
Qed.

(** ** The stream *)

Lemma stream_step pc added w :
  w_trace w = w_trace w0 ++ added -> stream_invariant pc added ->
  exists added',
    w_trace (snd (upload_step a pc w)) = w_trace w0 ++ added' /\
    stream_invariant (fst (upload_step a pc w)) added'.
Proof.
  intros Ht Hinv. destruct pc as [|g d|g d|d| | |e]; cbn [stream_invariant] in Hinv.
  - destruct Hinv as (Hi0 & Hs0).
    destruct (step_init a w) as (ad & T & _ & Hi & Hs & H).
    exists (added ++ ad). split; [extend_trace Ht T|].
    destruct H as [(-> & _)|(e & -> & _)]; cbn; [|exact I].
    now rewrite inserts_app, streamed_app, Hi0, Hs0, Hi, Hs.
  - destruct (step_for a g d w) as (ad & T & _ & _ & Hi & _ & H).
    exists (added ++ ad). split; [extend_trace Ht T|].
    destruct H as [(g' & r & -> & Hs & _)|[(-> & Hs)|(e & ->)]]; cbn; [| |exact I].
    + rewrite inserts_app, streamed_app, Hi, Hs, app_nil_r, <- Hinv.
      now rewrite app_assoc, map_app.
    + now rewrite inserts_app, streamed_app, Hi, Hs, !app_nil_r.
  - destruct (step_flush a g d w) as [(Hd & ->)|(Hd & [(-> & T & _)|(e & -> & T & _)])].
    + exists added. cbn. auto.
    + exists (added ++ [EvInsert d; EvCommit]). split; [extend_trace Ht T|].
      cbn. rewrite inserts_app, streamed_app. cbn.
      rewrite concat_app. cbn [List.concat]. rewrite !app_nil_r. exact Hinv.
    + exists (added ++ [EvInsert d]). split; [extend_trace Ht T|]. exact I.
  - destruct (step_final a d w) as [(Hd & ->)|(Hd & [(-> & T & _)|(e & -> & T & _)])].
    + exists added. cbn. subst d. rewrite app_nil_r in Hinv. auto.
    + exists (added ++ [EvInsert d; EvCommit]). split; [extend_trace Ht T|].
      cbn. rewrite inserts_app, streamed_app. cbn.
      rewrite concat_app. cbn [List.concat]. rewrite !app_nil_r. exact Hinv.
    + exists (added ++ [EvInsert d]). split; [extend_trace Ht T|]. exact I.
  - rewrite step_close. exists (added ++ [EvClose]). cbn.
    split; [now rewrite Ht, <- app_assoc|].
    rewrite inserts_app, streamed_app. cbn. now rewrite !app_nil_r.
  - exists added. cbn. auto.
  - exists added. cbn. auto.
Qed.

End UploadInvariants.

(* ===================================================================== *)
(** * The pipeline                                                        *)
(* ===================================================================== *)

(** ** C4 *)

(** C4, as the code has it. [upload] always ends, and its connection is
    acquired at most once. A run that returns has connected once and
    closed once, and leaves the connection closed. A run that raises has
    not closed: no close is recorded, and a connection that was acquired is
    left open. *)
Theorem upload_closes_only_when_it_returns (a : args) (w : world) :
  exists added,
    w_trace (snd (upload a w)) = w_trace w ++ added /\
    ((fst (upload a w) = Returned /\
      connects added = 1%nat /\ closes added = 1%nat /\
      w_conn_open (snd (upload a w)) = false) \/
     (exists e, fst (upload a w) = Raised e /\
                (connects added <= 1)%nat /\ closes added = 0%nat /\
                (connects added = 1%nat -> w_conn_open (snd (upload a w)) = true))).
Proof.
  destruct (upload_steps_preserve a connection_invariant w
              (connection_step a w) (upload_bound a) Init [] w)
    as (added & Ht & Hinv).
  - now rewrite app_nil_r.
  - reflexivity.
  - fold (upload a w) in Ht, Hinv. exists added. split; [exact Ht|].
    pose proof (upload_terminates a w) as Hterm.
    destruct (fst (upload a w)); cbn in Hterm; try tauto; cbn in Hinv.
    + left. tauto.
    + right. eauto.
Qed.

(** The claim as the specification states it fails on a run whose first
    listing request is answered 500: the run raises with the connection
    acquired and never closed. *)
Lemma upload_error_leaves_connection_open :
  let '(pc, w) := upload (mkArgs 7 5 1 10) (fresh_world broken_service None 1) in
  pc = Raised (HTTPError 500) /\
  w_trace w = [EvConnect; EvCommit; EvGetDatasets 7 1 10] /\
  connects (w_trace w) = 1%nat /\ closes (w_trace w) = 0%nat /\
  w_conn_open w = true.
Proof. vm_compute. repeat split. Qed.

(** ** C9 *)

(** C9. At every point of a run the buffer holds at most ten records
    (at most nine when the next dataset is asked for), and the calls of
    [_db_insert] made so far are batches of exactly ten records while the
    loop runs, followed after the loop by at most one batch of one to nine
    records, the final flush. No call passes an empty list. *)
Theorem buffer_and_batches_bounded (a : args) (w : world) (n : nat) :
  exists added,
    w_trace (snd (upload_steps n a Init w)) = w_trace w ++ added /\
    pipeline_invariant (fst (upload_steps n a Init w)) (inserts added) /\
    (List.length (buffer (fst (upload_steps n a Init w))) <= 10)%nat /\
    Forall (fun b => (1 <= List.length b <= 10)%nat) (inserts added).
Proof.
  destruct (upload_steps_preserve a
              (fun pc added _ => pipeline_invariant pc (inserts added)) w
              (pipeline_step a w) n Init [] w)
    as (added & Ht & Hinv).
  - now rewrite app_nil_r.
  - reflexivity.
  - exists added. split; [exact Ht|]. split; [exact Hinv|].
    assert (Hshape : forall f ins, flush_shape f ins ->
                       Forall (fun b => (1 <= List.length b <= 10)%nat) ins).
    { intros f ins (mids & final & -> & Hm & Hf). apply Forall_app. split.
      - eapply Forall_impl; [|exact Hm]. unfold full. intros; lia.
      - destruct Hf as [-> | (_ & b & -> & Hb)]; constructor; [|constructor].
        unfold partial in Hb. lia. }
    destruct (fst (upload_steps n a Init w)); cbn in Hinv |- *.
    + rewrite Hinv. split; [lia|constructor].
    + destruct Hinv as (Hl & Hs). split; [lia|]. eapply Hshape; eauto.
    + destruct Hinv as (Hl & Hs). split; [lia|]. eapply Hshape; eauto.
    + destruct Hinv as (Hl & Hs). split; [lia|]. eapply Hshape; eauto.
    + split; [lia|]. eapply Hshape; eauto.
    + split; [lia|]. eapply Hshape; eauto.
    + split; [lia|]. eapply Hshape; eauto.
Qed.

(** ** C5 *)

Lemma full_concat_length (mids : list (list record)) :
  Forall full mids -> List.length (List.concat mids) = (10 * List.length mids)%nat.
Proof.
  induction 1 as [|b mids Hb _ IH]; [reflexivity|].
  cbn [List.concat List.length]. rewrite length_app, IH. unfold full in Hb. lia.
Qed.

(** C5. In a run that returns, the records handed to [_db_insert] are, in
    order, the datasets that were streamed. If 23 were streamed there are
    exactly three calls, of 10, 10 and 3 records. If the number streamed
    is a multiple of ten every call has ten records and there are a tenth
    as many calls: no final flush follows; the step after the loop does
    nothing on an empty buffer. *)
Theorem flushes_of_a_completed_run (a : args) (w : world) :
  fst (upload a w) = Returned ->
  exists added,
    w_trace (snd (upload a w)) = w_trace w ++ added /\
    map horreum_datasetid (List.concat (inserts added)) = streamed added /\
    (List.length (streamed added) = 23%nat ->
     exists b1 b2 b3,
       inserts added = [b1; b2; b3] /\
       List.length b1 = 10%nat /\ List.length b2 = 10%nat /\ List.length b3 = 3%nat) /\
    ((List.length (streamed added) mod 10 = 0)%nat ->
     Forall full (inserts added) /\
     List.length (inserts added) = (List.length (streamed added) / 10)%nat) /\
    (forall w', upload_step a (FinalFlush []) w' = (Close, w')).
Proof.
  intros Hret.
  destruct (upload_steps_preserve a
              (fun pc added _ =>
                 pipeline_invariant pc (inserts added) /\ stream_invariant pc added) w)
    with (n := upload_bound a) (pc := Init) (added := @nil event) (w := w)
    as (added & Ht & Hpipe & Hstream).
  - intros pc added w1 Ht (Hp & Hs).
    destruct (pipeline_step a w pc added w1 Ht Hp) as (ad1 & T1 & P1).
    destruct (stream_step a w pc added w1 Ht Hs) as (ad2 & T2 & P2).
    assert (ad1 = ad2) by (rewrite T1 in T2; now apply app_inv_head in T2).
    subst ad2. eauto.
  - now rewrite app_nil_r.
  - cbn. auto.
  - fold (upload a w) in Ht, Hpipe, Hstream. rewrite Hret in Hpipe, Hstream.
    cbn in Hpipe, Hstream.
    exists added. split; [exact Ht|]. split; [exact Hstream|].
    assert (Hlen : List.length (streamed added)
                   = List.length (List.concat (inserts added)))
      by (now rewrite <- Hstream, length_map).
    destruct Hpipe as (mids & final & Hins & Hm & Hf).
    rewrite Hins, concat_app, length_app, (full_concat_length mids Hm) in Hlen.
    split; [|split].
    + intros H23. rewrite H23 in Hlen.
      destruct Hf as [-> | (_ & b & -> & Hb)];
        cbn [List.concat List.length] in Hlen; [lia|].
      unfold partial in Hb. rewrite app_nil_r in Hlen.
      destruct mids as [|b1 [|b2 [|b3 mids]]]; cbn [List.length] in Hlen; try lia.
      pose proof (Forall_inv Hm) as H1.
      pose proof (Forall_inv (Forall_inv_tail Hm)) as H2.
      exists b1, b2, b. rewrite Hins. unfold full in *. repeat split; auto; lia.
    + intros Hmod. rewrite Hlen in Hmod.
      destruct Hf as [-> | (_ & b & -> & Hb)].
      * rewrite Hins, app_nil_r. split; [exact Hm|].
        rewrite Hlen. cbn [List.concat List.length].
        rewrite Nat.add_0_r, Nat.mul_comm, Nat.div_mul; lia.
      * exfalso. unfold partial in Hb. cbn [List.concat List.length] in Hmod.
        rewrite app_nil_r in Hmod.
        rewrite Nat.add_comm, Nat.mul_comm, Nat.Div0.mod_add in Hmod.
        rewrite Nat.mod_small in Hmod; lia.
    + reflexivity.
Qed.

Lemma flushes_of_a_completed_run_witness :
  fst (upload (mkArgs 7 100 1 10) (fresh_world twenty_three None 1)) = Returned /\
  exists added,
    w_trace (snd (upload (mkArgs 7 100 1 10) (fresh_world twenty_three None 1)))
      = w_trace (fresh_world twenty_three None 1) ++ added /\
    List.length (streamed added) = 23%nat /\
    map (@List.length record) (inserts added) = [10; 10; 3]%nat.
Proof.
  split; [vm_compute; reflexivity|].
  destruct (flushes_of_a_completed_run (mkArgs 7 100 1 10)
              (fresh_world twenty_three None 1))
    as (added & Ht & Hs & H23 & _); [vm_compute; reflexivity|].
  exists added. split; [exact Ht|].
  assert (Hadd : added
                 = w_trace (snd (upload (mkArgs 7 100 1 10)
                                        (fresh_world twenty_three None 1)))).
  { rewrite Ht. reflexivity. }
  assert (Hl : List.length (streamed added) = 23%nat)
    by (rewrite Hadd; vm_compute; reflexivity).
  split; [exact Hl|].
  destruct (H23 Hl) as (b1 & b2 & b3 & -> & L1 & L2 & L3).
  cbn [map]. now rewrite L1, L2, L3.
Defined.

(* ===================================================================== *)
(** * Unique keys along a run                                             *)
(* ===================================================================== *)

Section UniqueKeys.

Lemma preserves_ret {A} (x : A) : preserves (ret x).
Proof. intros w H. exact H. Qed.

Lemma preserves_raise {A} e : preserves (@raise A e).
Proof. intros w H. exact H. Qed.

Lemma preserves_bind {A B} (m : M A) (f : A -> M B) :
  preserves m -> (forall x, preserves (f x)) -> preserves (bind m f).
Proof.
  intros Hm Hf w Hw. unfold bind. specialize (Hm w Hw).
  destruct (m w) as [[x|e] w1]; cbn [snd] in *; [now apply Hf|exact Hm].
Qed.

Lemma preserves_db_round_trip : preserves db_round_trip.
Proof.
  intros w H. unfold db_round_trip.
  destruct (w_db_fault w (w_db_ops w)); exact H.
Qed.

Lemma preserves_connect : preserves psycopg2_connect.
Proof.
  unfold psycopg2_connect. apply preserves_bind; [apply preserves_db_round_trip|].
  intros _ w (H & _). split; exact H.
Qed.

Lemma preserves_cursor : preserves conn_cursor.
Proof. intros w H. unfold conn_cursor. destruct (w_conn_open w); exact H. Qed.

Lemma preserves_execute {A} (s : statement A) :
  (forall tz v seq x v' seq',
      s tz v seq = (Ok (x, v'), seq') -> unique_keys v -> unique_keys v') ->
  preserves (cur_execute s).
Proof.
  intros Hs w (Hd & Hv). unfold cur_execute, db_round_trip.
  destruct (w_db_fault w (w_db_ops w)); cbn; [split; exact Hd|].
  unfold tables_unique, current_view in *.
  destruct (w_txn w) as [|v|] eqn:Et; cbn in *; rewrite ?Et;
    try (split; assumption);
    match goal with
    | |- context [s ?z ?v ?q] => destruct (s z v q) as [[[x v']|e] q'] eqn:E
    end;
    cbn; split; eauto.
Qed.

Lemma preserves_commit : preserves conn_commit.
Proof.
  intros w (Hd & Hv). unfold conn_commit, db_round_trip.
  destruct (w_conn_open w); cbn; [|split; assumption].
  destruct (w_db_fault w (w_db_ops w)); cbn; [split; exact Hd|].
  unfold tables_unique, current_view in *.
  destruct (w_txn w); cbn in *; split; assumption.
Qed.

Lemma preserves_close : preserves conn_close.
Proof. intros w (Hd & _). split; exact Hd. Qed.

Lemma preserves_execute_pages pages : preserves (execute_pages pages).
Proof.
  induction pages as [|p ps IH]; cbn [execute_pages].
  - apply preserves_ret.
  - apply preserves_bind; [|intros _; exact IH].
    apply preserves_execute. intros tz v seq [] v' seq'. apply inserts_unique.
Qed.

Lemma preserves_db_insert d : preserves (_db_insert d).
Proof.
  unfold _db_insert. apply preserves_bind; [intros w H; exact H|]. intros _.
  apply preserves_bind; [apply preserves_cursor|]. intros _.
  apply preserves_bind; [apply preserves_execute_pages|]. intros _.
  apply preserves_commit.
Qed.

Lemma preserves_table_init : preserves _db_table_init.
Proof.
  unfold _db_table_init. apply preserves_bind; [apply preserves_cursor|]. intros _.
  apply preserves_bind.
  - apply preserves_execute. intros tz v seq x v' seq' [= _ <- _]. auto.
  - intros b. destruct b; cbn [negb]; [apply preserves_ret|].
    apply preserves_bind; [|intros _; apply preserves_commit].
    apply preserves_execute. intros tz v seq x v' seq'. unfold create_table.
    destruct v; [discriminate|]. intros [= _ <- _] _. cbn. constructor.
Qed.

Lemma preserves_gen_next t c l g : preserves (gen_next t c l g).
Proof.
  intros w H. destruct (gen_next_world t c l g w) as [-> | (cn & p & ->)].
  - exact H.
  - rewrite request_page_spec. exact H.
Qed.

Lemma preserves_labelvalues i : preserves (_horreum_labelvalues i).
Proof. intros w H. rewrite _horreum_labelvalues_world. exact H. Qed.

Lemma preserves_upload_code a pc : preserves (upload_code a pc).
Proof.
  destruct pc as [|g d|g d|d| | |e]; cbn [upload_code].
  - apply preserves_bind; [apply preserves_ret|]. intros _.
    apply preserves_bind; [apply preserves_connect|]. intros _.
    apply preserves_bind; [apply preserves_table_init|]. intros _.
    apply preserves_ret.
  - apply preserves_bind; [apply preserves_gen_next|]. intros [[ds|] g'].
    + apply preserves_bind; [apply preserves_labelvalues|]. intros lv.
      apply preserves_bind; [|intros; apply preserves_ret].
      unfold of_option. destruct (when_of_start _);
        [apply preserves_ret|apply preserves_raise].
    + apply preserves_ret.
  - destruct (10 <=? List.length d)%nat; [|apply preserves_ret].
    apply preserves_bind; [apply preserves_db_insert|]. intros; apply preserves_ret.
  - destruct (0 <? List.length d)%nat; [|apply preserves_ret].
    apply preserves_bind; [apply preserves_db_insert|]. intros; apply preserves_ret.
  - apply preserves_bind; [apply preserves_close|]. intros; apply preserves_ret.
  - apply preserves_ret.
  - apply preserves_ret.
Qed.

Lemma upload_steps_unique a n : forall pc w,
  tables_unique w -> tables_unique (snd (upload_steps n a pc w)).
Proof.
  induction n as [|n IH]; intros pc w H; cbn [upload_steps]; [exact H|].
  pose proof (preserves_upload_code a pc w H) as H1.
  unfold upload_step.
  destruct (upload_code a pc w) as [[pc'|e] w1]; cbn [snd] in H1; now apply IH.
Qed.

Lemma upload_unique a w : tables_unique w -> tables_unique (snd (upload a w)).
Proof. apply upload_steps_unique. Qed.

End UniqueKeys.

(** ** C3 *)



(* ===================================================================== *)
(** * More on the generator                                               *)
(* ===================================================================== *)

(** X1. The listing always ends, whatever the service answers: a consumer
    that calls [next] more than [max count 1] times reaches the end (an
    exhausted or failed sequence), with at most [max count 1] items. *)
Theorem listing_always_ends (a : args) (w : world) (n : nat) :
  (Z.to_nat (Z.max (horreum_count a) 1) < n)%nat ->
  snd (fst (consume n (horreum_test_id a) (horreum_count a) (horreum_limit a)
                    (_horreum_datasets a) w)) <> Pending /\
  (List.length
     (fst (fst (consume n (horreum_test_id a) (horreum_count a) (horreum_limit a)
                        (_horreum_datasets a) w)))
   <= Z.to_nat (Z.max (horreum_count a) 1))%nat.
Proof.
  intros Hn.
  destruct (consume_bounded (horreum_test_id a) (horreum_count a) (horreum_limit a)
              n (_horreum_datasets a) w) as [Hlen Hend].
  split; [apply Hend; exact Hn|exact Hlen].
Qed.

Lemma listing_always_ends_witness :
  snd (fst (consume 4 7 3 10 (_horreum_datasets (mkArgs 7 3 1 10))
                    (fresh_world three_pages None 1))) <> Pending /\
  (List.length
     (fst (fst (consume 4 7 3 10 (_horreum_datasets (mkArgs 7 3 1 10))
                        (fresh_world three_pages None 1)))) <= 3)%nat.
Proof.
  apply (listing_always_ends (mkArgs 7 3 1 10) (fresh_world three_pages None 1) 4).
  cbn. lia.
Defined.

Section GeneratorPages.

Variables test_id count limit : Z.

(** One call of [next]: it sends no request, or it asks for the page the
    generator stands before; after a yield the generator stands before
    the page after the last one it asked for. *)
Lemma gen_next_page g w :
  (snd (gen_next test_id count limit g w) = w /\
   (fst (gen_next test_id count limit g w) = Ok (None, GenFinished) \/
    exists ds g', fst (gen_next test_id count limit g w) = Ok (Some ds, g') /\
                  next_page g' = next_page g)) \/
  (snd (gen_next test_id count limit g w)
     = after_page_request test_id (next_page g) limit w /\
   ((exists e, fst (gen_next test_id count limit g w) = Raise e) \/
    fst (gen_next test_id count limit g w) = Ok (None, GenFinished) \/
    exists ds g', fst (gen_next test_id count limit g w) = Ok (Some ds, g') /\
                  next_page g' = next_page g + 1)).
Proof.
  assert (Hreq : forall counter page,
             snd (request_page test_id limit counter page w)
               = after_page_request test_id page limit w /\
             ((exists e, fst (request_page test_id limit counter page w) = Raise e) \/
              fst (request_page test_id limit counter page w) = Ok (None, GenFinished) \/
              exists ds g',
                fst (request_page test_id limit counter page w) = Ok (Some ds, g') /\
                next_page g' = page + 1)).
  { intros counter page. rewrite request_page_spec. split; [reflexivity|].
    cbn [fst].
    destruct (api_dataset_list _ _ _ _ _) as [r|]; [|left; eauto].
    destruct (is_error_status _); [left; eauto|].
    destruct (json_get_datasets r); [right; left; reflexivity|].
    right. right. eauto. }
  destruct g as [page|counter page datasets rest|]; cbn [gen_next next_page].
  - right. apply Hreq.
  - destruct (counter + 1 >=? count); [left; cbn; auto|].
    destruct rest as [|ds rest'].
    + destruct (List.length datasets =? 0)%nat; [left; cbn; auto|].
      right. apply Hreq.
    + left. cbn. split; [reflexivity|]. right. eauto.
  - left. cbn. auto.
Qed.

Lemma listing_requests_cons first k :
  listing_requests test_id limit first (S k)
    = EvGetDatasets test_id first limit
      :: listing_requests test_id limit (first + 1) k.
Proof.
  unfold listing_requests. cbn [seq map]. rewrite Z.add_0_r. f_equal.
  rewrite <- seq_shift, map_map. apply map_ext. intros i.
  f_equal. lia.
Qed.

Lemma consume_pages n : forall g w,
  exists k,
    w_trace (snd (consume n test_id count limit g w))
      = w_trace w ++ listing_requests test_id limit (next_page g) k /\
    (k <= List.length (fst (fst (consume n test_id count limit g w))) + 1)%nat.
Proof.
  induction n as [|n IH]; intros g w; cbn [consume].
  - exists 0%nat. cbn. rewrite app_nil_r. split; [reflexivity|lia].
  - destruct (gen_next_page g w) as [(Hw & H)|(Hw & H)];
      destruct (gen_next test_id count limit g w) as [[[[ds|] g']|e] w'];
      cbn [fst snd] in Hw, H; subst w'.
    + destruct H as [H|(ds0 & g0 & H & Hp)]; [discriminate|].
      injection H as <- <-.
      destruct (IH g' w) as (k & Ht & Hk).
      destruct (consume n test_id count limit g' w) as [[l en] w''].
      cbn [fst snd List.length] in *. exists k. rewrite Ht, Hp.
      split; [reflexivity|lia].
    + exists 0%nat. cbn. rewrite app_nil_r. split; [reflexivity|lia].
    + destruct H as [H|(ds0 & g0 & H & _)]; discriminate.
    + destruct H as [(e & H)|[H|(ds0 & g0 & H & Hp)]]; try discriminate.
      injection H as <- <-.
      destruct (IH g' (after_page_request test_id (next_page g) limit w))
        as (k & Ht & Hk).
      destruct (consume n test_id count limit g' _) as [[l en] w''].
      cbn [fst snd List.length] in *. exists (S k).
      rewrite Ht, Hp, listing_requests_cons. cbn [after_page_request log w_trace].
      rewrite <- app_assoc. split; [reflexivity|lia].
    + exists 1%nat. cbn. rewrite Z.add_0_r. split; [reflexivity|lia].
    + exists 1%nat. cbn. rewrite Z.add_0_r. split; [reflexivity|lia].
Qed.

End GeneratorPages.

(** X2. The generator asks for consecutive pages from the starting page
    on, always with the same test id and limit, and it sends nothing else;
    it never asks for more than one page beyond the items it has yielded
    (each request but the last brings at least one item). *)
Theorem pages_are_requested_in_sequence (a : args) (w : world) (n : nat) :
  exists k,
    w_trace (snd (consume n (horreum_test_id a) (horreum_count a) (horreum_limit a)
                          (_horreum_datasets a) w))
      = w_trace w
        ++ listing_requests (horreum_test_id a) (horreum_limit a) (horreum_page a) k /\
    (k <= List.length
            (fst (fst (consume n (horreum_test_id a) (horreum_count a)
                               (horreum_limit a) (_horreum_datasets a) w))) + 1)%nat.
Proof.
  apply (consume_pages (horreum_test_id a) (horreum_count a) (horreum_limit a)
           n (_horreum_datasets a) w).
Qed.

Section PagedListing.

Variables (pages : list (list dataset)) (labels : list (string * json)).
Variables test_id count limit : Z.
Hypothesis pages_nonempty : Forall (fun p => p <> []) pages.

Lemma skipn_nth {A} (l : list A) (d : A) : forall k,
  (k < List.length l)%nat -> skipn k l = nth k l d :: skipn (S k) l.
Proof.
  induction l as [|x l IH]; intros k Hk; cbn [List.length] in Hk; [lia|].
  destruct k as [|k]; [reflexivity|]. cbn [skipn nth]. apply IH. lia.
Qed.

(** Past the last page the service answers with an empty page. *)
Lemma page_empty_is_past_end k :
  nth k pages [] = [] -> skipn k pages = [].
Proof.
  intros Hn. destruct (Nat.lt_ge_cases k (List.length pages)) as [Hlt|Hge].
  - exfalso. rewrite Forall_forall in pages_nonempty.
    apply (pages_nonempty (nth k pages [])); [now apply nth_In|exact Hn].
  - now apply skipn_all2.
Qed.

Lemma request_page_paged counter page w :
  w_horreum w = paged_service pages labels ->
  request_page test_id limit counter page w
    = (match nth (Z.to_nat (page - 1)) pages [] with
       | ds :: rest =>
           Ok (Some ds, GenSuspended counter page
                          (nth (Z.to_nat (page - 1)) pages []) rest)
       | [] => Ok (None, GenFinished)
       end,
       after_page_request test_id page limit w).
Proof.
  intros Hw. rewrite request_page_spec, Hw. cbn.
  unfold json_get_datasets. cbn. reflexivity.
Qed.

(** From a suspended generator: what is left of the current page, then
    the pages after it, cut at what [count] still allows. *)
Lemma consume_suspended n : forall counter page datasets rest w,
  w_horreum w = paged_service pages labels ->
  datasets <> [] -> 1 <= page ->
  (gen_left count (GenSuspended counter page datasets rest) < n)%nat ->
  fst (consume n test_id count limit (GenSuspended counter page datasets rest) w)
    = (firstn (Z.to_nat (count - counter - 1))
              (rest ++ List.concat (skipn (Z.to_nat page) pages)),
       Exhausted).
Proof.
  induction n as [|n IH]; intros counter page datasets rest w Hw Hd Hp Hn;
    [lia|].
  cbn [gen_left] in Hn. cbn [consume gen_next].
  destruct (counter + 1 >=? count) eqn:E.
  - rewrite Z.geb_leb in E. apply Z.leb_le in E.
    replace (Z.to_nat (count - counter - 1)) with 0%nat by lia. reflexivity.
  - rewrite Z.geb_leb in E. apply Z.leb_gt in E.
    replace (Z.to_nat (count - counter - 1))
      with (S (Z.to_nat (count - (counter + 1) - 1))) by lia.
    destruct rest as [|ds rest'].
    + destruct datasets as [|d0 datasets']; [congruence|].
      cbn [List.length Nat.eqb app].
      rewrite (request_page_paged _ _ _ Hw).
      replace (page + 1 - 1) with page by lia.
      destruct (nth (Z.to_nat page) pages []) as [|ds rest'] eqn:En.
      * rewrite (page_empty_is_past_end _ En). reflexivity.
      * assert (Hlt : (Z.to_nat page < List.length pages)%nat).
        { destruct (Nat.lt_ge_cases (Z.to_nat page) (List.length pages)) as [H|H];
            [exact H|]. rewrite nth_overflow in En by exact H. discriminate. }
        rewrite (skipn_nth pages [] _ Hlt), En. cbn [List.concat].
        specialize (IH (counter + 1) (page + 1) (ds :: rest') rest'
                       (after_page_request test_id (page + 1) limit w)).
        destruct (consume n test_id count limit _ _) as [[l en] w''].
        cbn [fst] in IH |- *.
        replace (Z.to_nat (page + 1)) with (S (Z.to_nat page)) in IH by lia.
        cbn [app firstn].
        injection (IH Hw ltac:(discriminate) ltac:(lia) ltac:(cbn [gen_left]; lia))
          as -> ->.
        reflexivity.
    + unfold ret.
      specialize (IH (counter + 1) page datasets rest' w Hw Hd Hp).
      destruct (consume n test_id count limit _ _) as [[l en] w''].
      cbn [fst] in IH |- *. cbn [app firstn].
      injection (IH ltac:(cbn [gen_left]; lia)) as -> ->.
      reflexivity.
Qed.

Lemma consume_created n page w :
  w_horreum w = paged_service pages labels ->
  1 <= page ->
  (gen_left count (GenCreated page) < n)%nat ->
  fst (consume n test_id count limit (GenCreated page) w)
    = (firstn (Z.to_nat (Z.max count 1))
              (List.concat (skipn (Z.to_nat (page - 1)) pages)),
       Exhausted).
Proof.
  intros Hw Hp Hn. destruct n as [|n]; [lia|].
  cbn [gen_left] in Hn. cbn [consume gen_next].
  rewrite (request_page_paged _ _ _ Hw).
  destruct (nth (Z.to_nat (page - 1)) pages []) as [|ds rest] eqn:En.
  - rewrite (page_empty_is_past_end _ En). cbn [List.concat].
    now rewrite firstn_nil.
  - assert (Hlt : (Z.to_nat (page - 1) < List.length pages)%nat).
    { destruct (Nat.lt_ge_cases (Z.to_nat (page - 1)) (List.length pages)) as [H|H];
        [exact H|]. rewrite nth_overflow in En by exact H. discriminate. }
    rewrite (skipn_nth pages [] _ Hlt), En. cbn [List.concat].
    pose proof (consume_suspended n 0 page (ds :: rest) rest
                  (after_page_request test_id page limit w) Hw
                  ltac:(discriminate) Hp ltac:(cbn [gen_left]; lia)) as H.
    destruct (consume n test_id count limit _ _) as [[l en] w''].
    cbn [fst] in H |- *. injection H as -> ->.
    replace (Z.to_nat (Z.max count 1)) with (S (Z.to_nat (count - 0 - 1))) by lia.
    replace (S (Z.to_nat (page - 1))) with (Z.to_nat page) by lia.
    reflexivity.
Qed.

End PagedListing.

(** X3. Against a service that serves fixed, non-empty pages (and empty
    pages after the last), the generator started on page [p >= 1] yields,
    in order, the datasets of the pages from [p] on, cut after
    [max count 1] of them, and then ends without error. *)
Theorem listing_of_paged_service
    (pages : list (list dataset)) (labels : list (string * json))
    (a : args) (w : world) (n : nat) :
  Forall (fun p => p <> []) pages ->
  w_horreum w = paged_service pages labels ->
  1 <= horreum_page a ->
  (Z.to_nat (Z.max (horreum_count a) 1) < n)%nat ->
  fst (consume n (horreum_test_id a) (horreum_count a) (horreum_limit a)
               (_horreum_datasets a) w)
    = (firstn (Z.to_nat (Z.max (horreum_count a) 1))
              (List.concat (skipn (Z.to_nat (horreum_page a - 1)) pages)),
       Exhausted).
Proof.
  intros Hne Hw Hp Hn. now apply (consume_created pages labels).
Qed.

Lemma listing_of_paged_service_witness :
  fst (consume 13 7 12 10 (_horreum_datasets (mkArgs 7 12 2 10))
               (fresh_world three_pages None 1))
    = (sample_page 11 12, Exhausted).
Proof.
  apply (listing_of_paged_service
           [sample_page 1 10; sample_page 11 10; sample_page 21 10] sample_labels
           (mkArgs 7 12 2 10) (fresh_world three_pages None 1) 13).
  - repeat constructor; discriminate.
  - reflexivity.
  - cbn. lia.
  - cbn. lia.
Defined.

(* ===================================================================== *)
(** * The label dict                                                      *)
(* ===================================================================== *)

Section LabelDict.

Lemma dict_set_keys d k v :
  map fst (dict_set d k v)
    = if existsb (String.eqb k) (map fst d) then map fst d else map fst d ++ [k].
Proof.
  induction d as [|[k' v'] d IH]; cbn [dict_set map fst existsb]; [reflexivity|].
  rewrite (String.eqb_sym k k').
  destruct (String.eqb k' k) eqn:E; cbn [map fst orb]; [reflexivity|].
  rewrite IH. destruct (existsb (String.eqb k) (map fst d)); reflexivity.
Qed.

Lemma dict_set_nodup d k v : NoDup (map fst d) -> NoDup (map fst (dict_set d k v)).
Proof.
  intros Hd. rewrite dict_set_keys.
  destruct (existsb (String.eqb k) (map fst d)) eqn:E; [exact Hd|].
  apply NoDup_snoc; [exact Hd|]. intros Hin.
  assert (existsb (String.eqb k) (map fst d) = true); [|congruence].
  apply existsb_exists. exists k. split; [exact Hin|apply String.eqb_refl].
Qed.

Lemma dict_get_set d k v k' :
  dict_get (dict_set d k v) k' = if String.eqb k k' then Some v else dict_get d k'.
Proof.
  unfold dict_get.
  induction d as [|[k0 v0] d IH]; cbn [dict_set find fst snd].
  - destruct (String.eqb k k'); reflexivity.
  - destruct (String.eqb k0 k) eqn:E; cbn [find fst snd].
    + apply String.eqb_eq in E. subst k0.
      destruct (String.eqb k k'); reflexivity.
    + destruct (String.eqb k0 k') eqn:E'; [|exact IH].
      apply String.eqb_eq in E'. subst k0.
      rewrite (String.eqb_sym k k'), E. reflexivity.
Qed.

Lemma dict_of_items_snoc items k v :
  dict_of_items (items ++ [(k, v)]) = dict_set (dict_of_items items) k v.
Proof. unfold dict_of_items. now rewrite fold_left_app. Qed.

Lemma dict_of_items_nodup items : NoDup (map fst (dict_of_items items)).
Proof.
  induction items as [|[k v] items IH] using rev_ind; [constructor|].
  rewrite dict_of_items_snoc. now apply dict_set_nodup.
Qed.

Lemma dict_of_items_get items k :
  dict_get (dict_of_items items) k = last_named k items.
Proof.
  unfold last_named.
  induction items as [|[k0 v0] items IH] using rev_ind; [reflexivity|].
  rewrite dict_of_items_snoc, dict_get_set, rev_app_distr. cbn [rev app find fst].
  destruct (String.eqb k0 k); [reflexivity|exact IH].
Qed.

Lemma dict_of_items_distinct items :
  NoDup (map fst items) -> dict_of_items items = items.
Proof.
  induction items as [|[k v] items IH] using rev_ind; intros Hnd; [reflexivity|].
  rewrite map_app in Hnd. cbn [map fst] in Hnd.
  assert (Hnd' : NoDup (map fst items)) by (eapply NoDup_app_remove_r; exact Hnd).
  assert (Hk : ~ In k (map fst items)).
  { intros Hin. apply NoDup_remove_2 in Hnd. rewrite app_nil_r in Hnd. auto. }
  rewrite dict_of_items_snoc, (IH Hnd'). clear IH Hnd Hnd'.
  induction items as [|[k1 v1] items IH]; [reflexivity|].
  cbn [dict_set]. cbn [map fst In] in Hk.
  destruct (String.eqb k1 k) eqn:E.
  - apply String.eqb_eq in E. tauto.
  - cbn [app]. f_equal. apply IH. tauto.
Qed.

End LabelDict.

(** X4. On a response that [raise_for_status] accepts,
    [_horreum_labelvalues] returns, after that single request, a dict with
    one entry per label name, in which every name carries the value of the
    last item of the response with that name (last write wins), and no
    other name carries anything. *)
Theorem labelvalues_last_write_wins
    (dataset_id : Z) (w : world) (resp : response (list (string * json))) :
  api_labelValues (w_horreum w) (w_requests w) dataset_id = Some resp ->
  is_error_status (status_code resp) = false ->
  exists d,
    _horreum_labelvalues dataset_id w = (Ok d, after_label_request dataset_id w) /\
    NoDup (map fst d) /\
    (forall k, dict_get d k = last_named k (body resp)) /\
    (forall k, In k (map fst d) <-> In k (map fst (body resp))).
Proof.
  intros Hapi Hok. exists (dict_of_items (body resp)). split; [|split; [|split]].
  - unfold _horreum_labelvalues, bind, requests_get_labelValues, raise_for_status.
    rewrite Hapi, Hok. reflexivity.
  - apply dict_of_items_nodup.
  - apply dict_of_items_get.
  - intros k. generalize (body resp). intros items.
    induction items as [|[k0 v0] items IH] using rev_ind; [reflexivity|].
    rewrite dict_of_items_snoc, dict_set_keys, map_app, in_app_iff.
    cbn [map fst In].
    destruct (existsb (String.eqb k0) (map fst (dict_of_items items))) eqn:E.
    + rewrite IH. split; [tauto|]. intros [H|[<-|[]]]; [exact H|].
      apply IH. apply existsb_exists in E as (x & Hx & He).
      apply String.eqb_eq in He. now subst x.
    + rewrite in_app_iff, IH. cbn [In]. tauto.
Qed.

Lemma labelvalues_last_write_wins_witness :
  exists d,
    _horreum_labelvalues 1
      (fresh_world (paged_service []
                      [("a"%string, JInt 1); ("b"%string, JInt 2); ("a"%string, JInt 3)])
                   None 1)
      = (Ok d,
         after_label_request 1
           (fresh_world (paged_service []
                           [("a"%string, JInt 1); ("b"%string, JInt 2);
                            ("a"%string, JInt 3)])
                        None 1)) /\
    dict_get d "a"%string = Some (JInt 3) /\
    dict_get d "b"%string = Some (JInt 2) /\
    dict_get d "c"%string = None.
Proof.
  destruct (labelvalues_last_write_wins 1
              (fresh_world (paged_service []
                              [("a"%string, JInt 1); ("b"%string, JInt 2);
                               ("a"%string, JInt 3)])
                           None 1)
              (mkResponse 200
                 [("a"%string, JInt 1); ("b"%string, JInt 2); ("a"%string, JInt 3)])
              eq_refl eq_refl)
    as (d & Hrun & _ & Hget & _).
  exists d. split; [exact Hrun|]. rewrite !Hget. repeat split.
Defined.

(** X5. When the label names of the response are pairwise distinct, the
    dict [_horreum_labelvalues] returns is the response itself: the same
    names and values in the same order. *)
Theorem labelvalues_of_distinct_names
    (dataset_id : Z) (w : world) (resp : response (list (string * json))) :
  api_labelValues (w_horreum w) (w_requests w) dataset_id = Some resp ->
  is_error_status (status_code resp) = false ->
  NoDup (map fst (body resp)) ->
  _horreum_labelvalues dataset_id w = (Ok (body resp), after_label_request dataset_id w).
Proof.
  intros Hapi Hok Hnd.
  unfold _horreum_labelvalues, bind, requests_get_labelValues, raise_for_status.
  rewrite Hapi, Hok. cbn. unfold ret. now rewrite dict_of_items_distinct.
Qed.

Lemma labelvalues_of_distinct_names_witness :
  _horreum_labelvalues 1 (fresh_world three_pages None 1)
    = (Ok sample_labels, after_label_request 1 (fresh_world three_pages None 1)).
Proof.
  apply (labelvalues_of_distinct_names 1 (fresh_world three_pages None 1)
           (mkResponse 200 sample_labels) eq_refl eq_refl).
  repeat constructor; cbn; intuition discriminate.
Defined.

(* ===================================================================== *)
(** * The table: initialisation and first write                            *)
(* ===================================================================== *)

Section TableInit.

(** On an open connection to a server that answers, the table
    initialisation returns and leaves the connection ready: the table the
    connection saw is untouched, a missing one is created and committed. *)
Lemma _db_table_init_ready w :
  w_conn_open w = true -> w_txn w <> TxnAborted ->
  (forall n, w_db_fault w n = false) ->
  exists w',
    _db_table_init w = (Ok tt, w') /\
    w_conn_open w' = true /\ w_txn w' <> TxnAborted /\
    (forall n, w_db_fault w' n = false) /\
    w_horreum w' = w_horreum w /\
    match current_view w with
    | Some rows =>
        w_db_data w' = w_db_data w /\ current_view w' = Some rows /\
        w_trace w' = w_trace w
    | None =>
        w_db_data w' = Some [] /\ current_view w' = Some [] /\
        w_trace w' = w_trace w ++ [EvCommit]
    end.
Proof.
  intros Ho Ht Hf.
  unfold _db_table_init, bind, conn_cursor, cur_execute, conn_commit,
    db_round_trip, current_view.
  rewrite Ho, Hf. cbn.
  destruct (w_txn w) as [|v|] eqn:Et; [| |congruence]; cbn.
  - destruct (w_db_data w) as [rows|] eqn:Ed; cbn.
    + eexists. split; [reflexivity|]. cbn. rewrite Ed.
      repeat split; auto; discriminate.
    + repeat (progress (rewrite ?Ho, ?Hf; cbn)).
      eexists. split; [reflexivity|]. cbn.
      repeat split; auto; discriminate.
  - destruct v as [rows|]; cbn.
    + eexists. split; [reflexivity|]. cbn.
      repeat split; auto; discriminate.
    + repeat (progress (rewrite ?Ho, ?Hf; cbn)).
      eexists. split; [reflexivity|]. cbn.
      repeat split; auto; discriminate.
Qed.

End TableInit.

(** X6. On an open connection to a server that answers,
    [_db_table_init] returns. If the connection sees a table it leaves it
    as it is and commits nothing; if it sees none it creates an empty one
    and commits once. A second call right after the first changes
    nothing. *)
Theorem table_init_creates_only_once (w : world) :
  w_conn_open w = true ->
  w_txn w <> TxnAborted ->
  (forall n, w_db_fault w n = false) ->
  exists w',
    _db_table_init w = (Ok tt, w') /\
    match current_view w with
    | Some rows =>
        w_db_data w' = w_db_data w /\ current_view w' = Some rows /\
        w_trace w' = w_trace w
    | None =>
        w_db_data w' = Some [] /\ current_view w' = Some [] /\
        w_trace w' = w_trace w ++ [EvCommit]
    end /\
    exists w'',
      _db_table_init w' = (Ok tt, w'') /\
      w_db_data w'' = w_db_data w' /\ w_trace w'' = w_trace w'.
Proof.
  intros Ho Ht Hf.
  destruct (_db_table_init_ready w Ho Ht Hf) as (w' & E1 & Ho' & Ht' & Hf' & _ & H1).
  exists w'. split; [exact E1|]. split; [exact H1|].
  destruct (_db_table_init_ready w' Ho' Ht' Hf') as (w'' & E2 & _ & _ & _ & _ & H2).
  exists w''. split; [exact E2|].
  assert (Hv : exists rows, current_view w' = Some rows)
    by (destruct (current_view w); [destruct H1 as (_ & -> & _)
                                   |destruct H1 as (_ & -> & _)]; eauto).
  destruct Hv as (rows & Hv). rewrite Hv in H2. tauto.
Qed.

Lemma table_init_creates_only_once_witness :
  exists w',
    _db_table_init (mkWorld three_pages 0 None 1 no_fault utc_zone 0 true TxnIdle [])
      = (Ok tt, w') /\
    w_db_data w' = Some [] /\ w_trace w' = [EvCommit].
Proof.
  destruct (table_init_creates_only_once
              (mkWorld three_pages 0 None 1 no_fault utc_zone 0 true TxnIdle []))
    as (w' & E & (Hd & _ & Ht) & _).
  - reflexivity.
  - discriminate.
  - reflexivity.
  - exists w'. auto.
Defined.

Section FirstWrite.

(** The INSERT of a record, when it goes through on a table without its
    key, appends the row of that record. *)
Lemma insert_row r tz rows seq v' seq' :
  insert_on_conflict_do_nothing (values_of r) tz (Some rows) seq
    = (Ok (tt, v'), seq') ->
  ~ In (record_key r) (map row_key rows) ->
  v' = Some (rows ++ [row_of tz seq r]).
Proof.
  unfold insert_on_conflict_do_nothing, values_of, row_of.
  destruct (is_integer _ && is_integer _ && is_integer _); [|discriminate].
  destruct (existsb _ rows) eqn:E.
  - intros _ Hk. exfalso. apply Hk. now apply existsb_key.
  - now intros [= <- _].
Qed.

Lemma rows_with_key_fresh k rows :
  ~ In k (map row_key rows) -> rows_with_key k rows = [].
Proof.
  intros Hk. apply filter_none. intros x Hx.
  destruct (key_eqb (row_key x) k) eqn:E; [|reflexivity].
  apply key_eqb_eq in E. exfalso. apply Hk. rewrite <- E. now apply in_map.
Qed.

(** In a batch that goes through, the first record with a key that the
    table did not have is the one that is stored. *)
Lemma first_record_stored tz d : forall rows seq v' seq' k r0,
  insert_all d tz (Some rows) seq = (Ok (tt, v'), seq') ->
  NoDup (map row_key rows) ->
  ~ In k (map row_key rows) ->
  first_record k d = Some r0 ->
  exists rows' id, v' = Some rows' /\ rows_with_key k rows' = [row_of tz id r0].
Proof.
  unfold insert_all, first_record.
  induction d as [|r d IH]; intros rows seq v' seq' k r0;
    cbn [map statements find]; [discriminate|].
  destruct (insert_on_conflict_do_nothing (values_of r) tz (Some rows) seq)
    as [[[[] v1]|e] seq1] eqn:E1; [|discriminate].
  intros Hrest Hnd Hk Hfirst.
  destruct (key_eqb (record_key r) k) eqn:Ek.
  - injection Hfirst as <-. apply key_eqb_eq in Ek. subst k.
    apply insert_row in E1; [|exact Hk]. subst v1.
    assert (Hnd1 : NoDup (map row_key (rows ++ [row_of tz seq r]))).
    { rewrite keys_snoc. apply NoDup_snoc; assumption. }
    destruct (inserts_ok _ _ _ _ _ _ Hrest Hnd1) as (new & -> & Hnd' & _).
    exists ((rows ++ [row_of tz seq r]) ++ new), seq. split; [reflexivity|].
    rewrite rows_with_key_app.
    + unfold rows_with_key. rewrite filter_app.
      fold (rows_with_key (record_key r) rows).
      rewrite (rows_with_key_fresh _ _ Hk). cbn [filter app].
      change (row_key (row_of tz seq r)) with (record_key r).
      now rewrite key_eqb_refl.
    + exact Hnd'.
    + rewrite keys_snoc. apply in_or_app. right. now left.
  - apply insert_ok in E1 as [[Hin ->]|[Hnin (x & -> & Hx)]].
    + eapply IH; eauto.
    + eapply (IH (rows ++ [x])); eauto.
      * rewrite keys_snoc. apply NoDup_snoc; [assumption|congruence].
      * rewrite keys_snoc. intros Hin. apply in_app_or in Hin as [Hin|[Hin|[]]];
          [contradiction|].
        rewrite Hx in Hin. change (values_key (values_of r)) with (record_key r) in Hin.
        rewrite Hin, key_eqb_refl in Ek. discriminate.
Qed.

End FirstWrite.

(** X7. When [_db_insert] returns, a key that the table did not hold
    before is stored exactly once, with the values of the first record of
    the batch that carries it: its ids, its start as the wall clock of the
    session's time zone at that instant, and its labels serialized. Later
    records with the same key, in the same batch, are skipped, not
    merged. *)
Theorem first_record_of_a_key_is_stored
    (d : list record) (w w' : world) (rows : list row) (k : key) (r0 : record) :
  current_view w = Some rows ->
  NoDup (map row_key rows) ->
  ~ In k (map row_key rows) ->
  first_record k d = Some r0 ->
  _db_insert d w = (Ok tt, w') ->
  exists rows' id,
    w_db_data w' = Some rows' /\
    rows_with_key k rows' = [row_of (w_db_timezone w) id r0].
Proof.
  intros Hv Hnd Hk Hfirst Hrun.
  apply _db_insert_ok in Hrun as (_ & (v' & Hins & Hdata) & _).
  rewrite Hv in Hins.
  destruct (first_record_stored _ _ _ _ _ _ _ _ Hins Hnd Hk Hfirst)
    as (rows' & id & -> & Hrow).
  exists rows', id. auto.
Qed.

Lemma first_record_of_a_key_is_stored_witness :
  exists rows' id,
    w_db_data (snd (_db_insert [sample_record 1; conflicting_record 1] eastern_world))
      = Some rows' /\
    rows_with_key (7, 101, 1) rows'
      = [mkRow id 7 101 1
               (epoch_microseconds (PyDatetime.mkDatetime 2023 11 14 17 13 20 0))
               (json_dumps [("throughput"%string, JInt 1200)])].
Proof.
  apply (first_record_of_a_key_is_stored
           [sample_record 1; conflicting_record 1] eastern_world
           (snd (_db_insert [sample_record 1; conflicting_record 1] eastern_world))
           [] (7, 101, 1) (sample_record 1)).
  - reflexivity.
  - constructor.
  - intros [].
  - reflexivity.
  - vm_compute. reflexivity.
Defined.

(* ===================================================================== *)
(** * What a run leaves in the table                                      *)
(* ===================================================================== *)

Section Storage.

Lemma grows_refl v : grows v v.
Proof. destruct v as [rows|]; cbn; [|exact I]. exists []. now rewrite app_nil_r. Qed.

Lemma grows_trans v1 v2 v3 : grows v1 v2 -> grows v2 v3 -> grows v1 v3.
Proof.
  destruct v1 as [r1|]; cbn; [|auto]. intros (n1 & ->). cbn. intros (n2 & ->).
  exists (n1 ++ n2). now rewrite app_assoc.
Qed.

Lemma grows_exists v1 v2 :
  (exists rows, v1 = Some rows) -> grows v1 v2 -> exists rows, v2 = Some rows.
Proof. intros (rows & ->) (new & ->). eauto. Qed.

(** A batch that went through only appended rows, and every record of it
    has its key in the table. *)
Lemma inserts_grow tz vals : forall rows seq v' seq',
  statements (map insert_on_conflict_do_nothing vals) tz (Some rows) seq
    = (Ok (tt, v'), seq') ->
  exists new,
    v' = Some (rows ++ new) /\
    (forall v, In v vals -> In (values_key v) (map row_key (rows ++ new))).
Proof.
  induction vals as [|v vals IH]; intros rows seq v' seq'; cbn [map statements].
  - intros [= <- <-]. exists []. rewrite app_nil_r. split; [reflexivity|intros ? []].
  - destruct (insert_on_conflict_do_nothing v tz (Some rows) seq)
      as [[[[] v1]|e] seq1] eqn:E1; [|discriminate].
    intros Hrest. apply insert_ok in E1 as [[Hin ->]|[Hnin (r & -> & Hr)]].
    + destruct (IH _ _ _ _ Hrest) as (new & -> & Hall).
      exists new. split; [reflexivity|].
      intros x [<-|Hx]; [|now apply Hall].
      rewrite map_app. apply in_or_app. now left.
    + destruct (IH _ _ _ _ Hrest) as (new & -> & Hall).
      exists (r :: new).
      replace (rows ++ r :: new) with ((rows ++ [r]) ++ new)
        by (now rewrite <- app_assoc).
      split; [reflexivity|].
      intros x [<-|Hx]; [|now apply Hall].
      rewrite map_app. apply in_or_app. left.
      rewrite keys_snoc. apply in_or_app. right. left. exact Hr.
Qed.

Variable a : args.

Lemma conn_commit_requests w :
  w_requests (snd (conn_commit w)) = w_requests w.
Proof.
  unfold conn_commit, db_round_trip.
  destruct (w_conn_open w); cbn [negb]; [|reflexivity].
  destruct (w_db_fault w (w_db_ops w)); [reflexivity|].
  cbn [snd log set_txn w_requests w_txn set_db_ops].
  destruct (w_txn w); reflexivity.
Qed.

Lemma _db_connect_db w :
  w_db_data (snd (_db_connect w)) = w_db_data w /\
  w_requests (snd (_db_connect w)) = w_requests w /\
  (forall u, fst (_db_connect w) = Ok u -> w_txn (snd (_db_connect w)) = TxnIdle).
Proof.
  unfold _db_connect, psycopg2_connect, bind, db_round_trip, modify.
  destruct (w_db_fault w (w_db_ops w)); cbn [fst snd]; repeat split; discriminate.
Qed.

(** The table initialisation on a connection without a transaction: no
    request is sent, the table only grows, and when it returns the table
    exists and the connection sees what is committed. *)
Lemma _db_table_init_db w :
  w_txn w = TxnIdle ->
  w_requests (snd (_db_table_init w)) = w_requests w /\
  grows (w_db_data w) (w_db_data (snd (_db_table_init w))) /\
  (fst (_db_table_init w) = Ok tt ->
   exists rows,
     w_db_data (snd (_db_table_init w)) = Some rows /\
     current_view (snd (_db_table_init w)) = Some rows).
Proof.
  intros Ht. unfold _db_table_init, bind, conn_cursor.
  destruct (w_conn_open w).
  2:{ cbn [fst snd]. split; [reflexivity|]. split; [apply grows_refl|discriminate]. }
  pose proof (cur_execute_quiet select_table_exists w) as Q1.
  destruct (cur_execute select_table_exists w) as [[b|e] w1] eqn:E1;
    cbn [snd] in Q1; destruct Q1 as (_ & _ & D1 & R1 & _).
  2:{ cbn [fst snd]. rewrite D1. split; [exact R1|].
      split; [apply grows_refl|discriminate]. }
  apply cur_execute_ok in E1 as (v1 & Hs1 & T1 & _).
  unfold select_table_exists, current_view in Hs1. rewrite Ht in Hs1.
  injection Hs1 as Hb Hv1 _.
  destruct (w_db_data w) as [rows|] eqn:Ed; subst b; cbn [negb].
  - cbn [fst snd ret]. unfold ret. cbn [fst snd]. rewrite D1.
    split; [exact R1|]. split; [exists []; now rewrite app_nil_r|].
    intros _. exists rows. unfold current_view. rewrite T1, <- Hv1. auto.
  - pose proof (cur_execute_quiet create_table w1) as Q2.
    destruct (cur_execute create_table w1) as [[u|e] w2] eqn:E2;
      cbn [snd] in Q2; destruct Q2 as (_ & _ & D2 & R2 & _).
    2:{ cbn [fst snd]. split; [congruence|]. split; [exact I|discriminate]. }
    apply cur_execute_ok in E2 as (v2 & Hs2 & T2 & _).
    unfold create_table, current_view in Hs2. rewrite T1, <- Hv1 in Hs2.
    injection Hs2 as _ Hv2 _.
    pose proof (conn_commit_requests w2) as R3.
    destruct (conn_commit w2) as [[[]|e] w3] eqn:E3; cbn [fst snd] in R3 |- *.
    + apply conn_commit_ok in E3 as (_ & D3 & T3 & _).
      split; [congruence|]. split; [exact I|]. intros _. exists [].
      unfold current_view in D3 |- *. rewrite T2, <- Hv2 in D3. rewrite T3. auto.
    + split; [congruence|]. split; [exact I|discriminate].
Qed.

(** The first step: no request is sent, the table only grows, and when
    the loop is entered the table exists and the connection sees what is
    committed. *)
Lemma step_init_db w :
  w_requests (snd (upload_step a Init w)) = w_requests w /\
  grows (w_db_data w) (w_db_data (snd (upload_step a Init w))) /\
  (forall g d, fst (upload_step a Init w) = ForNext g d ->
     exists rows,
       w_db_data (snd (upload_step a Init w)) = Some rows /\
       current_view (snd (upload_step a Init w)) = Some rows).
Proof.
  unfold upload_step. cbn [upload_code]. unfold bind, _setup, ret.
  destruct (_db_connect_db w) as (D1 & R1 & T1).
  destruct (_db_connect w) as [[u|e] w1]; cbn [fst snd] in D1, R1, T1 |- *.
  2:{ rewrite D1. split; [exact R1|]. split; [apply grows_refl|discriminate]. }
  destruct (_db_table_init_db w1 (T1 u eq_refl)) as (R2 & G2 & H2).
  destruct (_db_table_init w1) as [[[]|e] w2]; cbn [fst snd] in R2, G2, H2 |- *.
  - rewrite <- D1.
    split; [congruence|]. split; [exact G2|]. intros _ _ _. now apply H2.
  - rewrite <- D1. split; [congruence|]. split; [exact G2|discriminate].
Qed.

Lemma gen_next_db g w :
  w_db_data (snd (gen_next (horreum_test_id a) (horreum_count a) (horreum_limit a) g w))
    = w_db_data w /\
  current_view
    (snd (gen_next (horreum_test_id a) (horreum_count a) (horreum_limit a) g w))
    = current_view w.
Proof.
  destruct (gen_next_world (horreum_test_id a) (horreum_count a) (horreum_limit a) g w)
    as [-> | (c & p & ->)]; [auto|].
  rewrite request_page_spec. auto.
Qed.

Lemma step_for_db g d w :
  w_db_data (snd (upload_step a (ForNext g d) w)) = w_db_data w /\
  current_view (snd (upload_step a (ForNext g d) w)) = current_view w.
Proof.
  unfold upload_step. cbn [upload_code]. unfold bind.
  pose proof (gen_next_db g w) as Hg.
  destruct (gen_next _ _ _ g w) as [[[[ds|] g']|e] w1]; cbn [snd] in Hg |- *;
    [|exact Hg|exact Hg].
  pose proof (_horreum_labelvalues_world (ds_id ds) w1) as Hl.
  destruct (_horreum_labelvalues (ds_id ds) w1) as [[lv|e] w2]; cbn [snd] in Hl;
    subst w2.
  - unfold of_option. destruct (when_of_start (ds_start ds)); exact Hg.
  - exact Hg.
Qed.

(** A flush from a point where the connection sees the committed table
    [rows]: either the batch is in the table, after [rows], or the table
    is as it was. *)
Lemma insert_then_db d (next : upload_pc) w rows :
  w_db_data w = Some rows -> current_view w = Some rows ->
  match (_db_insert d ;; ret next) w with
  | (Ok pc', w') =>
      pc' = next /\
      exists new,
        w_db_data w' = Some (rows ++ new) /\
        current_view w' = Some (rows ++ new) /\
        (forall r, In r d -> In (record_key r) (map row_key (rows ++ new)))
  | (Raise _, w') => w_db_data w' = Some rows
  end.
Proof.
  intros Hd Hv. unfold bind.
  destruct (_db_insert d w) as [[[]|e] w'] eqn:E.
  - apply _db_insert_ok in E as (_ & (v' & Hins & Hdata) & Htx & _).
    unfold insert_all in Hins. rewrite Hv in Hins.
    apply inserts_grow in Hins as (new & -> & Hall).
    cbn. split; [reflexivity|]. exists new.
    unfold current_view. rewrite Htx. repeat split; auto.
    intros r Hr. apply (Hall (values_of r)). now apply in_map.
  - apply _db_insert_raise in E as (_ & Hdata & _). congruence.
Qed.

Variable w0 : world.

(** The invariant of the run that the three theorems below read. *)
Let stored (pc : upload_pc) (added : list event) (w : world) : Prop :=
  storage_invariant pc added w /\
  grows (w_db_data w0) (w_db_data w) /\
  (w_requests w = w_requests w0 \/ exists rows, w_db_data w = Some rows).

Lemma storage_step pc added w :
  w_trace w = w_trace w0 ++ added -> stored pc added w ->
  exists added',
    w_trace (snd (upload_step a pc w)) = w_trace w0 ++ added' /\
    stored (fst (upload_step a pc w)) added' (snd (upload_step a pc w)).
Proof.
  unfold stored. intros Ht (Hinv & Hg & Hq).
  destruct pc as [|g d|g d|d| | |e]; cbn [storage_invariant] in Hinv.
  - subst added. rewrite app_nil_r in Ht.
    destruct (step_init a w) as (ad & T & _ & Hi & _ & H).
    destruct (step_init_db w) as (Rq & Gr & Hloop).
    exists ad. split; [now rewrite T, Ht|].
    split; [|split].
    + destruct H as [(E & _)|(e & E & _)]; rewrite E; cbn; [|exact I].
      destruct (Hloop _ _ E) as (rows & Hd & Hv).
      exists rows. rewrite Hi. repeat split; auto. intros r [].
    + eapply grows_trans; eauto.
    + destruct Hq as [Hq|Hq]; [left; congruence|right].
      eapply grows_exists; eauto.
  - destruct Hinv as (rows & Hd & Hv & Hall).
    destruct (step_for a g d w) as (ad & T & _ & _ & Hi & _ & H).
    destruct (step_for_db g d w) as (Hd' & Hv').
    exists (added ++ ad). split; [rewrite T, Ht, <- app_assoc; reflexivity|].
    split; [|split].
    + destruct H as [(g' & r & -> & _)|[(-> & _)|(e & ->)]]; cbn; [| |exact I];
        exists rows; rewrite inserts_app, Hi, app_nil_r;
        repeat split; auto; congruence.
    + now rewrite Hd'.
    + right. exists rows. congruence.
  - destruct Hinv as (rows & Hd & Hv & Hall).
    destruct (step_flush a g d w) as [(_ & ->)|(Hlen & H)].
    { exists added. cbn. split; [exact Ht|]. split; [|split]; eauto. }
    pose proof (insert_then_db d (ForNext g []) w rows Hd Hv) as Hdb.
    assert (E : upload_step a (FlushTest g d) w
                = match (_db_insert d ;; ret (ForNext g [])) w with
                  | (Ok pc', w') => (pc', w')
                  | (Raise e, w') => (Raised e, w')
                  end).
    { unfold upload_step. cbn [upload_code].
      destruct (10 <=? List.length d)%nat eqn:E; [reflexivity|].
      apply Nat.leb_gt in E. lia. }
    destruct H as [(_ & T & _)|(e & _ & T & _)]; rewrite E in T |- *;
      destruct ((_db_insert d ;; ret (ForNext g [])) w) as [[pc'|e'] w'];
      cbn [fst snd] in *.
    + destruct Hdb as (-> & new & Hd' & Hv' & Hnew).
      exists (added ++ [EvInsert d; EvCommit]).
      split; [rewrite T, Ht, <- app_assoc; reflexivity|].
      split; [|split].
      * cbn. exists (rows ++ new). rewrite inserts_app. cbn.
        rewrite concat_app. cbn [List.concat]. rewrite app_nil_r.
        repeat split; auto.
        intros r Hr. apply in_app_or in Hr as [Hr|Hr]; [|now apply Hnew].
        rewrite map_app. apply in_or_app. left. now apply Hall.
      * eapply grows_trans; [exact Hg|]. rewrite Hd, Hd'. cbn. eauto.
      * right. eauto.
    + exists (added ++ [EvInsert d; EvCommit]).
      split; [rewrite T, Ht, <- app_assoc; reflexivity|].
      split; [exact I|]. split; [|right; eauto]. now rewrite Hdb, <- Hd.
    + destruct Hdb as (-> & new & Hd' & Hv' & Hnew).
      exists (added ++ [EvInsert d]).
      split; [rewrite T, Ht, <- app_assoc; reflexivity|].
      split; [|split].
      * cbn. exists (rows ++ new). rewrite inserts_app. cbn.
        rewrite concat_app. cbn [List.concat]. rewrite app_nil_r.
        repeat split; auto.
        intros r Hr. apply in_app_or in Hr as [Hr|Hr]; [|now apply Hnew].
        rewrite map_app. apply in_or_app. left. now apply Hall.
      * eapply grows_trans; [exact Hg|]. rewrite Hd, Hd'. cbn. eauto.
      * right. eauto.
    + exists (added ++ [EvInsert d]).
      split; [rewrite T, Ht, <- app_assoc; reflexivity|].
      split; [exact I|]. split; [|right; eauto]. now rewrite Hdb, <- Hd.
  - destruct Hinv as (rows & Hd & Hv & Hall).
    destruct (step_final a d w) as [(_ & ->)|(Hlen & H)].
    { exists added. cbn. split; [exact Ht|]. split; [|split]; eauto. }
    pose proof (insert_then_db d Close w rows Hd Hv) as Hdb.
    assert (E : upload_step a (FinalFlush d) w
                = match (_db_insert d ;; ret Close) w with
                  | (Ok pc', w') => (pc', w')
                  | (Raise e, w') => (Raised e, w')
                  end).
    { unfold upload_step. cbn [upload_code].
      destruct (0 <? List.length d)%nat eqn:E; [reflexivity|].
      apply Nat.ltb_ge in E. lia. }
    destruct H as [(_ & T & _)|(e & _ & T & _)]; rewrite E in T |- *;
      destruct ((_db_insert d ;; ret Close) w) as [[pc'|e'] w'];
      cbn [fst snd] in *.
    + destruct Hdb as (-> & new & Hd' & Hv' & Hnew).
      exists (added ++ [EvInsert d; EvCommit]).
      split; [rewrite T, Ht, <- app_assoc; reflexivity|].
      split; [|split].
      * cbn. exists (rows ++ new). rewrite inserts_app. cbn.
        rewrite concat_app. cbn [List.concat]. rewrite app_nil_r.
        repeat split; auto.
        intros r Hr. apply in_app_or in Hr as [Hr|Hr]; [|now apply Hnew].
        rewrite map_app. apply in_or_app. left. now apply Hall.
      * eapply grows_trans; [exact Hg|]. rewrite Hd, Hd'. cbn. eauto.
      * right. eauto.
    + exists (added ++ [EvInsert d; EvCommit]).
      split; [rewrite T, Ht, <- app_assoc; reflexivity|].
      split; [exact I|]. split; [|right; eauto]. now rewrite Hdb, <- Hd.
    + destruct Hdb as (-> & new & Hd' & Hv' & Hnew).
      exists (added ++ [EvInsert d]).
      split; [rewrite T, Ht, <- app_assoc; reflexivity|].
      split; [|split].
      * cbn. exists (rows ++ new). rewrite inserts_app. cbn.
        rewrite concat_app. cbn [List.concat]. rewrite app_nil_r.
        repeat split; auto.
        intros r Hr. apply in_app_or in Hr as [Hr|Hr]; [|now apply Hnew].
        rewrite map_app. apply in_or_app. left. now apply Hall.
      * eapply grows_trans; [exact Hg|]. rewrite Hd, Hd'. cbn. eauto.
      * right. eauto.
    + exists (added ++ [EvInsert d]).
      split; [rewrite T, Ht, <- app_assoc; reflexivity|].
      split; [exact I|]. split; [|right; eauto]. now rewrite Hdb, <- Hd.
  - destruct Hinv as (rows & Hd & Hv & Hall). rewrite step_close.
    exists (added ++ [EvClose]). cbn. split; [now rewrite Ht, <- app_assoc|].
    split; [|split; [exact Hg|right; eauto]].
    exists rows. rewrite inserts_app. cbn. rewrite app_nil_r. auto.
  - exists added. cbn. auto.
  - exists added. cbn. auto.
Qed.

Lemma upload_stored :
  exists added,
    w_trace (snd (upload a w0)) = w_trace w0 ++ added /\
    stored (fst (upload a w0)) added (snd (upload a w0)).
Proof.
  apply (upload_steps_preserve a stored w0 storage_step (upload_bound a) Init [] w0).
  - now rewrite app_nil_r.
  - unfold stored. cbn. split; [reflexivity|]. split; [apply grows_refl|now left].
Qed.

End Storage.

(** X8. [upload] never deletes or rewrites a row: whatever the service
    and the server do and however the run ends, the rows the table held
    before the run are still there afterwards, unchanged and in place, with
    at most new rows after them. *)
Theorem upload_only_appends_rows (a : args) (w : world) (rows : list row) :
  w_db_data w = Some rows ->
  exists new, w_db_data (snd (upload a w)) = Some (rows ++ new).
Proof.
  intros Hd. destruct (upload_stored a w) as (added & _ & _ & Hg & _).
  rewrite Hd in Hg. exact Hg.
Qed.

Lemma upload_only_appends_rows_witness :
  exists new,
    w_db_data
      (snd (upload (mkArgs 7 100 1 10)
                   (fresh_world twenty_three
                                (Some [row_of utc_zone 5 (sample_record 1)]) 6)))
      = Some ([row_of utc_zone 5 (sample_record 1)] ++ new).
Proof.
  apply (upload_only_appends_rows (mkArgs 7 100 1 10)
           (fresh_world twenty_three (Some [row_of utc_zone 5 (sample_record 1)]) 6)).
  reflexivity.
Defined.

(** X9. When [upload] returns, the table exists and holds a row for the
    key of every record that was handed to [_db_insert] during the run. *)
Theorem returned_upload_has_stored_every_record (a : args) (w : world) :
  fst (upload a w) = Returned ->
  exists added rows,
    w_trace (snd (upload a w)) = w_trace w ++ added /\
    w_db_data (snd (upload a w)) = Some rows /\
    (forall r, In r (List.concat (inserts added)) ->
               In (record_key r) (map row_key rows)).
Proof.
  intros Hret. destruct (upload_stored a w) as (added & Ht & Hinv & _).
  rewrite Hret in Hinv. cbn in Hinv. destruct Hinv as (rows & Hd & Hall).
  exists added, rows. auto.
Qed.

Lemma returned_upload_has_stored_every_record_witness :
  exists added rows,
    w_trace (snd (upload (mkArgs 7 100 1 10) (fresh_world twenty_three None 1)))
      = w_trace (fresh_world twenty_three None 1) ++ added /\
    w_db_data (snd (upload (mkArgs 7 100 1 10) (fresh_world twenty_three None 1)))
      = Some rows /\
    (forall r, In r (List.concat (inserts added)) ->
               In (record_key r) (map row_key rows)).
Proof.
  apply (returned_upload_has_stored_every_record (mkArgs 7 100 1 10)
           (fresh_world twenty_three None 1)).
  vm_compute. reflexivity.
Defined.

Section Ordering.

Variable a : args.

(** The connect and the table initialisation leave at most a connect and
    a commit in the trace. *)
Lemma step_init_events w :
  exists pre,
    w_trace (snd (upload_step a Init w)) = w_trace w ++ pre /\
    (pre = [] \/ pre = [EvConnect] \/ pre = [EvConnect; EvCommit]).
Proof.
  unfold upload_step. cbn [upload_code]. unfold bind, _setup, ret.
  pose proof (_db_connect_effect w) as Hc.
  destruct (_db_connect w) as [[[]|e] w1]; destruct Hc as (T1 & O1).
  2:{ exists []. cbn [snd]. rewrite app_nil_r. auto. }
  destruct (_db_table_init_effect w1) as (d & T2 & Hd & O2).
  exists (EvConnect :: d). split.
  - destruct (_db_table_init w1) as [[[]|e] w2]; cbn [snd] in *;
      rewrite T2, T1, <- app_assoc; reflexivity.
  - destruct Hd as [-> | ->]; auto.
Qed.

(** A step only adds to the trace. *)
Lemma upload_step_trace pc w :
  exists added, w_trace (snd (upload_step a pc w)) = w_trace w ++ added.
Proof.
  destruct pc as [|g d|g d|d| | |e].
  - destruct (step_init a w) as (ad & T & _). eauto.
  - destruct (step_for a g d w) as (ad & T & _). eauto.
  - destruct (step_flush a g d w) as [(_ & ->)|(_ & [(_ & T & _)|(e & _ & T & _)])];
      [exists []; cbn [snd]; now rewrite app_nil_r|eauto|eauto].
  - destruct (step_final a d w) as [(_ & ->)|(_ & [(_ & T & _)|(e & _ & T & _)])];
      [exists []; cbn [snd]; now rewrite app_nil_r|eauto|eauto].
  - rewrite step_close. exists [EvClose]. reflexivity.
  - exists []. cbn. now rewrite app_nil_r.
  - exists []. cbn. now rewrite app_nil_r.
Qed.

Lemma upload_steps_trace n : forall pc w,
  exists added, w_trace (snd (upload_steps n a pc w)) = w_trace w ++ added.
Proof.
  induction n as [|n IH]; intros pc w; cbn [upload_steps].
  - exists []. cbn. now rewrite app_nil_r.
  - destruct (upload_step_trace pc w) as (ad & T).
    destruct (upload_step a pc w) as [pc' w']. cbn [snd] in T.
    destruct (IH pc' w') as (ad' & T'). exists (ad ++ ad').
    now rewrite T', T, app_assoc.
Qed.

(** The run is its first step followed by the loop. *)
Lemma upload_after_init w :
  upload a w
    = upload_steps (upload_bound a - 1) a (fst (upload_step a Init w))
                   (snd (upload_step a Init w)).
Proof.
  unfold upload, upload_bound.
  replace (2 * Z.to_nat (horreum_count a) + 6)%nat
    with (S (2 * Z.to_nat (horreum_count a) + 5)) by lia.
  replace (S (2 * Z.to_nat (horreum_count a) + 5) - 1)%nat
    with (2 * Z.to_nat (horreum_count a) + 5)%nat by lia.
  cbn [upload_steps]. destruct (upload_step a Init w). reflexivity.
Qed.

End Ordering.

(** X11. [upload] contacts the Horreum service only once the database is
    ready. Its first step, the connect and the table initialisation of
    lines 218-223, sends no request and leaves at most a connect and a
    commit in the trace. If that step fails the run ends there with its
    error, so a run that fails to connect or to initialise the table sends
    no request at all. Otherwise everything else the run does, and so
    every request, comes after a point where the connection is open and
    the table exists, committed and seen by the connection. *)
Theorem requests_only_after_table_exists (a : args) (w : world) :
  exists pre rest,
    w_trace (snd (upload_step a Init w)) = w_trace w ++ pre /\
    w_trace (snd (upload a w)) = w_trace w ++ pre ++ rest /\
    (pre = [] \/ pre = [EvConnect] \/ pre = [EvConnect; EvCommit]) /\
    w_requests (snd (upload_step a Init w)) = w_requests w /\
    match fst (upload_step a Init w) with
    | Raised e =>
        upload a w = (Raised e, snd (upload_step a Init w)) /\ rest = []
    | pc =>
        pc = ForNext (_horreum_datasets a) [] /\
        w_conn_open (snd (upload_step a Init w)) = true /\
        exists rows,
          w_db_data (snd (upload_step a Init w)) = Some rows /\
          current_view (snd (upload_step a Init w)) = Some rows
    end.
Proof.
  destruct (step_init_events a w) as (pre & Tpre & Hpre).
  destruct (step_init_db a w) as (Hreq & _ & Htable).
  pose proof (upload_after_init a w) as Hrun.
  destruct (step_init a w) as (ad & _ & _ & _ & _ & Hcases).
  destruct Hcases as [(Hpc & _ & Ho)|(e & Hpc & _)].
  - destruct (upload_steps_trace a (upload_bound a - 1)
                (fst (upload_step a Init w)) (snd (upload_step a Init w)))
      as (rest & Trest).
    exists pre, rest. rewrite <- Hrun in Trest.
    split; [exact Tpre|]. split; [rewrite Trest, Tpre, app_assoc; reflexivity|].
    split; [exact Hpre|]. split; [exact Hreq|].
    specialize (Htable _ _ Hpc). rewrite Hpc. auto.
  - exists pre, []. rewrite Hpc in Hrun |- *. rewrite upload_steps_raised in Hrun.
    split; [exact Tpre|]. split; [rewrite Hrun, app_nil_r; exact Tpre|].
    split; [exact Hpre|]. split; [exact Hreq|]. auto.
Qed.

(* ===================================================================== *)
(** * How much a run asks of the service                                  *)
(* ===================================================================== *)

Section Budget.

Variable a : args.
Variable w0 : world.

(** One turn of the loop asks for the labels of at most one dataset, and
    only of one the generator could still yield. *)
Lemma step_for_budget g d w :
  exists added,
    w_trace (snd (upload_step a (ForNext g d) w)) = w_trace w ++ added /\
    (List.length (streamed added)
     + budget (horreum_count a) (fst (upload_step a (ForNext g d) w))
     <= gen_left (horreum_count a) g)%nat.
Proof.
  unfold upload_step. cbn [upload_code]. unfold bind.
  destruct (gen_next_effect a g w) as (d1 & T1 & (_ & _ & _ & S4) & _).
  destruct (gen_next _ _ _ g w) as [[[[ds|] g']|e] w1] eqn:Eg; cbn [snd] in T1.
  - pose proof (gen_next_left _ _ _ _ _ _ _ _ Eg) as Hl.
    pose proof (_horreum_labelvalues_world (ds_id ds) w1) as Hw.
    exists (d1 ++ [EvGetLabelValues (ds_id ds)]).
    assert (Hs : List.length (streamed (d1 ++ [EvGetLabelValues (ds_id ds)])) = 1%nat)
      by (rewrite streamed_app, S4; reflexivity).
    destruct (_horreum_labelvalues (ds_id ds) w1) as [[lv|e] w2]; cbn [snd] in Hw;
      subst w2.
    + unfold of_option.
      destruct (when_of_start (ds_start ds)); cbn [fst snd ret raise];
        (split; [cbn; rewrite T1, <- app_assoc; reflexivity|]);
        rewrite Hs; cbn [budget]; lia.
    + cbn [fst snd].
      split; [cbn; rewrite T1, <- app_assoc; reflexivity|].
      rewrite Hs. cbn [budget]. lia.
  - exists d1. cbn [fst snd ret]. split; [exact T1|].
    rewrite S4. cbn. lia.
  - exists d1. cbn [fst snd]. split; [exact T1|]. rewrite S4. cbn. lia.
Qed.

Lemma budget_step pc added w :
  w_trace w = w_trace w0 ++ added ->
  (List.length (streamed added) + budget (horreum_count a) pc
   <= Z.to_nat (Z.max (horreum_count a) 1))%nat ->
  exists added',
    w_trace (snd (upload_step a pc w)) = w_trace w0 ++ added' /\
    (List.length (streamed added')
     + budget (horreum_count a) (fst (upload_step a pc w))
     <= Z.to_nat (Z.max (horreum_count a) 1))%nat.
Proof.
  intros Ht Hb. destruct pc as [|g d|g d|d| | |e].
  - destruct (step_init a w) as (ad & T & _ & _ & Hs & H).
    exists (added ++ ad). split; [rewrite T, Ht, <- app_assoc; reflexivity|].
    rewrite streamed_app, Hs, app_nil_r.
    destruct H as [(-> & _)|(e & -> & _)]; cbn [budget gen_left _horreum_datasets] in *;
      lia.
  - destruct (step_for_budget g d w) as (ad & T & H).
    exists (added ++ ad). split; [rewrite T, Ht, <- app_assoc; reflexivity|].
    rewrite streamed_app, length_app. cbn [budget] in Hb. lia.
  - destruct (step_flush a g d w) as [(_ & ->)|(_ & [(-> & T & _)|(e & -> & T & _)])].
    + exists added. cbn [fst snd]. auto.
    + exists (added ++ [EvInsert d; EvCommit]).
      split; [rewrite T, Ht, <- app_assoc; reflexivity|].
      rewrite streamed_app, app_nil_r. cbn [budget] in *. lia.
    + exists (added ++ [EvInsert d]).
      split; [rewrite T, Ht, <- app_assoc; reflexivity|].
      rewrite streamed_app, app_nil_r. cbn [budget] in *. lia.
  - destruct (step_final a d w) as [(_ & ->)|(_ & [(-> & T & _)|(e & -> & T & _)])].
    + exists added. cbn [fst snd]. auto.
    + exists (added ++ [EvInsert d; EvCommit]).
      split; [rewrite T, Ht, <- app_assoc; reflexivity|].
      rewrite streamed_app, app_nil_r. cbn [budget] in *. lia.
    + exists (added ++ [EvInsert d]).
      split; [rewrite T, Ht, <- app_assoc; reflexivity|].
      rewrite streamed_app, app_nil_r. cbn [budget] in *. lia.
  - rewrite step_close. exists (added ++ [EvClose]). cbn [fst snd].
    split; [cbn; now rewrite Ht, <- app_assoc|].
    rewrite streamed_app, app_nil_r. cbn [budget] in *. lia.
  - exists added. cbn. auto.
  - exists added. cbn. auto.
Qed.

End Budget.

(** X10. A run of [upload] asks for the label values of at most
    [max count 1] datasets, whatever the service answers and however the
    run ends. *)
Theorem upload_streams_at_most_count (a : args) (w : world) :
  exists added,
    w_trace (snd (upload a w)) = w_trace w ++ added /\
    (List.length (streamed added) <= Z.to_nat (Z.max (horreum_count a) 1))%nat.
Proof.
  destruct (upload_steps_preserve a
              (fun pc added _ =>
                 (List.length (streamed added) + budget (horreum_count a) pc
                  <= Z.to_nat (Z.max (horreum_count a) 1))%nat) w
              (budget_step a w) (upload_bound a) Init [] w)
    as (added & Ht & Hb).
  - now rewrite app_nil_r.
  - cbn. lia.
  - exists added. split; [exact Ht|]. fold (upload a w) in Hb. lia.
Qed.

(* ===================================================================== *)
(** * The timestamp of a record is a date                                 *)
(* ===================================================================== *)

(** Evaluate the table lookups and the leap-day terms once the month and
    the leap flag are known. *)
Ltac closed_tables :=
  repeat match goal with
    | |- context [PyDatetime._DAYS_BEFORE_MONTH ?k] =>
        let v := eval vm_compute in (PyDatetime._DAYS_BEFORE_MONTH k) in
        change (PyDatetime._DAYS_BEFORE_MONTH k) with v
    | |- context [PyDatetime._DAYS_IN_MONTH ?k] =>
        let v := eval vm_compute in (PyDatetime._DAYS_IN_MONTH k) in
        change (PyDatetime._DAYS_IN_MONTH k) with v
    | |- context [if ?c then 1 else 0] =>
        let v := eval vm_compute in (if c then 1 else 0) in
        change (if c then 1 else 0) with v
    end.

Section Calendar.

Import PyDatetime.

(** The calendar date of a day between 1970-01-01 and the day 50903 days
    later. *)
Lemma _ord2ymd_range ord :
  _EPOCH_ORD <= ord <= _EPOCH_ORD + 50903 ->
  let '(y, m, d) := _ord2ymd ord in
  1970 <= y <= 2109 /\ 1 <= m <= 12 /\ 1 <= d <= 31.
Proof.
  unfold _EPOCH_ORD. intros Hord. unfold _ord2ymd. cbv zeta.
  unfold _DI400Y, _DI100Y, _DI4Y.
  pose proof (Z.div_mod (ord - 1) 146097 ltac:(lia)) as E400.
  pose proof (Z.mod_pos_bound (ord - 1) 146097 ltac:(lia)) as B400.
  remember ((ord - 1) / 146097) as n400 eqn:Hn400.
  remember ((ord - 1) mod 146097) as r400 eqn:Hr400.
  pose proof (Z.div_mod r400 36524 ltac:(lia)) as E100.
  pose proof (Z.mod_pos_bound r400 36524 ltac:(lia)) as B100.
  remember (r400 / 36524) as n100 eqn:Hn100.
  remember (r400 mod 36524) as r100 eqn:Hr100.
  pose proof (Z.div_mod r100 1461 ltac:(lia)) as E4.
  pose proof (Z.mod_pos_bound r100 1461 ltac:(lia)) as B4.
  remember (r100 / 1461) as n4 eqn:Hn4.
  remember (r100 mod 1461) as r4 eqn:Hr4.
  pose proof (Z.div_mod r4 365 ltac:(lia)) as E1.
  pose proof (Z.mod_pos_bound r4 365 ltac:(lia)) as B1.
  remember (r4 / 365) as n1 eqn:Hn1.
  remember (r4 mod 365) as n eqn:Hn.
  clear Hn400 Hr400 Hn100 Hr100 Hn4 Hr4 Hn1 Hn.
  assert (Hy : 1970 <= n400 * 400 + 1 + n100 * 100 + n4 * 4 + n1 <= 2110) by lia.
  destruct ((n1 =? 4) || (n100 =? 4)) eqn:Eb.
  - apply orb_true_iff in Eb. rewrite !Z.eqb_eq in Eb.
    cbv beta iota zeta. lia.
  - apply orb_false_iff in Eb. rewrite !Z.eqb_neq in Eb.
    rewrite Z.shiftr_div_pow2 by lia. change (2 ^ 5) with 32.
    pose proof (Z.div_mod (n + 50) 32 ltac:(lia)) as Em.
    pose proof (Z.mod_pos_bound (n + 50) 32 ltac:(lia)) as Bm.
    remember ((n + 50) / 32) as m eqn:Hm. clear Hm.
    generalize ((n1 =? 3) && (negb (n4 =? 24) || (n100 =? 3))). intros leap.
    assert (Hcases : m = 1 \/ m = 2 \/ m = 3 \/ m = 4 \/ m = 5 \/ m = 6 \/
                     m = 7 \/ m = 8 \/ m = 9 \/ m = 10 \/ m = 11 \/ m = 12) by lia.
    destruct Hcases as [->|[->|[->|[->|[->|[->|[->|[->|[->|[->|[->| ->]]]]]]]]]]];
      destruct leap; closed_tables;
      match goal with |- context [n <? ?p] => destruct (n <? p) eqn:El end;
      try apply Z.ltb_lt in El; try apply Z.ltb_ge in El;
      cbv beta iota zeta; lia.
Qed.

(** On its working range the conversion gives a date and time. *)
Lemma when_of_start_defined start :
  0 <= start < 2 ^ 42 -> exists d, when_of_start start = Some d.
Proof.
  intros Hs. rewrite (when_of_start_exact start Hs).
  unfold PyDatetime.utc_of_epoch.
  change (2 ^ 42) with 4398046511104 in Hs.
  assert (Hday : 0 <= start / 1000 / 86400 <= 50903).
  { split.
    - apply Z.div_pos; [apply Z.div_pos|]; lia.
    - apply Z.lt_succ_r. apply Z.div_lt_upper_bound; [lia|].
      apply Z.div_lt_upper_bound; lia. }
  pose proof (_ord2ymd_range (start / 1000 / 86400 + PyDatetime._EPOCH_ORD)
                ltac:(lia)) as Hymd.
  destruct (PyDatetime._ord2ymd _) as [[y m] d].
  destruct Hymd as (Hy & Hm & Hd).
  replace ((1 <=? y) && (y <=? 9999)) with true
    by (symmetry; apply andb_true_iff; split; apply Z.leb_le; lia).
  eexists. reflexivity.
Qed.

End Calendar.
(** X12. For a start between 0 and 2^42 milliseconds the conversion of
    line 229 never raises: it gives a date and time between the years
    1970 and 2109 with month, day, hour, minute and second in their
    calendar ranges, the time of day being that of the whole seconds, and
    a microsecond part that is a whole number of milliseconds. *)
Theorem start_converts_to_a_valid_datetime (start : Z) :
  0 <= start < 2 ^ 42 ->
  exists d,
    when_of_start start = Some d /\
    1970 <= PyDatetime.year d <= 2109 /\
    1 <= PyDatetime.month d <= 12 /\
    1 <= PyDatetime.day d <= 31 /\
    0 <= PyDatetime.hour d < 24 /\
    0 <= PyDatetime.minute d < 60 /\
    0 <= PyDatetime.second d < 60 /\
    3600 * PyDatetime.hour d + 60 * PyDatetime.minute d + PyDatetime.second d
      = (start / 1000) mod 86400 /\
    PyDatetime.microsecond d = 1000 * (start mod 1000).
Proof.
  intros Hs. rewrite (when_of_start_exact start Hs).
  unfold PyDatetime.utc_of_epoch.
  change (2 ^ 42) with 4398046511104 in Hs.
  assert (Hday : 0 <= start / 1000 / 86400 <= 50903).
  { split.
    - apply Z.div_pos; [apply Z.div_pos|]; lia.
    - apply Z.lt_succ_r. apply Z.div_lt_upper_bound; [lia|].
      apply Z.div_lt_upper_bound; lia. }
  pose proof (_ord2ymd_range (start / 1000 / 86400 + PyDatetime._EPOCH_ORD)
                ltac:(lia)) as Hymd.
  destruct (PyDatetime._ord2ymd _) as [[y m] d].
  destruct Hymd as (Hy & Hm & Hd).
  replace ((1 <=? y) && (y <=? 9999)) with true
    by (symmetry; apply andb_true_iff; split; apply Z.leb_le; lia).
  eexists. split; [reflexivity|]. cbn [PyDatetime.year PyDatetime.month
    PyDatetime.day PyDatetime.hour PyDatetime.minute PyDatetime.second
    PyDatetime.microsecond].
  pose proof (Z.mod_pos_bound (start / 1000) 86400 ltac:(lia)) as Hrem.
  set (rem := (start / 1000) mod 86400) in *.
  pose proof (Z.div_mod rem 3600 ltac:(lia)) as E1.
  pose proof (Z.mod_pos_bound rem 3600 ltac:(lia)) as B1.
  pose proof (Z.div_mod (rem mod 3600) 60 ltac:(lia)) as E2.
  pose proof (Z.mod_pos_bound (rem mod 3600) 60 ltac:(lia)) as B2.
  assert (E3 : rem mod 60 = (rem mod 3600) mod 60).
  { rewrite <- (Z.mod_mod_divide rem 3600 60) at 1; [reflexivity|].
    exists 60. reflexivity. }
  rewrite E3. clearbody rem.
  repeat split; lia.
Qed.

Lemma start_converts_to_a_valid_datetime_witness :
  exists d,
    when_of_start 951782400999 = Some d /\
    PyDatetime.year d = 2000 /\ PyDatetime.month d = 2 /\ PyDatetime.day d = 29 /\
    PyDatetime.microsecond d = 999000.
Proof.
  destruct (start_converts_to_a_valid_datetime 951782400999 ltac:(cbn; lia))
    as (d & E & _).
  exists d. split; [exact E|].
  assert (H : when_of_start 951782400999
              = Some (PyDatetime.mkDatetime 2000 2 29 0 0 0 999000))
    by (vm_compute; reflexivity).
  rewrite H in E. injection E as <-. repeat split.
Defined.

Section CalendarInverse.

Import PyDatetime.

(** [_ord2ymd] is undone by [ordinal_of_date], for every day. *)
Lemma ordinal_of_ord2ymd ord :
  let '(y, m, d) := _ord2ymd ord in ordinal_of_date y m d = ord.
Proof.
  unfold _ord2ymd. cbv zeta. unfold _DI400Y, _DI100Y, _DI4Y.
  pose proof (Z.div_mod (ord - 1) 146097 ltac:(lia)) as E400.
  pose proof (Z.mod_pos_bound (ord - 1) 146097 ltac:(lia)) as B400.
  remember ((ord - 1) / 146097) as n400 eqn:Hn400.
  remember ((ord - 1) mod 146097) as r400 eqn:Hr400.
  pose proof (Z.div_mod r400 36524 ltac:(lia)) as E100.
  pose proof (Z.mod_pos_bound r400 36524 ltac:(lia)) as B100.
  remember (r400 / 36524) as n100 eqn:Hn100.
  remember (r400 mod 36524) as r100 eqn:Hr100.
  pose proof (Z.div_mod r100 1461 ltac:(lia)) as E4.
  pose proof (Z.mod_pos_bound r100 1461 ltac:(lia)) as B4.
  remember (r100 / 1461) as n4 eqn:Hn4.
  remember (r100 mod 1461) as r4 eqn:Hr4.
  pose proof (Z.div_mod r4 365 ltac:(lia)) as E1.
  pose proof (Z.mod_pos_bound r4 365 ltac:(lia)) as B1.
  remember (r4 / 365) as n1 eqn:Hn1.
  remember (r4 mod 365) as n eqn:Hn.
  clear Hn400 Hr400 Hn100 Hr100 Hn4 Hr4 Hn1 Hn.
  destruct ((n1 =? 4) || (n100 =? 4)) eqn:Eb.
  - apply orb_true_iff in Eb. rewrite !Z.eqb_eq in Eb.
    cbv beta iota zeta. unfold ordinal_of_date, days_before_month, days_before_year.
    remember (n400 * 400 + 1 + n100 * 100 + n4 * 4 + n1 - 1) as y eqn:Hy.
    assert (Hshape : (n100 = 4 /\ n4 = 0 /\ n1 = 0 /\ n = 0) \/
                     (0 <= n100 <= 3 /\ 0 <= n4 <= 23 /\ n1 = 4 /\ n = 0))
      by lia.
    assert (Hyear : days_before_year y + 335 + 31 = ord).
    { unfold days_before_year. Z.div_mod_to_equations. lia. }
    assert (Hleap : is_leap_year y = true).
    { unfold is_leap_year. clear E400 B400 E100 B100 E4 B4 E1 B1 Eb Hyear.
      destruct Hshape as [(-> & -> & -> & ->)|(H100 & H4 & -> & ->)].
      - apply andb_true_iff. split; [apply Z.eqb_eq; Z.div_mod_to_equations; lia|].
        apply orb_true_iff. right. apply Z.eqb_eq. Z.div_mod_to_equations. lia.
      - apply andb_true_iff. split; [apply Z.eqb_eq; Z.div_mod_to_equations; lia|].
        apply orb_true_iff. left. apply negb_true_iff. apply Z.eqb_neq.
        Z.div_mod_to_equations. lia. }
    rewrite Hleap. change ((2 <? 12) && true) with true. cbv iota.
    change (_DAYS_BEFORE_MONTH 12) with 334.
    unfold days_before_year in Hyear. lia.
  - apply orb_false_iff in Eb. rewrite !Z.eqb_neq in Eb.
    rewrite Z.shiftr_div_pow2 by lia. change (2 ^ 5) with 32.
    pose proof (Z.div_mod (n + 50) 32 ltac:(lia)) as Em.
    pose proof (Z.mod_pos_bound (n + 50) 32 ltac:(lia)) as Bm.
    remember ((n + 50) / 32) as m eqn:Hm. clear Hm.
    assert (Hshape : 0 <= n100 <= 3 /\ 0 <= n4 <= 24 /\ 0 <= n1 <= 3) by lia.
    remember (n400 * 400 + 1 + n100 * 100 + n4 * 4 + n1) as y eqn:Hy.
    assert (Hleap : is_leap_year y
                    = (n1 =? 3) && (negb (n4 =? 24) || (n100 =? 3))).
    { unfold is_leap_year.
      destruct (Z.eqb_spec n1 3) as [H1|H1]; cbn [andb].
      - replace (y mod 4 =? 0) with true 
          by (symmetry; apply Z.eqb_eq; Z.div_mod_to_equations; lia).
        cbn [andb].
        destruct (Z.eqb_spec n4 24) as [H2|H2]; cbn [negb orb].
        + replace (y mod 100 =? 0) with true 
          by (symmetry; apply Z.eqb_eq; Z.div_mod_to_equations; lia).
          cbn [negb orb].
          destruct (Z.eqb_spec n100 3) as [H3|H3];
            [apply Z.eqb_eq|apply Z.eqb_neq]; Z.div_mod_to_equations; lia.
        + replace (y mod 100 =? 0) with false 
          by (symmetry; apply Z.eqb_neq; Z.div_mod_to_equations; lia).
          reflexivity.
      - replace (y mod 4 =? 0) with false 
          by (symmetry; apply Z.eqb_neq; Z.div_mod_to_equations; lia).
        reflexivity. }
    assert (Hyear : days_before_year y
                    = 146097 * n400 + 36524 * n100 + 1461 * n4 + 365 * n1).
    { unfold days_before_year. Z.div_mod_to_equations. lia. }
    revert Hleap. generalize ((n1 =? 3) && (negb (n4 =? 24) || (n100 =? 3))).
    intros leap Hleap.
    assert (Hcases : m = 1 \/ m = 2 \/ m = 3 \/ m = 4 \/ m = 5 \/ m = 6 \/
                     m = 7 \/ m = 8 \/ m = 9 \/ m = 10 \/ m = 11 \/ m = 12) by lia.
    destruct Hcases as [->|[->|[->|[->|[->|[->|[->|[->|[->|[->|[->| ->]]]]]]]]]]];
      destruct leap; closed_tables;
      match goal with |- context [n <? ?p] => destruct (n <? p) eqn:El end;
      try apply Z.ltb_lt in El; try apply Z.ltb_ge in El;
      cbv beta iota zeta; unfold ordinal_of_date, days_before_month;
      rewrite Hleap, Hyear; closed_tables; lia.
Qed.

(** A date and time gives back the second and the microsecond it was
    made from. *)
Lemma start_of_utc_of_epoch t us d :
  0 <= us < 1000000 ->
  utc_of_epoch t us = Some d ->
  start_of_datetime d = t * 1000 + us / 1000.
Proof.
  intros Hus. unfold utc_of_epoch.
  pose proof (ordinal_of_ord2ymd (t / 86400 + _EPOCH_ORD)) as Hinv.
  destruct (_ord2ymd _) as [[y m] dd].
  destruct ((1 <=? y) && (y <=? 9999)); [|discriminate].
  intros [= <-]. unfold start_of_datetime. cbn [year month day hour minute second
    microsecond]. rewrite Hinv.
  pose proof (Z.div_mod t 86400 ltac:(lia)) as Et.
  pose proof (Z.mod_pos_bound t 86400 ltac:(lia)) as Bt.
  set (rem := t mod 86400) in *.
  pose proof (Z.div_mod rem 3600 ltac:(lia)) as E1.
  pose proof (Z.div_mod (rem mod 3600) 60 ltac:(lia)) as E2.
  assert (E3 : rem mod 60 = (rem mod 3600) mod 60).
  { rewrite <- (Z.mod_mod_divide rem 3600 60) at 1; [reflexivity|].
    exists 60. reflexivity. }
  rewrite E3. lia.
Qed.

(** The instant of a date and time made from a second and a microsecond
    count. *)
Lemma epoch_microseconds_utc_of_epoch t us d :
  utc_of_epoch t us = Some d ->
  epoch_microseconds d = t * 1000000 + us.
Proof.
  unfold utc_of_epoch.
  pose proof (ordinal_of_ord2ymd (t / 86400 + _EPOCH_ORD)) as Hinv.
  destruct (_ord2ymd _) as [[y m] dd].
  destruct ((1 <=? y) && (y <=? 9999)); [|discriminate].
  intros [= <-]. unfold epoch_microseconds. cbn [year month day hour minute second
    microsecond]. rewrite Hinv.
  pose proof (Z.div_mod t 86400 ltac:(lia)) as Et.
  pose proof (Z.mod_pos_bound t 86400 ltac:(lia)) as Bt.
  set (rem := t mod 86400) in *.
  pose proof (Z.div_mod rem 3600 ltac:(lia)) as E1.
  pose proof (Z.div_mod (rem mod 3600) 60 ltac:(lia)) as E2.
  assert (E3 : rem mod 60 = (rem mod 3600) mod 60).
  { rewrite <- (Z.mod_mod_divide rem 3600 60) at 1; [reflexivity|].
    exists 60. reflexivity. }
  rewrite E3. lia.
Qed.

(** What the column [start] receives for a start on the working range:
    its microseconds, moved by the offset of the session's zone at that
    instant. *)
Lemma stored_start start d tz :
  0 <= start < 2 ^ 42 ->
  when_of_start start = Some d ->
  timestamptz_to_timestamp tz d = 1000 * start + 1000000 * tz (start / 1000).
Proof.
  intros Hs Hd. rewrite (when_of_start_exact start Hs) in Hd.
  apply epoch_microseconds_utc_of_epoch in Hd.
  unfold timestamptz_to_timestamp. rewrite Hd.
  pose proof (Z.div_mod start 1000 ltac:(lia)) as E.
  pose proof (Z.mod_pos_bound start 1000 ltac:(lia)) as B.
  replace ((start / 1000 * 1000000 + start mod 1000 * 1000) / 1000000)
    with (start / 1000).
  - lia.
  - apply (Z.div_unique_pos _ 1000000 _ (start mod 1000 * 1000)); lia.
Qed.

End CalendarInverse.

(** X13. Nothing of the start is lost in the conversion of line 229: for
    a start between 0 and 2^42 milliseconds the value [when] that the
    record carries determines the start (the day number of its date, its
    time of day and its microseconds give the milliseconds back), so two
    different starts never give the same [when]. This is about the value
    computed by the script. What the column [start TIMESTAMP] receives for
    it is the wall clock of the session's time zone: the microseconds of
    the start moved by the offset of the zone at that instant. *)
Theorem when_determines_the_start (start : Z) :
  0 <= start < 2 ^ 42 ->
  (exists d, when_of_start start = Some d /\ start_of_datetime d = start) /\
  (forall start', 0 <= start' < 2 ^ 42 ->
                  when_of_start start' = when_of_start start -> start' = start) /\
  (forall d tz, when_of_start start = Some d ->
                timestamptz_to_timestamp tz d
                  = 1000 * start + 1000000 * tz (start / 1000)).
Proof.
  assert (Hback : forall s d, 0 <= s < 2 ^ 42 -> when_of_start s = Some d ->
                              start_of_datetime d = s).
  { intros s d Hs Hd. rewrite (when_of_start_exact s Hs) in Hd.
    pose proof (Z.mod_pos_bound s 1000 ltac:(lia)) as Hr.
    apply start_of_utc_of_epoch in Hd; [|lia].
    rewrite Hd. pose proof (Z.div_mod s 1000 ltac:(lia)).
    replace (s mod 1000 * 1000 / 1000) with (s mod 1000)
      by (symmetry; apply Z.div_mul; lia).
    lia. }
  intros Hs.
  destruct (when_of_start_defined start Hs) as (d & Hd).
  split; [|split].
  - exists d. split; [exact Hd|]. now apply Hback.
  - intros s' Hs' Heq. rewrite Hd in Heq.
    rewrite <- (Hback s' d Hs' Heq). now apply Hback.
  - intros d' tz Hd'. now apply stored_start.
Qed.

Lemma when_determines_the_start_witness :
  exists d,
    when_of_start 1700000000123 = Some d /\
    start_of_datetime d = 1700000000123 /\
    timestamptz_to_timestamp utc_minus_5 d
      = epoch_microseconds (PyDatetime.mkDatetime 2023 11 14 17 13 20 123000).
Proof.
  destruct (when_determines_the_start 1700000000123 ltac:(cbn; lia))
    as ((d & Hd & Hback) & _ & Hstored).
  exists d. split; [exact Hd|]. split; [exact Hback|].
  rewrite (Hstored d utc_minus_5 Hd). vm_compute. reflexivity.
Defined.

(* ===================================================================== *)
(** * A run against a service and a server that behave                    *)
(* ===================================================================== *)

Section Mirror.

Variable a : args.
Variable pages : list (list dataset).
Hypothesis pages_nonempty : Forall (fun p => p <> []) pages.
Hypothesis pages_mirrorable : Forall mirrorable (selected a pages).
Hypothesis page_positive : 1 <= horreum_page a.
Variable h : horreum.
Hypothesis h_lists : lists_pages h pages.
Hypothesis h_answers : answers_labels h.
Variable before : option (list row).

Let test_id := horreum_test_id a.
Let count := horreum_count a.
Let limit := horreum_limit a.

Lemma request_page_listed counter page w :
  lists_pages (w_horreum w) pages ->
  request_page test_id limit counter page w
    = (match nth (Z.to_nat (page - 1)) pages [] with
       | ds :: rest =>
           Ok (Some ds, GenSuspended counter page
                          (nth (Z.to_nat (page - 1)) pages []) rest)
       | [] => Ok (None, GenFinished)
       end,
       after_page_request test_id page limit w).
Proof.
  intros Hl. rewrite request_page_spec, Hl. reflexivity.
Qed.

(** The page [k + 1] and what follows it. *)
Lemma concat_from_page k :
  List.concat (skipn k pages)
    = nth k pages [] ++ List.concat (skipn (S k) pages).
Proof.
  destruct (Nat.lt_ge_cases k (List.length pages)) as [Hlt|Hge].
  - rewrite (skipn_nth pages [] k Hlt). reflexivity.
  - rewrite nth_overflow by exact Hge.
    rewrite !skipn_all2 by lia. reflexivity.
Qed.

(** One call of [next] yields the head of what remains, or ends when
    nothing remains; only requests are sent. *)
Lemma gen_next_listed g w :
  lists_pages (w_horreum w) pages -> gen_ok g ->
  exists g' w',
    gen_next test_id count limit g w
      = (Ok (match remaining count pages g with
             | ds :: _ => Some ds
             | [] => None
             end, g'), w') /\
    gen_ok g' /\
    (remaining count pages g <> [] ->
     remaining count pages g' = tl (remaining count pages g)) /\
    (w' = w \/ exists page, w' = after_page_request test_id page limit w).
Proof.
  intros Hl Hg.
  assert (Hreq : forall counter page k,
             1 <= page -> (0 < k)%nat ->
             (k - 1)%nat = Z.to_nat (count - counter - 1) ->
             exists g' w',
               request_page test_id limit counter page w
                 = (Ok (match firstn k (List.concat
                                          (skipn (Z.to_nat (page - 1)) pages)) with
                        | ds :: _ => Some ds
                        | [] => None
                        end, g'), w') /\
               gen_ok g' /\
               (firstn k (List.concat (skipn (Z.to_nat (page - 1)) pages)) <> [] ->
                remaining count pages g'
                  = tl (firstn k (List.concat (skipn (Z.to_nat (page - 1)) pages)))) /\
               (w' = w \/ exists page, w' = after_page_request test_id page limit w)).
  { intros counter page k Hp Hk Hk1. rewrite (request_page_listed _ _ _ Hl).
    rewrite concat_from_page.
    destruct (nth (Z.to_nat (page - 1)) pages []) as [|ds rest] eqn:En.
    - assert (Hnil : skipn (S (Z.to_nat (page - 1))) pages = []).
      { apply skipn_all2.
        destruct (Nat.lt_ge_cases (Z.to_nat (page - 1)) (List.length pages))
          as [Hlt|Hge]; [|lia].
        exfalso. pose proof pages_nonempty as Hne. rewrite Forall_forall in Hne.
        apply (Hne (nth (Z.to_nat (page - 1)) pages [])); [now apply nth_In|exact En]. }
      rewrite Hnil. cbn [List.concat app]. rewrite firstn_nil.
      eexists _, _. split; [reflexivity|]. split; [exact I|].
      split; [congruence|]. right. eauto.
    - destruct k as [|k]; [lia|]. cbn [app firstn tl].
      eexists _, _. split; [reflexivity|].
      split; [split; [exact Hp|discriminate]|].
      split; [|right; eauto]. intros _. cbn [remaining].
      replace (Z.to_nat (count - counter - 1)) with k by lia.
      replace (S (Z.to_nat (page - 1))) with (Z.to_nat page) by lia.
      reflexivity. }
  destruct g as [page|counter page datasets rest|]; cbn [gen_next remaining gen_ok] in *.
  - apply Hreq; [exact Hg|lia|lia].
  - destruct Hg as (Hp & Hd).
    destruct (counter + 1 >=? count) eqn:E; rewrite Z.geb_leb in E.
    + apply Z.leb_le in E.
      replace (Z.to_nat (count - counter - 1)) with 0%nat by lia.
      cbn [firstn]. eexists _, _. split; [reflexivity|].
      split; [exact I|]. split; [congruence|]. now left.
    + apply Z.leb_gt in E.
      replace (Z.to_nat (count - counter - 1))
        with (S (Z.to_nat (count - (counter + 1) - 1))) by lia.
      destruct rest as [|ds rest'].
      * destruct datasets as [|d0 datasets']; [congruence|].
        cbn [List.length Nat.eqb app].
        destruct (Hreq (counter + 1) (page + 1)
                       (S (Z.to_nat (count - (counter + 1) - 1)))
                       ltac:(lia) ltac:(lia) ltac:(lia))
          as (g' & w' & Eq & Hg' & Hrem & Hw).
        replace (page + 1 - 1) with page in * by lia.
        exists g', w'. auto.
      * cbn [app firstn tl]. eexists _, _. split; [reflexivity|].
        split; [split; assumption|]. split; [|now left].
        intros _. reflexivity.
  - eexists _, _. split; [reflexivity|]. repeat split; auto; congruence.
Qed.

Lemma _horreum_labelvalues_answered dataset_id w :
  answers_labels (w_horreum w) ->
  exists response,
    api_labelValues (w_horreum w) (w_requests w) dataset_id = Some response /\
    _horreum_labelvalues dataset_id w
      = (Ok (dict_of_items (body response)), after_label_request dataset_id w).
Proof.
  intros Ha. destruct (Ha (w_requests w) dataset_id) as (r & Hr & Hs).
  exists r. split; [exact Hr|].
  unfold _horreum_labelvalues, bind, requests_get_labelValues, raise_for_status.
  rewrite Hr, Hs. reflexivity.
Qed.

Lemma conn_commit_horreum w : w_horreum (snd (conn_commit w)) = w_horreum w.
Proof.
  unfold conn_commit, db_round_trip.
  destruct (w_conn_open w); cbn [negb]; [|reflexivity].
  destruct (w_db_fault w (w_db_ops w)); [reflexivity|].
  cbn [snd log set_txn w_horreum w_txn set_db_ops].
  destruct (w_txn w); reflexivity.
Qed.

Lemma _db_insert_horreum d w : w_horreum (snd (_db_insert d w)) = w_horreum w.
Proof.
  unfold _db_insert, bind, modify, conn_cursor.
  set (w0 := log (EvInsert d) w).
  destruct (w_conn_open w0); [|reflexivity].
  pose proof (execute_pages_quiet
                (_paginate (List.length (map values_of d)) (map values_of d) 100) w0)
    as Hq.
  unfold execute_batch.
  destruct (execute_pages _ w0) as [[[]|e] w1]; cbn [snd] in Hq |- *;
    destruct Hq as (_ & _ & _ & _ & Hh & _).
  - rewrite conn_commit_horreum. exact Hh.
  - exact Hh.
Qed.

(** The connect and the table initialisation in front of a server that
    answers: the loop is entered on a healthy connection that sees the
    committed table, the table of the start or a new, empty one. *)
Lemma step_init_ready w :
  (forall n, w_db_fault w n = false) ->
  unique_keys (w_db_data w) ->
  exists w' added,
    upload_step a Init w = (ForNext (_horreum_datasets a) [], w') /\
    w_trace w' = w_trace w ++ added /\
    inserts added = [] /\ streamed added = [] /\
    w_horreum w' = w_horreum w /\
    healthy w' (table_of (w_db_data w)) /\
    w_db_data w' = Some (table_of (w_db_data w)).
Proof.
  intros Hf Hu.
  unfold upload_step. cbn [upload_code].
  unfold _setup, _db_connect, psycopg2_connect, bind, ret, db_round_trip, modify.
  rewrite Hf.
  set (w1 := log EvConnect _).
  assert (Hf1 : forall n, w_db_fault w1 n = false) by exact Hf.
  destruct (_db_table_init_ready w1 eq_refl ltac:(discriminate) Hf1)
    as (w' & E & Ho & Ht & Hf' & Hh & Hv).
  rewrite E. change (current_view w1) with (w_db_data w) in Hv.
  destruct (w_db_data w) as [rows|] eqn:Ed; destruct Hv as (Hd & Hc & Htr).
  - exists w', [EvConnect]. repeat split; auto.
    rewrite Hd. exact Ed.
  - exists w', [EvConnect; EvCommit]. repeat split; auto.
    + rewrite Htr. unfold w1. cbn. now rewrite <- app_assoc.
    + constructor.
Qed.

Lemma inserts_snoc added d :
  List.concat (inserts (added ++ [EvInsert d; EvCommit]))
    = List.concat (inserts added) ++ d.
Proof.
  rewrite inserts_app, concat_app. cbn. now rewrite app_nil_r.
Qed.

Lemma built_keys l recs :
  Forall2 (built h) l recs -> map record_key recs = map dataset_key l.
Proof.
  induction 1 as [|ds r l recs (Hk & _) _ IH]; cbn [map]; [reflexivity|].
  now rewrite Hk, IH.
Qed.

(** Requests leave the database side of the invariant alone. *)
Lemma mirrored_request taken d added extra w w' :
  mirrored h before taken d added w ->
  inserts extra = [] -> streamed extra = [] ->
  w_conn_open w' = w_conn_open w -> w_txn w' = w_txn w ->
  w_db_fault w' = w_db_fault w -> w_db_data w' = w_db_data w ->
  mirrored h before taken d (added ++ extra) w'.
Proof.
  intros (new & (Ho & Ht & Hf & Hv & Hnd) & Hd & Hst & Hk & Hs & Hcov & Hnew)
         Hi Hx Eo Et Ef Ed.
  exists new. rewrite inserts_app, streamed_app, Hi, Hx, !app_nil_r.
  unfold healthy, current_view in *. rewrite Eo, Et, Ef, Ed.
  repeat split; auto.
Qed.

(** One more dataset taken from the generator and put in the buffer. *)
Lemma mirrored_take taken d added w ds r :
  mirrored h before taken d added w ->
  mirrorable ds ->
  built h ds r ->
  mirrored h before (taken ++ [ds]) (d ++ [r])
           (added ++ [EvGetLabelValues (ds_id ds)])
           (after_label_request (ds_id ds) w).
Proof.
  intros (new & Hh & Hd & Hst & Hk & Hs & Hcov & Hnew) (M1 & M2 & M3 & _) Hb.
  exists new. rewrite inserts_app, streamed_app, Hs. cbn [inserts streamed flat_map app].
  rewrite !app_nil_r.
  split; [exact Hh|]. split; [exact Hd|]. split; [|split; [|split; [|split]]]; auto.
  - apply Forall_app. split; [exact Hst|]. constructor; [|constructor].
    destruct Hb as (Hkey & _). unfold storable.
    unfold record_key, dataset_key in Hkey. injection Hkey as E1 E2 E3.
    rewrite E1, E2, E3. auto.
  - rewrite app_assoc. apply Forall2_app; [exact Hk|].
    apply Forall2_cons; [exact Hb|apply Forall2_nil].
  - now rewrite map_app.
Qed.

(** A flush on the way: the batch is inserted and committed. *)
Lemma mirrored_flush taken d added w :
  mirrored h before taken d added w ->
  exists w',
    _db_insert d w = (Ok tt, w') /\
    w_trace w' = w_trace w ++ [EvInsert d; EvCommit] /\
    w_horreum w' = w_horreum w /\
    mirrored h before taken [] (added ++ [EvInsert d; EvCommit]) w'.
Proof.
  intros (new & Hh & Hd & Hst & Hk & Hs & Hcov & Hnew).
  destruct (_db_insert_healthy d w _ Hh Hst) as (w' & new' & E & Hh' & Hd' & Hn' & Hc').
  exists w'. split; [exact E|].
  split; [apply (_db_insert_ok _ _ _ E)|].
  split; [pose proof (_db_insert_horreum d w) as H; now rewrite E in H|].
  exists (new ++ new'). rewrite app_assoc, inserts_snoc, streamed_app, app_nil_r.
  cbn [streamed flat_map app]. rewrite app_nil_r.
  repeat split; auto; try apply Hh'.
  - intros r Hr. apply in_app_or in Hr as [Hr|Hr]; [|now apply Hc'].
    rewrite map_app. apply in_or_app. left. now apply Hcov.
  - intros r Hr. rewrite map_app. apply in_or_app.
    apply in_app_or in Hr as [Hr|Hr]; [left; now apply Hnew|right; now apply Hn'].
Qed.

(** With the generator exhausted and the buffer empty, the selection is
    in the table. *)
Lemma mirrored_done sel added w w' :
  mirrored h before sel [] added w ->
  w_db_data w' = w_db_data w ->
  mirror_done h before sel added w'.
Proof.
  intros (new & (_ & _ & _ & _ & Hnd) & Hd & _ & Hk & Hs & Hcov & Hnew) Ed.
  rewrite app_nil_r in Hk.
  exists new. repeat split; auto; congruence.
Qed.

Lemma mirror_step w0 pc added w :
  w_trace w = w_trace w0 ++ added ->
  mirror_invariant a pages h before pc added w ->
  exists added',
    w_trace (snd (upload_step a pc w)) = w_trace w0 ++ added' /\
    mirror_invariant a pages h before (fst (upload_step a pc w)) added'
                     (snd (upload_step a pc w)).
Proof.
  intros Ht (Hh & Hpc).
  assert (Hl : lists_pages (w_horreum w) pages) by (rewrite Hh; exact h_lists).
  assert (Ha : answers_labels (w_horreum w)) by (rewrite Hh; exact h_answers).
  destruct pc as [|g d|g d|d| | |e]; cbn [mirror_invariant] in Hpc.
  - (* Init *)
    destruct Hpc as (-> & <- & Hf & Hu).
    destruct (step_init_ready w Hf Hu) as (w' & ad & E & T & I1 & S1 & H1 & Hhe & Hd).
    rewrite E. cbn [fst snd]. exists ad.
    split; [rewrite T, Ht, app_nil_r; reflexivity|].
    split; [congruence|].
    cbn [mirror_invariant]. split; [exact page_positive|].
    exists []. split; [reflexivity|].
    exists []. rewrite app_nil_r, I1, S1. cbn.
    repeat split; auto; try apply Hhe; try (intros ? []); constructor.
  - (* ForNext *)
    destruct Hpc as (Hg & taken & Htk & Hm).
    destruct (gen_next_listed g w Hl Hg) as (g' & w1 & E & Hg' & Hrem & Hw1).
    unfold upload_step. cbn [upload_code]. unfold bind.
    fold test_id count limit. rewrite E.
    assert (Hw1' : exists extra,
               w_trace w1 = w_trace w ++ extra /\
               inserts extra = [] /\ streamed extra = [] /\
               w_horreum w1 = w_horreum w /\
               w_conn_open w1 = w_conn_open w /\ w_txn w1 = w_txn w /\
               w_db_fault w1 = w_db_fault w /\ w_db_data w1 = w_db_data w).
    { destruct Hw1 as [-> | (page & ->)].
      - exists []. rewrite app_nil_r. repeat split.
      - exists [EvGetDatasets test_id page limit]. repeat split. }
    destruct Hw1' as (extra & T1 & I1 & S1 & H1 & O1 & X1 & F1 & D1).
    pose proof (mirrored_request _ _ _ extra w w1 Hm I1 S1 O1 X1 F1 D1) as Hm1.
    fold count in Htk.
    destruct (remaining count pages g) as [|ds l] eqn:Er.
    + cbn [fst snd ret]. exists (added ++ extra).
      split; [rewrite T1, Ht, app_assoc; reflexivity|].
      split; [congruence|].
      cbn [mirror_invariant]. rewrite app_nil_r in Htk. now rewrite <- Htk.
    + assert (Hds : mirrorable ds).
      { pose proof pages_mirrorable as Hall. rewrite Forall_forall in Hall.
        apply Hall. rewrite <- Htk. apply in_or_app. right. now left. }
      destruct (_horreum_labelvalues_answered (ds_id ds) w1) as (resp & Hr & El);
        [now rewrite H1|].
      rewrite El.
      destruct (when_of_start_defined (ds_start ds) ltac:(apply Hds)) as (when & Ew).
      rewrite Ew. cbn [of_option ret fst snd].
      exists ((added ++ extra) ++ [EvGetLabelValues (ds_id ds)]).
      split; [cbn; rewrite T1, Ht, !app_assoc; reflexivity|].
      split; [cbn; congruence|].
      cbn [mirror_invariant]. split; [exact Hg'|].
      exists (taken ++ [ds]). split.
      * fold count.
        rewrite (Hrem ltac:(discriminate)). cbn [tl].
        rewrite <- app_assoc. exact Htk.
      * apply mirrored_take; [exact Hm1|exact Hds|].
        split; [reflexivity|]. split; [exact Ew|].
        exists (w_requests w1), resp. split; [|reflexivity].
        rewrite <- Hh, <- H1. exact Hr.
  - (* FlushTest *)
    destruct Hpc as (Hg & taken & Htk & Hm).
    unfold upload_step. cbn [upload_code].
    destruct (10 <=? List.length d)%nat.
    + destruct (mirrored_flush _ _ _ _ Hm) as (w' & E & T & H1 & Hm').
      unfold bind. rewrite E. cbn [fst snd ret].
      exists (added ++ [EvInsert d; EvCommit]).
      split; [rewrite T, Ht, app_assoc; reflexivity|].
      split; [congruence|].
      cbn [mirror_invariant]. split; [exact Hg|]. exists taken. auto.
    + cbn [fst snd ret]. exists added. split; [exact Ht|].
      split; [exact Hh|].
      cbn [mirror_invariant]. split; [exact Hg|]. exists taken. auto.
  - (* FinalFlush *)
    unfold upload_step. cbn [upload_code].
    destruct (0 <? List.length d)%nat eqn:El.
    + destruct (mirrored_flush _ _ _ _ Hpc) as (w' & E & T & H1 & Hm').
      unfold bind. rewrite E. cbn [fst snd ret].
      exists (added ++ [EvInsert d; EvCommit]).
      split; [rewrite T, Ht, app_assoc; reflexivity|].
      split; [congruence|].
      cbn [mirror_invariant]. now apply (mirrored_done _ _ w').
    + apply Nat.ltb_ge in El.
      assert (d = []) as -> by (destruct d; [reflexivity|cbn in El; lia]).
      cbn [fst snd ret]. exists added. split; [exact Ht|].
      split; [exact Hh|].
      cbn [mirror_invariant]. now apply (mirrored_done _ _ w).
  - (* Close *)
    rewrite step_close. cbn [fst snd]. exists (added ++ [EvClose]).
    split; [cbn; rewrite Ht, app_assoc; reflexivity|].
    split; [exact Hh|].
    cbn [mirror_invariant].
    destruct Hpc as (new & Hd & Hnd & Hs & Hb & Hcov & Hnew).
    exists new. rewrite inserts_app, streamed_app, !app_nil_r. repeat split; auto.
  - (* Returned *)
    cbn [upload_step upload_code fst snd]. exists added.
    split; [exact Ht|]. split; [exact Hh|exact Hpc].
  - destruct Hpc.
Qed.

Lemma upload_mirrored w :
  w_horreum w = h ->
  (forall n, w_db_fault w n = false) ->
  unique_keys before ->
  w_db_data w = before ->
  fst (upload a w) = Returned /\
  exists added,
    w_trace (snd (upload a w)) = w_trace w ++ added /\
    mirror_done h before (selected a pages) added (snd (upload a w)).
Proof.
  intros Hh Hf Hu Hd.
  destruct (upload_steps_preserve a (mirror_invariant a pages h before) w
              (mirror_step w) (upload_bound a) Init [] w)
    as (added & Ht & (_ & Hinv)).
  { now rewrite app_nil_r. }
  { split; [exact Hh|]. cbn. auto. }
  pose proof (upload_terminates a w) as Hterm.
  unfold upload in *.
  destruct (fst (upload_steps (upload_bound a) a Init w)); cbn in Hterm;
    try contradiction; cbn [mirror_invariant] in Hinv.
  split; [reflexivity|]. exists added. auto.
Qed.

End Mirror.



(* ===================================================================== *)
(** * The time zone of the session                                        *)
(* ===================================================================== *)

Section SessionZone.

Lemma keeps_zone_ret {A} (x : A) : keeps_zone (ret x).
Proof. intros w. reflexivity. Qed.

Lemma keeps_zone_raise {A} e : keeps_zone (@raise A e).
Proof. intros w. reflexivity. Qed.

Lemma keeps_zone_bind {A B} (m : M A) (f : A -> M B) :
  keeps_zone m -> (forall x, keeps_zone (f x)) -> keeps_zone (bind m f).
Proof.
  intros Hm Hf w. unfold bind. specialize (Hm w).
  destruct (m w) as [[x|e] w1]; cbn [snd] in *; [now rewrite Hf|exact Hm].
Qed.

Lemma keeps_zone_connect : keeps_zone psycopg2_connect.
Proof.
  intros w. unfold psycopg2_connect, bind, db_round_trip, modify.
  destruct (w_db_fault w (w_db_ops w)); reflexivity.
Qed.

Lemma keeps_zone_cursor : keeps_zone conn_cursor.
Proof. intros w. unfold conn_cursor. destruct (w_conn_open w); reflexivity. Qed.

Lemma keeps_zone_db_insert d : keeps_zone (_db_insert d).
Proof.
  unfold _db_insert. apply keeps_zone_bind; [intros w; reflexivity|]. intros _.
  apply keeps_zone_bind; [apply keeps_zone_cursor|]. intros _.
  apply keeps_zone_bind; [intros w; apply execute_pages_timezone|]. intros _.
  intros w. apply conn_commit_timezone.
Qed.

Lemma keeps_zone_table_init : keeps_zone _db_table_init.
Proof.
  unfold _db_table_init. apply keeps_zone_bind; [apply keeps_zone_cursor|]. intros _.
  apply keeps_zone_bind; [intros w; apply cur_execute_timezone|].
  intros b. destruct b; cbn [negb]; [apply keeps_zone_ret|].
  apply keeps_zone_bind; [intros w; apply cur_execute_timezone|]. intros _.
  intros w. apply conn_commit_timezone.
Qed.

Lemma keeps_zone_gen_next t c l g : keeps_zone (gen_next t c l g).
Proof.
  intros w. destruct (gen_next_world t c l g w) as [-> | (cn & p & ->)].
  - reflexivity.
  - rewrite request_page_spec. reflexivity.
Qed.

Lemma keeps_zone_labelvalues i : keeps_zone (_horreum_labelvalues i).
Proof. intros w. rewrite _horreum_labelvalues_world. reflexivity. Qed.

Lemma keeps_zone_upload_code a pc : keeps_zone (upload_code a pc).
Proof.
  destruct pc as [|g d|g d|d| | |e]; cbn [upload_code].
  - apply keeps_zone_bind; [apply keeps_zone_ret|]. intros _.
    apply keeps_zone_bind; [apply keeps_zone_connect|]. intros _.
    apply keeps_zone_bind; [apply keeps_zone_table_init|]. intros _.
    apply keeps_zone_ret.
  - apply keeps_zone_bind; [apply keeps_zone_gen_next|]. intros [[ds|] g'].
    + apply keeps_zone_bind; [apply keeps_zone_labelvalues|]. intros lv.
      apply keeps_zone_bind; [|intros; apply keeps_zone_ret].
      unfold of_option. destruct (when_of_start _);
        [apply keeps_zone_ret|apply keeps_zone_raise].
    + apply keeps_zone_ret.
  - destruct (10 <=? List.length d)%nat; [|apply keeps_zone_ret].
    apply keeps_zone_bind; [apply keeps_zone_db_insert|]. intros; apply keeps_zone_ret.
  - destruct (0 <? List.length d)%nat; [|apply keeps_zone_ret].
    apply keeps_zone_bind; [apply keeps_zone_db_insert|]. intros; apply keeps_zone_ret.
  - apply keeps_zone_bind; [intros w; reflexivity|]. intros; apply keeps_zone_ret.
  - apply keeps_zone_ret.
  - apply keeps_zone_ret.
Qed.

Lemma upload_step_zone a pc w :
  w_db_timezone (snd (upload_step a pc w)) = w_db_timezone w.
Proof.
  pose proof (keeps_zone_upload_code a pc w) as H. unfold upload_step.
  destruct (upload_code a pc w) as [[pc'|e] w1]; exact H.
Qed.

Lemma upload_steps_zone a n : forall pc w,
  w_db_timezone (snd (upload_steps n a pc w)) = w_db_timezone w.
Proof.
  induction n as [|n IH]; intros pc w; cbn [upload_steps]; [reflexivity|].
  pose proof (upload_step_zone a pc w) as H.
  destruct (upload_step a pc w) as [pc' w1]. cbn [snd] in H. now rewrite IH.
Qed.

End SessionZone.

(* ===================================================================== *)
(** * Batching                                                            *)
(* ===================================================================== *)

Section Batching.

Variable a : args.

Lemma insert_all_app c d tz v seq :
  insert_all (c ++ d) tz v seq =
    match insert_all c tz v seq with
    | (Ok (_, v'), seq') => insert_all d tz v' seq'
    | (Raise e, seq') => (Raise e, seq')
    end.
Proof.
  unfold insert_all. rewrite !map_app. apply statements_app.
Qed.

(** The table initialisation, when it returns on a connection without a
    transaction: the connection sees the committed table, the one that
    was there or a new, empty one whose sequence starts at 1. *)
Lemma _db_table_init_seq w w' :
  w_txn w = TxnIdle ->
  _db_table_init w = (Ok tt, w') ->
  w_db_data w' = Some (table_of (w_db_data w)) /\
  current_view w' = w_db_data w' /\
  w_db_seq w' = start_seq (w_db_data w) (w_db_seq w).
Proof.
  intros Ht. unfold _db_table_init, bind, conn_cursor.
  destruct (w_conn_open w); [|discriminate].
  pose proof (cur_execute_quiet select_table_exists w) as Q1.
  destruct (cur_execute select_table_exists w) as [[b|e] w1] eqn:E1;
    [|discriminate].
  cbn [snd] in Q1. destruct Q1 as (_ & _ & D1 & _).
  apply cur_execute_ok in E1 as (v1 & Hs1 & T1 & _).
  unfold select_table_exists, current_view in Hs1. rewrite Ht in Hs1.
  injection Hs1 as Hb Hv1 Hq1.
  destruct (w_db_data w) as [rows|] eqn:Ed; subst b; cbn [negb].
  - unfold ret. intros [= <-]. unfold current_view. rewrite T1, <- Hv1, D1.
    cbn [table_of start_seq]. auto.
  - pose proof (cur_execute_quiet create_table w1) as Q2.
    destruct (cur_execute create_table w1) as [[u|e] w2] eqn:E2; [|discriminate].
    cbn [snd] in Q2. destruct Q2 as (_ & _ & D2 & _).
    apply cur_execute_ok in E2 as (v2 & Hs2 & T2 & _).
    unfold create_table, current_view in Hs2. rewrite T1, <- Hv1 in Hs2.
    injection Hs2 as _ Hv2 Hq2.
    intros Hc. apply conn_commit_ok in Hc as (_ & D3 & T3 & _ & Q3).
    unfold current_view in D3 |- *. rewrite T2, <- Hv2 in D3. rewrite T3, Q3, <- Hq2.
    cbn [table_of start_seq]. auto.
Qed.

Lemma step_init_seq w g d w' :
  upload_step a Init w = (ForNext g d, w') ->
  w_db_data w' = Some (table_of (w_db_data w)) /\
  current_view w' = w_db_data w' /\
  w_db_seq w' = start_seq (w_db_data w) (w_db_seq w).
Proof.
  unfold upload_step. cbn [upload_code].
  unfold _setup, _db_connect, psycopg2_connect, bind, ret, db_round_trip, modify.
  destruct (w_db_fault w (w_db_ops w)); [discriminate|].
  set (w1 := log EvConnect _).
  destruct (_db_table_init w1) as [[[]|e] w2] eqn:E; [|discriminate].
  intros [= _ _ <-]. exact (_db_table_init_seq w1 w2 eq_refl E).
Qed.

Lemma step_for_seq g d w :
  w_db_seq (snd (upload_step a (ForNext g d) w)) = w_db_seq w.
Proof.
  unfold upload_step. cbn [upload_code]. unfold bind.
  assert (Hg : w_db_seq (snd (gen_next (horreum_test_id a) (horreum_count a)
                                       (horreum_limit a) g w)) = w_db_seq w).
  { destruct (gen_next_world (horreum_test_id a) (horreum_count a) (horreum_limit a)
                             g w) as [-> | (c & p & ->)]; [reflexivity|].
    rewrite request_page_spec. reflexivity. }
  destruct (gen_next _ _ _ g w) as [[[[ds|] g']|e] w1]; cbn [snd] in Hg |- *;
    [|exact Hg|exact Hg].
  pose proof (_horreum_labelvalues_world (ds_id ds) w1) as Hl.
  destruct (_horreum_labelvalues (ds_id ds) w1) as [[lv|e] w2]; cbn [snd] in Hl;
    subst w2.
  - unfold of_option. destruct (when_of_start (ds_start ds)); exact Hg.
  - exact Hg.
Qed.

(** A flush that returns extends the one INSERT sequence by its batch. *)
Lemma insert_then_batch before seq added d (next : upload_pc) w :
  insert_all (List.concat (inserts added)) (w_db_timezone w)
             (Some (table_of before)) (start_seq before seq)
    = (Ok (tt, w_db_data w), w_db_seq w) ->
  current_view w = w_db_data w ->
  match (_db_insert d ;; ret next) w with
  | (Ok pc', w') =>
      pc' = next /\
      insert_all (List.concat (inserts (added ++ [EvInsert d; EvCommit])))
                 (w_db_timezone w) (Some (table_of before)) (start_seq before seq)
        = (Ok (tt, w_db_data w'), w_db_seq w') /\
      current_view w' = w_db_data w'
  | (Raise _, _) => True
  end.
Proof.
  intros Hi Hv. unfold bind.
  destruct (_db_insert d w) as [[[]|e] w'] eqn:E; [|exact I].
  apply _db_insert_ok in E as (_ & (v' & Hins & Hd) & Ht & _).
  cbn [ret]. split; [reflexivity|]. split.
  - rewrite inserts_app, concat_app. cbn [inserts flat_map app List.concat].
    rewrite app_nil_r, insert_all_app, Hi, <- Hv, Hd. exact Hins.
  - unfold current_view. now rewrite Ht.
Qed.

Variable w0 : world.

Let batched := batch_invariant (w_db_timezone w0) (w_db_data w0) (w_db_seq w0).

Lemma batch_step pc added w :
  w_trace w = w_trace w0 ++ added ->
  batched pc added w ->
  exists added',
    w_trace (snd (upload_step a pc w)) = w_trace w0 ++ added' /\
    batched (fst (upload_step a pc w)) added' (snd (upload_step a pc w)).
Proof.
  intros Ht Hpc. unfold batched in *.
  pose proof (upload_step_zone a pc w) as Hzone.
  destruct pc as [|g d|g d|d| | |e]; cbn [batch_invariant] in Hpc.
  - destruct Hpc as (-> & Hd & Hq & Hz).
    destruct (step_init a w) as (ad & T & _ & I1 & _ & Hcases).
    exists ad. split; [rewrite T, Ht, app_nil_r; reflexivity|].
    destruct Hcases as [(Hpc' & _)|(e & Hpc' & _)]; rewrite Hpc';
      cbn [batch_invariant]; [|exact I].
    destruct (upload_step a Init w) as [pc' w'] eqn:E. cbn [fst snd] in *. subst pc'.
    apply step_init_seq in E as (D & V & Q).
    rewrite I1. cbn [List.concat]. unfold insert_all. cbn [map statements].
    rewrite <- Hd, <- Hq, D, Q. split; [reflexivity|]. split; congruence.
  - destruct Hpc as (Hi & Hv & Hz).
    destruct (step_for a g d w) as (ad & T & _ & _ & I1 & _ & Hcases).
    destruct (step_for_db a g d w) as (D & V).
    pose proof (step_for_seq g d w) as Q.
    exists (added ++ ad). split; [rewrite T, Ht, app_assoc; reflexivity|].
    destruct Hcases as [(g' & r & -> & _)|[(-> & _)|(e & ->)]];
      cbn [batch_invariant]; try exact I;
      rewrite inserts_app, I1, app_nil_r, D, Q, V, Hzone; auto.
  - destruct Hpc as (Hi & Hv & Hz).
    unfold upload_step in *. cbn [upload_code] in *.
    destruct (10 <=? List.length d)%nat.
    + rewrite <- Hz in Hi.
      pose proof (insert_then_batch _ _ added d (ForNext g []) w Hi Hv) as H.
      pose proof (insert_then d (ForNext g []) w) as Htr.
      destruct ((_db_insert d ;; ret (ForNext g [])) w) as [[pc'|e] w']; cbn [fst snd] in *.
      * destruct H as (-> & H1 & H2). destruct Htr as (_ & T & _).
        exists (added ++ [EvInsert d; EvCommit]).
        split; [rewrite T, Ht, app_assoc; reflexivity|]. cbn [batch_invariant].
        rewrite <- Hz. auto.
      * destruct Htr as (T & _). exists (added ++ [EvInsert d]).
        split; [rewrite T, Ht, app_assoc; reflexivity|exact I].
    + cbn [fst snd ret]. exists added. split; [exact Ht|]. cbn [batch_invariant]. auto.
  - destruct Hpc as (Hi & Hv & Hz).
    unfold upload_step in *. cbn [upload_code] in *.
    destruct (0 <? List.length d)%nat.
    + rewrite <- Hz in Hi.
      pose proof (insert_then_batch _ _ added d Close w Hi Hv) as H.
      pose proof (insert_then d Close w) as Htr.
      destruct ((_db_insert d ;; ret Close) w) as [[pc'|e] w']; cbn [fst snd] in *.
      * destruct H as (-> & H1 & H2). destruct Htr as (_ & T & _).
        exists (added ++ [EvInsert d; EvCommit]).
        split; [rewrite T, Ht, app_assoc; reflexivity|]. cbn [batch_invariant].
        rewrite <- Hz. auto.
      * destruct Htr as (T & _). exists (added ++ [EvInsert d]).
        split; [rewrite T, Ht, app_assoc; reflexivity|exact I].
    + cbn [fst snd ret]. exists added. split; [exact Ht|]. cbn [batch_invariant]. auto.
  - destruct Hpc as (Hi & _).
    rewrite step_close. cbn [fst snd]. exists (added ++ [EvClose]).
    split; [cbn; rewrite Ht, app_assoc; reflexivity|].
    cbn [batch_invariant]. rewrite inserts_app, app_nil_r. exact Hi.
  - cbn [upload_step upload_code fst snd]. exists added. auto.
  - cbn [upload_step upload_code fst snd]. exists added. auto.
Qed.

Lemma upload_batched :
  exists added,
    w_trace (snd (upload a w0)) = w_trace w0 ++ added /\
    batched (fst (upload a w0)) added (snd (upload a w0)).
Proof.
  apply (upload_steps_preserve a batched w0 batch_step (upload_bound a) Init [] w0).
  - now rewrite app_nil_r.
  - unfold batched. cbn. auto.
Qed.

End Batching.

(** X15. Batching does not change what is stored: when [upload] returns,
    the committed table is what a single sequence of the INSERT
    statements, one per record handed to [_db_insert] during the run and
    in that order, run in the time zone of the session, makes of the table
    of the start (an empty table with a sequence starting at 1 if it had
    to be created). *)
Theorem batches_compose_to_one_sequence (a : args) (w : world) :
  fst (upload a w) = Returned ->
  exists added,
    w_trace (snd (upload a w)) = w_trace w ++ added /\
    insert_all (List.concat (inserts added)) (w_db_timezone w)
               (Some (table_of (w_db_data w))) (start_seq (w_db_data w) (w_db_seq w))
      = (Ok (tt, w_db_data (snd (upload a w))), w_db_seq (snd (upload a w))).
Proof.
  intros Hret. destruct (upload_batched a w) as (added & Ht & Hb).
  exists added. split; [exact Ht|]. rewrite Hret in Hb. exact Hb.
Qed.

Lemma batches_compose_to_one_sequence_witness :
  exists added,
    w_trace (snd (upload (mkArgs 7 100 1 10) (fresh_world twenty_three None 1)))
      = w_trace (fresh_world twenty_three None 1) ++ added /\
    insert_all (List.concat (inserts added)) utc_zone (Some []) 1
      = (Ok (tt, w_db_data (snd (upload (mkArgs 7 100 1 10)
                                        (fresh_world twenty_three None 1)))),
         w_db_seq (snd (upload (mkArgs 7 100 1 10)
                               (fresh_world twenty_three None 1)))).
Proof.
  apply (batches_compose_to_one_sequence (mkArgs 7 100 1 10)
           (fresh_world twenty_three None 1)).
  vm_compute. reflexivity.
Defined.

(* ===================================================================== *)
(** * The table after a run without conflicts                             *)
(* ===================================================================== *)

Section ExactMirror.

(** Records with new, pairwise distinct keys are all stored, in order and
    under consecutive ids. *)
Lemma insert_all_fresh tz d : forall rows seq,
  Forall storable d ->
  NoDup (map record_key d) ->
  (forall r, In r d -> ~ In (record_key r) (map row_key rows)) ->
  insert_all d tz (Some rows) seq
    = (Ok (tt, Some (rows ++ rows_of tz seq d)), seq + Z.of_nat (List.length d)).
Proof.
  induction d as [|r d IH]; intros rows seq Hst Hnd Hfresh.
  - cbn. now rewrite app_nil_r, Z.add_0_r.
  - inversion Hst as [|? ? (S1 & S2 & S3) Hst']; subst.
    inversion Hnd as [|? ? Hr Hnd']; subst.
    unfold insert_all. cbn [map statements].
    assert (Hone : insert_on_conflict_do_nothing (values_of r) tz (Some rows) seq
                   = (Ok (tt, Some (rows ++ [row_of tz seq r])), seq + 1)).
    { unfold insert_on_conflict_do_nothing, values_of, row_of.
      rewrite S1, S2, S3. cbn [andb].
      destruct (existsb _ rows) eqn:E; [|reflexivity].
      apply existsb_key in E. exfalso. apply (Hfresh r); [now left|exact E]. }
    rewrite Hone. fold (insert_all d). rewrite IH; auto.
    + cbn [rows_of List.length]. rewrite <- app_assoc. cbn [app].
      f_equal. lia.
    + intros r' Hr' Hin. rewrite keys_snoc in Hin.
      apply in_app_or in Hin as [Hin|[Hin|[]]].
      * apply (Hfresh r'); [now right|exact Hin].
      * apply Hr. cbn [row_of row_key row_testid row_runid row_datasetid] in Hin.
        change (record_key r = record_key r') in Hin. rewrite Hin.
        now apply in_map.
Qed.

Lemma built_storable h l recs :
  Forall2 (built h) l recs -> Forall mirrorable l -> Forall storable recs.
Proof.
  induction 1 as [|ds r l recs (Hk & _) _ IH]; intros Hm; [constructor|].
  inversion Hm as [|? ? (M1 & M2 & M3 & _) Hm']; subst.
  constructor; [|now apply IH].
  unfold record_key, dataset_key in Hk. injection Hk as E1 E2 E3.
  unfold storable. rewrite E1, E2, E3. auto.
Qed.

End ExactMirror.


